(** * aiohttp/protocol.py: HTTP/1.x parsers and payload writer

    A shallow embedding of [aiohttp/protocol.py]: the header and start-line
    parsers, [HttpPayloadParser], [DeflateBuffer], [PayloadWriter] and
    [HttpMessage] with its [Request] / [Response] subclasses, followed by
    the properties checked against them.

    Conventions.  Python [bytes] are lists of [byte]; Python [str] are lists
    of code points.  Mutable objects are records passed explicitly; a method
    returns the updated object together with what it returns or raises.
    Builtins whose behaviour is fixed outside this module ([int], [str]
    methods, [zlib], [multidict.istr]) are fields of the classes [Builtins]
    and [Zlib]. *)

From Stdlib Require Import ZArith NArith List Bool Lia String Ascii.
From Stdlib Require Import Strings.Byte.
Import ListNotations.
Open Scope Z_scope.

(** ** Python values *)

Definition bytes := list byte.
Definition pystr := list N.

(** A bytes literal and a str literal. *)
Definition b (s : string) : bytes := list_byte_of_string s.
Definition lit (s : string) : pystr := map Byte.to_N (list_byte_of_string s).

Definition CR : byte := x0d.
Definition LF : byte := x0a.
Definition SEP : bytes := [CR; LF].
Definition CHUNK_EXT : bytes := [x3b].

Definition len {A} (l : list A) : Z := Z.of_nat (List.length l).

(** Truthiness of a sequence. *)
Definition truthy {A} (l : list A) : bool :=
  match l with [] => false | _ :: _ => true end.

(** Slice bounds as Python clamps them: a negative index counts from the
    end, and both ends saturate. *)
Definition clamp {A} (l : list A) (i : Z) : nat :=
  if i <? 0 then Z.to_nat (Z.max 0 (len l + i)) else Z.to_nat i.

(** [l[:i]] and [l[i:]]. *)
Definition slice_to {A} (l : list A) (i : Z) : list A := firstn (clamp l i) l.
Definition slice_from {A} (l : list A) (i : Z) : list A := skipn (clamp l i) l.

Fixpoint bytes_eqb (x y : bytes) : bool :=
  match x, y with
  | [], [] => true
  | a :: x', c :: y' => Byte.eqb a c && bytes_eqb x' y'
  | _, _ => false
  end.

Fixpoint startswith (l sub : bytes) {struct sub} : bool :=
  match sub, l with
  | [], _ => true
  | a :: sub', c :: l' => Byte.eqb a c && startswith l' sub'
  | _ :: _, [] => false
  end.

(** Offset of the first occurrence of [sub] in [l]. *)
Fixpoint index (l sub : bytes) : option nat :=
  if startswith l sub then Some O
  else match l with
       | [] => None
       | _ :: l' => option_map S (index l' sub)
       end.

(** [l.find(sub)]: the offset, or -1. *)
Definition find (l sub : bytes) : Z :=
  match index l sub with Some i => Z.of_nat i | None => -1 end.

(** [l.find(sub, 0, stop)]. *)
Definition find_until (l sub : bytes) (stop : Z) : Z := find (slice_to l stop) sub.

(** ** Exceptions *)

Inductive exn :=
| TransferEncodingError (arg : bytes)
| ContentEncodingError (arg : string)
| InvalidHeader (arg : bytes)
| LineTooLong (field : bytes) (limit : Z)
| BadStatusLine (arg : pystr)
| AttributeError (obj attr : string)
| IndexError
| ValueError
| AssertionError (msg : string).

(** ** The ASCII fragment of the builtins

    The ASCII fragment of the [str] and [int] builtins, enough to run the
    model on ASCII input: [decode] is exact on ASCII bytes, the character
    classes and case mappings are those of the ASCII range, [istr] is
    [str.title] as in multidict 2.x, and [int] accepts surrounding
    whitespace, a sign and, in base 16, a [0x] prefix. *)
Module Ascii7.

Definition in_range (lo hi c : N) : bool := ((lo <=? c) && (c <=? hi))%N.
Definition is_ascii (c : N) : bool := (c <? 128)%N.
Definition isspace (c : N) : bool := in_range 9 13 c || in_range 28 32 c.
Definition isdigit (c : N) : bool := in_range 48 57 c.
Definition isupper (c : N) : bool := in_range 65 90 c.
Definition islower (c : N) : bool := in_range 97 122 c.
Definition to_lower (c : N) : N := if isupper c then (c + 32)%N else c.
Definition to_upper (c : N) : N := if islower c then (c - 32)%N else c.

(** [str.title]: the first letter of each run of letters in upper case, the
    others in lower case. *)
Fixpoint title (cased : bool) (s : pystr) : pystr :=
  match s with
  | [] => []
  | c :: s' =>
      if isupper c || islower c
      then (if cased then to_lower c else to_upper c) :: title true s'
      else c :: title false s'
  end.

Definition digit_value (base c : N) : option Z :=
  let v := if isdigit c then Some (c - 48)%N
           else if islower c then Some (c - 87)%N
           else if isupper c then Some (c - 55)%N
           else None in
  match v with
  | Some d => if (d <? base)%N then Some (Z.of_N d) else None
  | None => None
  end.

Fixpoint digits (base : N) (acc : Z) (s : pystr) : option Z :=
  match s with
  | [] => Some acc
  | c :: s' =>
      match digit_value base c with
      | Some d => digits base (Z.of_N base * acc + d) s'
      | None => None
      end
  end.

Fixpoint lstrip (s : pystr) : pystr :=
  match s with
  | [] => []
  | c :: s' => if isspace c then lstrip s' else s
  end.

Definition strip (s : pystr) : pystr := rev (lstrip (rev (lstrip s))).

Definition unsigned (base : N) (s : pystr) : option Z :=
  let s := match s with
           | z :: x :: r =>
               if ((base =? 16) && (z =? 48) && ((x =? 120) || (x =? 88)))%N
               then r else s
           | _ => s
           end in
  match s with
  | [] => None
  | _ => digits base 0 s
  end.

Definition int_ (base : N) (s : pystr) : option Z :=
  match strip s with
  | c :: r =>
      if (c =? 45)%N then option_map Z.opp (unsigned base r)
      else if (c =? 43)%N then unsigned base r
      else unsigned base (c :: r)
  | [] => None
  end.

Definition decode (x : bytes) : pystr := map Byte.to_N x.

Definition encode (s : pystr) : bytes :=
  map (fun c => match Byte.of_N c with Some x => x | None => x3f end) s.

Fixpoint decimal (fuel : nat) (n : N) : pystr :=
  match fuel with
  | O => []
  | S fuel =>
      if (n <? 10)%N then [(48 + n)%N]
      else decimal fuel (n / 10) ++ [(48 + n mod 10)%N]
  end.

Definition format_int (n : Z) : pystr :=
  let digits := decimal (S (N.to_nat (N.log2 (Z.to_N (Z.abs n))))) (Z.to_N (Z.abs n)) in
  if n <? 0 then 45%N :: digits else digits.

End Ascii7.

(** ** Builtins taken from the Python runtime and from multidict *)

Class Builtins := {
  (** [int(x, 16)] on bytes; [None] is ValueError. *)
  int16 : bytes -> option Z;
  (** [x.decode('utf-8', 'surrogateescape')]. *)
  decode : bytes -> pystr;
  (** Whitespace as [str.split] and [str.strip] see it. *)
  isspace : N -> bool;
  (** The class [\d] of [re] on str patterns. *)
  isdigit : N -> bool;
  lower : pystr -> pystr;
  upper : pystr -> pystr;
  (** [multidict.istr]: the canonical spelling of a header name. *)
  istr : pystr -> pystr;
  (** [int(s)] on str; [None] is ValueError. *)
  int10 : pystr -> option Z;
  (** A run of decimal digits denotes a natural number. *)
  int10_digits : forall s n,
      forallb isdigit s = true -> int10 s = Some n -> 0 <= n;
  (** [x.encode('utf-8')] and ['{}'.format(n)] for an integer [n]. *)
  encode : pystr -> bytes;
  format_int : Z -> pystr;
  (** On ASCII names [istr] is [str.title] (multidict 2.x). *)
  istr_ascii : forall s,
      forallb Ascii7.is_ascii s = true -> istr s = Ascii7.title false s
}.

(** The streaming codec of the zlib module. *)
Class Zlib := {
  decompressobj : Type;
  zlib_decompressobj : Z -> decompressobj;
  (** [None] when [decompress] raises. *)
  zlib_decompress : decompressobj -> bytes -> option (decompressobj * bytes);
  zlib_dflush : decompressobj -> decompressobj * bytes;
  zlib_eof : decompressobj -> bool;
  compressobj : Type;
  zlib_compressobj : Z -> compressobj;
  zlib_compress : compressobj -> bytes -> compressobj * bytes;
  zlib_cflush : compressobj -> compressobj * bytes
}.

Definition MAX_WBITS : Z := 15.

(** [16 + zlib.MAX_WBITS if encoding == 'gzip' else -zlib.MAX_WBITS] *)
Definition zlib_mode (encoding : string) : Z :=
  if String.eqb encoding "gzip" then 16 + MAX_WBITS else - MAX_WBITS.

(** ** The payload sink and [DeflateBuffer] *)

(** The sink is an external collaborator; it is represented by the calls it
    has received, oldest first. *)
Inductive sink_call :=
| feed_data_call (data : bytes) (size : Z)
| feed_eof_call
| set_exception_call (e : exn).

Definition StreamSink := list sink_call.

(** All body bytes forwarded to a sink, concatenated. *)
Fixpoint sink_bytes (s : StreamSink) : bytes :=
  match s with
  | [] => []
  | feed_data_call d _ :: s' => d ++ sink_bytes s'
  | _ :: s' => sink_bytes s'
  end.

Definition sink_eof (s : StreamSink) : bool :=
  existsb (fun c => match c with feed_eof_call => true | _ => false end) s.

(** What a call leaves behind: the object (paired with this), and either the returned value or
    the exception raised. *)
Inductive outcome (A : Type) :=
| Returned (a : A)
| Raised (e : exn).
Arguments Returned {A} a.
Arguments Raised {A} e.

Section Parser.
Context {B : Builtins} {Zl : Zlib}.

(** What [self.payload] of a parser refers to: the sink itself, or a
    [DeflateBuffer] (fields [out], [size], [zlib]) wrapped around it. *)
Inductive Payload :=
| Sink (out : StreamSink)
| DeflateBuffer (out : StreamSink) (size : Z) (zlib : decompressobj).

Definition payload_out (pl : Payload) : StreamSink :=
  match pl with Sink out => out | DeflateBuffer out _ _ => out end.

(** [DeflateBuffer.__init__] *)
Definition DeflateBuffer_init (out : StreamSink) (encoding : string) : Payload :=
  DeflateBuffer out 0 (zlib_decompressobj (zlib_mode encoding)).

(** [payload.feed_data(chunk, size)]; the second component is the exception
    raised, if any. *)
Definition Payload_feed_data (pl : Payload) (chunk : bytes) (size : Z)
  : Payload * option exn :=
  match pl with
  | Sink out => (Sink (out ++ [feed_data_call chunk size]), None)
  | DeflateBuffer out sz z =>
      let sz := sz + size in
      match zlib_decompress z chunk with
      | None => (DeflateBuffer out sz z, Some (ContentEncodingError "deflate"))
      | Some (z, chunk) =>
          if truthy chunk
          then (DeflateBuffer (out ++ [feed_data_call chunk (len chunk)]) sz z, None)
          else (DeflateBuffer out sz z, None)
      end
  end.

(** [payload.feed_eof()] *)
Definition Payload_feed_eof (pl : Payload) : Payload * option exn :=
  match pl with
  | Sink out => (Sink (out ++ [feed_eof_call]), None)
  | DeflateBuffer out sz z =>
      let (z, chunk) := zlib_dflush z in
      if truthy chunk || (sz >? 0) then
        let out := out ++ [feed_data_call chunk (len chunk)] in
        if negb (zlib_eof z)
        then (DeflateBuffer out sz z, Some (ContentEncodingError "deflate"))
        else (DeflateBuffer (out ++ [feed_eof_call]) sz z, None)
      else (DeflateBuffer (out ++ [feed_eof_call]) sz z, None)
  end.

(** [payload.set_exception(exc)]: class [DeflateBuffer] defines only
    [feed_data] and [feed_eof]. *)
Definition Payload_set_exception (pl : Payload) (exc : exn) : Payload * option exn :=
  match pl with
  | Sink out => (Sink (out ++ [set_exception_call exc]), None)
  | DeflateBuffer _ _ _ => (pl, Some (AttributeError "DeflateBuffer" "set_exception"))
  end.

(** ** [HttpPayloadParser] *)

Inductive ParseType := PARSE_NONE | PARSE_LENGTH | PARSE_CHUNKED | PARSE_UNTIL_EOF.

Inductive ChunkState :=
| PARSE_CHUNKED_SIZE
| PARSE_CHUNKED_CHUNK
| PARSE_CHUNKED_CHUNK_EOF
| PARSE_CHUNKED_TRAILERS.

Definition ChunkState_eqb (x y : ChunkState) : bool :=
  match x, y with
  | PARSE_CHUNKED_SIZE, PARSE_CHUNKED_SIZE
  | PARSE_CHUNKED_CHUNK, PARSE_CHUNKED_CHUNK
  | PARSE_CHUNKED_CHUNK_EOF, PARSE_CHUNKED_CHUNK_EOF
  | PARSE_CHUNKED_TRAILERS, PARSE_CHUNKED_TRAILERS => true
  | _, _ => false
  end.

Record HttpPayloadParser := {
  payload : Payload;
  _length : Z;
  _type : ParseType;
  _chunk : ChunkState;
  _chunk_size : Z;
  _chunk_tail : bytes;
  done : bool
}.

Definition set_payload (p : HttpPayloadParser) (v : Payload) :=
  {| payload := v; _length := _length p; _type := _type p; _chunk := _chunk p;
     _chunk_size := _chunk_size p; _chunk_tail := _chunk_tail p; done := done p |}.
Definition set_length (p : HttpPayloadParser) (v : Z) :=
  {| payload := payload p; _length := v; _type := _type p; _chunk := _chunk p;
     _chunk_size := _chunk_size p; _chunk_tail := _chunk_tail p; done := done p |}.
Definition set_type (p : HttpPayloadParser) (v : ParseType) :=
  {| payload := payload p; _length := _length p; _type := v; _chunk := _chunk p;
     _chunk_size := _chunk_size p; _chunk_tail := _chunk_tail p; done := done p |}.
Definition set_chunk (p : HttpPayloadParser) (v : ChunkState) :=
  {| payload := payload p; _length := _length p; _type := _type p; _chunk := v;
     _chunk_size := _chunk_size p; _chunk_tail := _chunk_tail p; done := done p |}.
Definition set_chunk_size (p : HttpPayloadParser) (v : Z) :=
  {| payload := payload p; _length := _length p; _type := _type p; _chunk := _chunk p;
     _chunk_size := v; _chunk_tail := _chunk_tail p; done := done p |}.
Definition set_chunk_tail (p : HttpPayloadParser) (v : bytes) :=
  {| payload := payload p; _length := _length p; _type := _type p; _chunk := _chunk p;
     _chunk_size := _chunk_size p; _chunk_tail := v; done := done p |}.
Definition set_done (p : HttpPayloadParser) (v : bool) :=
  {| payload := payload p; _length := _length p; _type := _type p; _chunk := _chunk p;
     _chunk_size := _chunk_size p; _chunk_tail := _chunk_tail p; done := v |}.

(** The payload method [f] called on [self.payload]; [k] runs if it returns. *)
Definition call_payload {A} (f : Payload -> Payload * option exn)
    (p : HttpPayloadParser)
    (k : HttpPayloadParser -> HttpPayloadParser * outcome A)
  : HttpPayloadParser * outcome A :=
  let (pl, e) := f (payload p) in
  match e with
  | None => k (set_payload p pl)
  | Some e => (set_payload p pl, Raised e)
  end.

(** [HttpPayloadParser.__init__]; [compression] is [None] or the name of the
    content coding. *)
Definition HttpPayloadParser_init (sink : StreamSink)
    (length : option Z) (chunked : bool) (compression : option string)
    (code : option Z) (method : option pystr)
    (readall : bool) (response_with_body : bool)
  : HttpPayloadParser * outcome unit :=
  let self := {| payload := Sink sink; _length := 0; _type := PARSE_NONE;
                 _chunk := PARSE_CHUNKED_SIZE; _chunk_size := 0;
                 _chunk_tail := []; done := false |} in
  (* payload decompression wrapper *)
  let payload0 :=
    match compression with
    | Some enc =>
        if response_with_body && negb (String.eqb enc "")
        then DeflateBuffer_init sink enc else Sink sink
    | None => Sink sink
    end in
  (* until [self.payload = payload] at the end, [payload] is a local *)
  let self := set_payload self payload0 in
  if negb response_with_body then
    let self := set_type self PARSE_NONE in
    call_payload Payload_feed_eof self (fun self =>
    (set_done self true, Returned tt))
  else if chunked then
    (set_type self PARSE_CHUNKED, Returned tt)
  else
    match length with
    | Some l =>
        let self := set_length (set_type self PARSE_LENGTH) l in
        if _length self =? 0 then
          call_payload Payload_feed_eof self (fun self =>
          (set_done self true, Returned tt))
        else (self, Returned tt)
    | None =>
        if readall && negb (match code with Some 204 => true | _ => false end) then
          (set_type self PARSE_UNTIL_EOF, Returned tt)
        else if match method with
                | Some m => existsb (fun x => if list_eq_dec N.eq_dec m x then true else false)
                                    [lit "PUT"; lit "POST"]
                | None => false
                end then
          let self := set_type self PARSE_NONE in
          call_payload Payload_feed_eof self (fun self =>
          (set_done self true, Returned tt))
        else (self, Returned tt)
    end.

(** [HttpPayloadParser.feed_eof] *)
Definition HttpPayloadParser_feed_eof (self : HttpPayloadParser)
  : HttpPayloadParser * outcome unit :=
  match _type self with
  | PARSE_UNTIL_EOF =>
      call_payload Payload_feed_eof self (fun self => (self, Returned tt))
  | _ => (self, Returned tt)
  end.

(** How one of the four [if] blocks inside the [while chunk:] loop of
    [feed_data] ends: control falls through to the next block with the local
    [chunk], or [feed_data] returns, or it raises. *)
Inductive ctl :=
| Next (chunk : bytes)
| Return (r : bool * option bytes)
| Raise (e : exn).

Definition call_payload_ctl (f : Payload -> Payload * option exn)
    (p : HttpPayloadParser) (k : HttpPayloadParser -> HttpPayloadParser * ctl)
  : HttpPayloadParser * ctl :=
  let (pl, e) := f (payload p) in
  match e with
  | None => k (set_payload p pl)
  | Some e => (set_payload p pl, Raise e)
  end.

(** [if self._chunk == ChunkState.PARSE_CHUNKED_SIZE:] read next chunk size *)
Definition read_chunk_size (chunk : bytes) (self : HttpPayloadParser)
  : HttpPayloadParser * ctl :=
  if ChunkState_eqb (_chunk self) PARSE_CHUNKED_SIZE then
    let pos := find chunk SEP in
    if pos >=? 0 then
      let size :=
        if pos >? 0 then
          let i := find_until chunk CHUNK_EXT pos in
          if i >=? 0 then slice_to chunk i   (* strip chunk-extensions *)
          else slice_to chunk pos
        else slice_to chunk pos in
      match int16 size with
      | None =>
          let exc := TransferEncodingError (slice_to chunk pos) in
          call_payload_ctl (fun pl => Payload_set_exception pl exc) self (fun self =>
          (self, Raise exc))
      | Some size =>
          let chunk := slice_from chunk (pos + 2) in
          if size =? 0 then   (* eof marker *)
            (set_chunk self PARSE_CHUNKED_TRAILERS, Next chunk)
          else
            (set_chunk_size (set_chunk self PARSE_CHUNKED_CHUNK) size, Next chunk)
      end
    else (set_chunk_tail self chunk, Return (false, None))
  else (self, Next chunk).

(** [if self._chunk == ChunkState.PARSE_CHUNKED_CHUNK:] read chunk and feed
    buffer *)
Definition read_chunk (chunk : bytes) (self : HttpPayloadParser)
  : HttpPayloadParser * ctl :=
  if ChunkState_eqb (_chunk self) PARSE_CHUNKED_CHUNK then
    let required := _chunk_size self in
    let chunk_len := len chunk in
    if required >=? chunk_len then
      let self := set_chunk_size self (required - chunk_len) in
      let self := if _chunk_size self =? 0
                  then set_chunk self PARSE_CHUNKED_CHUNK_EOF else self in
      call_payload_ctl (fun pl => Payload_feed_data pl chunk chunk_len) self (fun self =>
      (self, Return (false, None)))
    else
      let self := set_chunk_size self 0 in
      call_payload_ctl (fun pl => Payload_feed_data pl (slice_to chunk required) required)
        self (fun self =>
      let chunk := slice_from chunk required in
      (set_chunk self PARSE_CHUNKED_CHUNK_EOF, Next chunk))
  else (self, Next chunk).

(** [if self._chunk == ChunkState.PARSE_CHUNKED_CHUNK_EOF:] toss the CRLF at
    the end of the chunk *)
Definition toss_crlf (chunk : bytes) (self : HttpPayloadParser)
  : HttpPayloadParser * ctl :=
  if ChunkState_eqb (_chunk self) PARSE_CHUNKED_CHUNK_EOF then
    if bytes_eqb (slice_to chunk 2) SEP then
      (set_chunk self PARSE_CHUNKED_SIZE, Next (slice_from chunk 2))
    else (set_chunk_tail self chunk, Return (false, None))
  else (self, Next chunk).

(** [if self._chunk == ChunkState.PARSE_CHUNKED_TRAILERS:] read and discard
    trailer up to the CRLF terminator *)
Definition read_trailers (chunk : bytes) (self : HttpPayloadParser)
  : HttpPayloadParser * ctl :=
  if ChunkState_eqb (_chunk self) PARSE_CHUNKED_TRAILERS then
    let pos := find chunk SEP in
    if pos >=? 0 then
      call_payload_ctl Payload_feed_eof self (fun self =>
      (self, Return (true, Some (slice_from chunk (pos + 2)))))
    else (set_chunk_tail self chunk, Return (false, None))
  else (self, Next chunk).

(** Sequencing of two blocks. *)
Definition and_then (m : HttpPayloadParser * ctl)
    (k : bytes -> HttpPayloadParser -> HttpPayloadParser * ctl)
  : HttpPayloadParser * ctl :=
  match m with
  | (self, Next chunk) => k chunk self
  | other => other
  end.

(** One pass through the body of [while chunk:]. *)
Definition chunked_pass (chunk : bytes) (self : HttpPayloadParser)
  : HttpPayloadParser * ctl :=
  and_then (and_then (and_then (read_chunk_size chunk self)
    read_chunk) toss_crlf) read_trailers.

(** The [while chunk:] loop.  A pass that does not return consumes at least
    the CRLF after a chunk, so [fuel] = [length chunk] passes are enough
    ([chunked_loop_total] below); [None] only when the fuel is too small. *)
Fixpoint chunked_loop (fuel : nat) (chunk : bytes) (self : HttpPayloadParser)
  : option (HttpPayloadParser * outcome (bool * option bytes)) :=
  if truthy chunk then
    match fuel with
    | O => None
    | S fuel =>
        match chunked_pass chunk self with
        | (self, Next chunk) => chunked_loop fuel chunk self
        | (self, Return r) => Some (self, Returned r)
        | (self, Raise e) => Some (self, Raised e)
        end
    end
  else Some (self, Returned (false, None)).

(** [HttpPayloadParser.feed_data] *)
Definition HttpPayloadParser_feed_data (chunk : bytes) (self : HttpPayloadParser)
  : option (HttpPayloadParser * outcome (bool * option bytes)) :=
  match _type self with
  | PARSE_LENGTH =>   (* Read specified amount of bytes *)
      let required := _length self in
      let chunk_len := len chunk in
      if required >=? chunk_len then
        let self := set_length self (required - chunk_len) in
        Some (call_payload (fun pl => Payload_feed_data pl chunk chunk_len) self (fun self =>
        if _length self =? 0 then
          call_payload Payload_feed_eof self (fun self =>
          (self, Returned (true, Some []))) 
        else (self, Returned (false, None))))
      else
        let self := set_length self 0 in
        Some (call_payload (fun pl => Payload_feed_data pl (slice_to chunk required) required)
          self (fun self =>
        call_payload Payload_feed_eof self (fun self =>
        (self, Returned (true, Some (slice_from chunk required))))))
  | PARSE_CHUNKED =>   (* Chunked transfer encoding parser *)
      let (chunk, self) :=
        if truthy (_chunk_tail self)
        then (_chunk_tail self ++ chunk, set_chunk_tail self [])
        else (chunk, self) in
      chunked_loop (List.length chunk) chunk self
  | PARSE_UNTIL_EOF =>   (* Read all bytes until eof *)
      Some (call_payload (fun pl => Payload_feed_data pl chunk (len chunk)) self (fun self =>
      (self, Returned (false, None))))
  | PARSE_NONE => Some (self, Returned (false, None))
  end.

(** Feeding a body that arrives in several buffers: the caller hands each
    buffer to [feed_data] in turn and stops once a call reports completion
    or raises. *)
Fixpoint feed_buffers (buffers : list bytes) (self : HttpPayloadParser)
  : option (HttpPayloadParser * outcome (bool * option bytes)) :=
  match buffers with
  | [] => Some (self, Returned (false, None))
  | chunk :: rest =>
      match HttpPayloadParser_feed_data chunk self with
      | Some (self, Returned (false, _)) => feed_buffers rest self
      | r => r
      end
  end.

(** ** Well-formed chunked bodies

    The bytes of a chunked body that remain to be read when the decoder is in
    a given [ChunkState] (with [_chunk_size] bytes of the current chunk
    outstanding), together with the body bytes they encode.  A size line is a
    CRLF-free line whose size field, up to an optional [;] extension, is a
    hexadecimal number; a chunk of positive size is followed by its data and
    a CRLF; a chunk of size zero is followed by the trailer part, which ends
    at its first CRLF.  Whatever follows belongs to the next message. *)

Definition size_field (ln : bytes) : bytes :=
  match index ln CHUNK_EXT with
  | Some i => firstn i ln
  | None => ln
  end.

Inductive chunked_rest : ChunkState -> Z -> bytes -> bytes -> Prop :=
| rest_size ln n k rest body :
    index ln SEP = None -> int16 (size_field ln) = Some n -> 0 < n ->
    chunked_rest PARSE_CHUNKED_CHUNK n rest body ->
    chunked_rest PARSE_CHUNKED_SIZE k (ln ++ SEP ++ rest) body
| rest_last ln k k' rest :
    index ln SEP = None -> int16 (size_field ln) = Some 0 ->
    chunked_rest PARSE_CHUNKED_TRAILERS k' rest [] ->
    chunked_rest PARSE_CHUNKED_SIZE k (ln ++ SEP ++ rest) []
| rest_data d n k rest body :
    len d = n -> 0 < n ->
    chunked_rest PARSE_CHUNKED_CHUNK_EOF k rest body ->
    chunked_rest PARSE_CHUNKED_CHUNK n (d ++ rest) (d ++ body)
| rest_crlf k k' rest body :
    chunked_rest PARSE_CHUNKED_SIZE k' rest body ->
    chunked_rest PARSE_CHUNKED_CHUNK_EOF k (SEP ++ rest) body
| rest_trailers t k rest :
    index t SEP = None ->
    chunked_rest PARSE_CHUNKED_TRAILERS k (t ++ SEP ++ rest) [].

(** A complete chunked body [S] encoding [body]. *)
Definition chunked_body (S body : bytes) : Prop :=
  chunked_rest PARSE_CHUNKED_SIZE 0 S body.

(** A body stream is well formed for a parser when it fits the framing the
    parser was built with: any bytes for read-to-EOF, a non-negative
    announced length for fixed-length framing, and a complete chunked body
    for chunked framing. *)
Definition well_formed (self : HttpPayloadParser) (S : bytes) : Prop :=
  match _type self with
  | PARSE_CHUNKED => exists body, chunked_body S body
  | PARSE_LENGTH => 0 <= _length self
  | _ => True
  end.

(** The part of one pass through the loop body that starts at the block for
    state [st]. *)
Definition pass_from (st : ChunkState) (chunk : bytes) (self : HttpPayloadParser)
  : HttpPayloadParser * ctl :=
  match st with
  | PARSE_CHUNKED_SIZE => chunked_pass chunk self
  | PARSE_CHUNKED_CHUNK =>
      and_then (and_then (read_chunk chunk self) toss_crlf) read_trailers
  | PARSE_CHUNKED_CHUNK_EOF => and_then (toss_crlf chunk self) read_trailers
  | PARSE_CHUNKED_TRAILERS => read_trailers chunk self
  end.

(** What the loop does once the current pass is over. *)
Definition resume (fuel : nat) (m : HttpPayloadParser * ctl)
  : option (HttpPayloadParser * outcome (bool * option bytes)) :=
  match m with
  | (self, Next chunk) => chunked_loop fuel chunk self
  | (self, Return r) => Some (self, Returned r)
  | (self, Raise e) => Some (self, Raised e)
  end.

(** The carried-over tail cannot be processed without more input. *)
Definition parked (self : HttpPayloadParser) : Prop :=
  match _chunk self with
  | PARSE_CHUNKED_SIZE | PARSE_CHUNKED_TRAILERS => index (_chunk_tail self) SEP = None
  | PARSE_CHUNKED_CHUNK => _chunk_tail self = []
  | PARSE_CHUNKED_CHUNK_EOF => startswith (_chunk_tail self) SEP = false
  end.

(** The result of running the loop over a prefix of a well-formed rest, with
    [y] still to come and [out] the sink before the run: either the body is
    complete, or the part decoded so far has been forwarded and the parser
    waits, parked, for the remainder. *)
Definition progress (out : StreamSink) (y body : bytes)
    (res : option (HttpPayloadParser * outcome (bool * option bytes))) : Prop :=
  exists self' r out',
    res = Some (self', Returned r) /\ payload self' = Sink out' /\
    _type self' = PARSE_CHUNKED /\
    ((exists rest, r = (true, Some rest) /\
                   sink_bytes out' = sink_bytes out ++ body) \/
     (r = (false, None) /\ exists b1 b2,
         body = b1 ++ b2 /\ sink_bytes out' = sink_bytes out ++ b1 /\
         chunked_rest (_chunk self') (_chunk_size self') (_chunk_tail self' ++ y) b2 /\
         parked self')).

(** The body bytes that a stream [S] carries for a parser, by framing. *)
Definition decodes (self : HttpPayloadParser) (S body : bytes) : Prop :=
  match _type self with
  | PARSE_CHUNKED => chunked_body S body
  | PARSE_LENGTH => 0 <= _length self /\ body = firstn (Z.to_nat (_length self)) S
  | PARSE_UNTIL_EOF => body = S
  | PARSE_NONE => body = []
  end.

End Parser.

(** ** [PayloadWriter] *)

(** ['%x' % n] for [n >= 0]. *)
Definition hex_digit (d : N) : byte := nth (N.to_nat d) (b "0123456789abcdef") x30.

Fixpoint hex_digits (fuel : nat) (n : N) : bytes :=
  match fuel with
  | O => []
  | S fuel =>
      if (n <? 16)%N then [hex_digit n]
      else hex_digits fuel (n / 16) ++ [hex_digit (n mod 16)]
  end.

Definition hex (n : Z) : bytes :=
  let n := Z.to_N n in hex_digits (S (N.to_nat (N.log2 n))) n.

(** The waiter made by [create_future]: its result is set or not. *)
Inductive Future := Pending | Resolved.

(** Calls received by the stream controller. *)
Inductive stream_call := acquire_call | release_call | drain_call.

(** What [write] returns: the empty tuple, or the coroutine [self.drain()],
    which has not started to run. *)
Inductive write_result := no_wait | drain_coroutine.

(** A coroutine has run to completion or is suspended on a future. *)
Inductive status := Completed | Suspended.

Section Writer.
Context {Zl : Zlib}.

(** The writer together with the two objects it drives.  [stream_available]
    and [stream_calls] are the state of [self._stream]; [wire] lists the
    [write] calls received by the transport that the stream hands out, and
    [_transport] tells whether [self._transport] holds it or is [None]. *)
Record PayloadWriter := {
  stream_available : bool;
  stream_calls : list stream_call;
  wire : list bytes;
  _transport : bool;
  length : option Z;
  chunked : bool;
  buffer_size : Z;
  output_length : Z;
  _buffer : list bytes;
  _compress : option compressobj;
  _drain_waiter : option Future
}.

Definition with_transport (w : PayloadWriter) (v : bool) :=
  {| stream_available := stream_available w; stream_calls := stream_calls w;
     wire := wire w; _transport := v; length := length w; chunked := chunked w;
     buffer_size := buffer_size w; output_length := output_length w;
     _buffer := _buffer w; _compress := _compress w;
     _drain_waiter := _drain_waiter w |}.
Definition with_length (w : PayloadWriter) (v : option Z) :=
  {| stream_available := stream_available w; stream_calls := stream_calls w;
     wire := wire w; _transport := _transport w; length := v; chunked := chunked w;
     buffer_size := buffer_size w; output_length := output_length w;
     _buffer := _buffer w; _compress := _compress w;
     _drain_waiter := _drain_waiter w |}.
Definition with_chunked (w : PayloadWriter) (v : bool) :=
  {| stream_available := stream_available w; stream_calls := stream_calls w;
     wire := wire w; _transport := _transport w; length := length w; chunked := v;
     buffer_size := buffer_size w; output_length := output_length w;
     _buffer := _buffer w; _compress := _compress w;
     _drain_waiter := _drain_waiter w |}.
Definition with_buffer_size (w : PayloadWriter) (v : Z) :=
  {| stream_available := stream_available w; stream_calls := stream_calls w;
     wire := wire w; _transport := _transport w; length := length w;
     chunked := chunked w; buffer_size := v; output_length := output_length w;
     _buffer := _buffer w; _compress := _compress w;
     _drain_waiter := _drain_waiter w |}.
Definition with_output_length (w : PayloadWriter) (v : Z) :=
  {| stream_available := stream_available w; stream_calls := stream_calls w;
     wire := wire w; _transport := _transport w; length := length w;
     chunked := chunked w; buffer_size := buffer_size w; output_length := v;
     _buffer := _buffer w; _compress := _compress w;
     _drain_waiter := _drain_waiter w |}.
Definition with_buffer (w : PayloadWriter) (v : list bytes) :=
  {| stream_available := stream_available w; stream_calls := stream_calls w;
     wire := wire w; _transport := _transport w; length := length w;
     chunked := chunked w; buffer_size := buffer_size w;
     output_length := output_length w; _buffer := v; _compress := _compress w;
     _drain_waiter := _drain_waiter w |}.
Definition with_compress (w : PayloadWriter) (v : option compressobj) :=
  {| stream_available := stream_available w; stream_calls := stream_calls w;
     wire := wire w; _transport := _transport w; length := length w;
     chunked := chunked w; buffer_size := buffer_size w;
     output_length := output_length w; _buffer := _buffer w; _compress := v;
     _drain_waiter := _drain_waiter w |}.
Definition with_drain_waiter (w : PayloadWriter) (v : option Future) :=
  {| stream_available := stream_available w; stream_calls := stream_calls w;
     wire := wire w; _transport := _transport w; length := length w;
     chunked := chunked w; buffer_size := buffer_size w;
     output_length := output_length w; _buffer := _buffer w;
     _compress := _compress w; _drain_waiter := v |}.

(** [transport.write(data)] *)
Definition transport_write (w : PayloadWriter) (data : bytes) :=
  {| stream_available := stream_available w; stream_calls := stream_calls w;
     wire := wire w ++ [data]; _transport := _transport w; length := length w;
     chunked := chunked w; buffer_size := buffer_size w;
     output_length := output_length w; _buffer := _buffer w;
     _compress := _compress w; _drain_waiter := _drain_waiter w |}.

(** A call on [self._stream]; [available] is the value the stream then has. *)
Definition stream_do (w : PayloadWriter) (c : stream_call) (available : bool) :=
  {| stream_available := available; stream_calls := stream_calls w ++ [c];
     wire := wire w; _transport := _transport w; length := length w;
     chunked := chunked w; buffer_size := buffer_size w;
     output_length := output_length w; _buffer := _buffer w;
     _compress := _compress w; _drain_waiter := _drain_waiter w |}.

(** [PayloadWriter.__init__] on a stream that is available or not, whose
    transport has received [wire0]. *)
Definition PayloadWriter_init (available : bool) (wire0 : list bytes)
  : PayloadWriter :=
  let self := {| stream_available := available; stream_calls := [];
                 wire := wire0; _transport := false; length := None;
                 chunked := false; buffer_size := 0; output_length := 0;
                 _buffer := []; _compress := None; _drain_waiter := None |} in
  if stream_available self then
    {| stream_available := false; stream_calls := []; wire := wire0;
       _transport := true; length := None; chunked := false; buffer_size := 0;
       output_length := 0; _buffer := []; _compress := None;
       _drain_waiter := None |}
  else stream_do self acquire_call (stream_available self).

(** [PayloadWriter.set_transport].  The statement
    [waiter, self._drain_maiter = self._drain_maiter, None] evaluates its
    right-hand side first; [_drain_maiter] is assigned nowhere else in the
    class, so reading it raises [AttributeError]. *)
Definition set_transport (self : PayloadWriter) : PayloadWriter * outcome unit :=
  let self := with_transport self true in
  let chunk := List.concat (_buffer self) in
  let self := if truthy chunk
              then with_buffer (transport_write self chunk) []
              else self in
  match _drain_waiter self with
  | Some _ => (self, Raised (AttributeError "PayloadWriter" "_drain_maiter"))
  | None => (self, Returned tt)
  end.

Definition enable_chunking (self : PayloadWriter) : PayloadWriter :=
  with_chunked self true.

Definition enable_compression (self : PayloadWriter) (encoding : string)
  : PayloadWriter :=
  with_compress self (Some (zlib_compressobj (zlib_mode encoding))).

(** [PayloadWriter.buffer_data] *)
Definition buffer_data (chunk : bytes) (self : PayloadWriter) : PayloadWriter :=
  if truthy chunk then
    let size := len chunk in
    let self := with_buffer_size self (buffer_size self + size) in
    let self := with_output_length self (output_length self + size) in
    with_buffer self (_buffer self ++ [chunk])
  else self.

(** [PayloadWriter._write] *)
Definition _write (chunk : bytes) (self : PayloadWriter) : PayloadWriter :=
  let size := len chunk in
  let self := with_buffer_size self (buffer_size self + size) in
  let self := with_output_length self (output_length self + size) in
  if _transport self then
    if truthy (_buffer self) then
      let self := with_buffer self (_buffer self ++ [chunk]) in
      let self := transport_write self (List.concat (_buffer self)) in
      with_buffer self []
    else transport_write self chunk
  else with_buffer self (_buffer self ++ [chunk]).

(** [PayloadWriter.write] *)
Definition write (chunk : bytes) (drain : bool) (self : PayloadWriter)
  : PayloadWriter * write_result :=
  let '(self, chunk, go) :=
    match _compress self with
    | Some z =>
        let (z, chunk) := zlib_compress z chunk in
        (with_compress self (Some z), chunk, truthy chunk)
    | None => (self, chunk, true)
    end in
  if negb go then (self, no_wait) else
  let '(self, chunk, go) :=
    match length self with
    | Some l =>
        let chunk_len := len chunk in
        if l >=? chunk_len then (with_length self (Some (l - chunk_len)), chunk, true)
        else
          let chunk := slice_to chunk l in
          (with_length self (Some 0), chunk, truthy chunk)
    | None => (self, chunk, true)
    end in
  if negb go then (self, no_wait) else
  let chunk :=
    if chunked self then
      let chunk_len := hex (len chunk) ++ SEP in
      chunk_len ++ chunk ++ SEP
    else chunk in
  if truthy chunk then
    let self := _write chunk self in
    if (buffer_size self >? 64 * 1024) && drain then
      (with_buffer_size self 0, drain_coroutine)
    else (self, no_wait)
  else (self, no_wait).

(** [PayloadWriter.drain], run until it completes or suspends.  The
    stream's own [drain] is taken to complete. *)
Definition drain (self : PayloadWriter) : PayloadWriter * status :=
  if _transport self then
    let self := if truthy (_buffer self)
                then with_buffer (transport_write self (List.concat (_buffer self))) []
                else self in
    (stream_do self drain_call (stream_available self), Completed)
  else if truthy (_buffer self) then
    let self := match _drain_waiter self with
                | None => with_drain_waiter self (Some Pending)
                | Some _ => self
                end in
    match _drain_waiter self with
    | Some Resolved => (self, Completed)
    | _ => (self, Suspended)
    end
  else (self, Completed).

(** The terminator of a chunked body. *)
Definition LAST_CHUNK : bytes := b "0" ++ SEP ++ SEP.

(** [PayloadWriter.write_eof], run until it completes or suspends in
    [drain]; the stream is available again once released. *)
Definition write_eof (chunk : bytes) (self : PayloadWriter)
  : PayloadWriter * status :=
  let (self, chunk) :=
    match _compress self with
    | Some z =>
        let (z, chunk) :=
          if truthy chunk then zlib_compress z chunk else (z, chunk) in
        let (z, tail) := zlib_cflush z in
        let chunk := chunk ++ tail in
        let chunk :=
          if truthy chunk && chunked self then
            let chunk_len := hex (len chunk) ++ SEP in
            chunk_len ++ chunk ++ SEP ++ LAST_CHUNK
          else chunk in
        (with_compress self (Some z), chunk)
    | None =>
        let chunk :=
          if truthy chunk && chunked self then
            let chunk_len := hex (len chunk) ++ SEP in
            chunk_len ++ chunk ++ SEP ++ LAST_CHUNK
          else chunk in
        let chunk := if chunked self then chunk ++ LAST_CHUNK else chunk in
        (self, chunk)
    end in
  let self := buffer_data chunk self in
  let (self, st) := drain self in
  match st with
  | Suspended => (self, Suspended)
  | Completed =>
      let self := with_transport self false in
      (stream_do self release_call true, Completed)
  end.

(** Every byte the writer has produced so far, in order: what the transport
    has received, then what is still buffered. *)
Definition emitted (self : PayloadWriter) : bytes :=
  List.concat (wire self) ++ List.concat (_buffer self).

(** A chunk as it leaves [write]: framed when chunking is on. *)
Definition framed (chunking : bool) (piece : bytes) : bytes :=
  if chunking then hex (len piece) ++ SEP ++ piece ++ SEP else piece.

(** A caller's use of the writer: a [write] whose result is awaited or
    dropped, or a [drain]. *)
Inductive writer_op :=
| op_write (chunk : bytes) (drain : bool) (await : bool)
| op_drain.

Definition run_op (o : writer_op) (self : PayloadWriter) : PayloadWriter :=
  match o with
  | op_write chunk d await =>
      match write chunk d self with
      | (self, drain_coroutine) => if await then fst (drain self) else self
      | (self, no_wait) => self
      end
  | op_drain => fst (drain self)
  end.

Definition run_ops (ops : list writer_op) (self : PayloadWriter) : PayloadWriter :=
  fold_left (fun w o => run_op o w) ops self.

(** The chunks handed to [write] by a sequence of operations, in order. *)
Definition written (ops : list writer_op) : list bytes :=
  flat_map (fun o => match o with
                     | op_write chunk _ _ => [chunk]
                     | op_drain => []
                     end) ops.

End Writer.

(** ** [str] helpers and [CIMultiDict] *)

Definition pystr_eqb (x y : pystr) : bool :=
  if list_eq_dec N.eq_dec x y then true else false.

Fixpoint str_startswith (l sub : pystr) {struct sub} : bool :=
  match sub, l with
  | [], _ => true
  | a :: sub', c :: l' => (a =? c)%N && str_startswith l' sub'
  | _ :: _, [] => false
  end.

(** [sub in l] *)
Fixpoint contains (l sub : pystr) : bool :=
  str_startswith l sub ||
  match l with
  | [] => false
  | _ :: l' => contains l' sub
  end.

(** [multidict.CIMultiDict] as the source uses it: an ordered list of
    entries whose keys are [istr] values, hence already canonical and
    compared as plain strings. *)
Definition CIMultiDict := list (pystr * pystr).

Definition md_add (d : CIMultiDict) (k v : pystr) : CIMultiDict := d ++ [(k, v)].

Definition md_get (d : CIMultiDict) (k : pystr) : option pystr :=
  match List.find (fun e => pystr_eqb (fst e) k) d with
  | Some e => Some (snd e)
  | None => None
  end.

Definition md_contains (d : CIMultiDict) (k : pystr) : bool :=
  existsb (fun e => pystr_eqb (fst e) k) d.

(** [d[k] = v]: the entries of [k] are replaced by a single one. *)
Definition md_set (d : CIMultiDict) (k v : pystr) : CIMultiDict :=
  filter (fun e => negb (pystr_eqb (fst e) k)) d ++ [(k, v)].

Definition md_setdefault (d : CIMultiDict) (k v : pystr) : CIMultiDict :=
  if md_contains d k then d else md_add d k v.

(** ** [HttpMessage], [Request], [Response] *)

Definition HttpVersion := (Z * Z)%type.
Definition HttpVersion10 : HttpVersion := (1, 0).
Definition HttpVersion11 : HttpVersion := (1, 1).

(** Tuples compare lexicographically. *)
Definition version_ltb (x y : HttpVersion) : bool :=
  (fst x <? fst y) || ((fst x =? fst y) && (snd x <? snd y)).
Definition version_eqb (x y : HttpVersion) : bool :=
  (fst x =? fst y) && (snd x =? snd y).
Definition version_leb (x y : HttpVersion) : bool :=
  version_ltb x y || version_eqb x y.

(** [string.printable] *)
Definition ASCIISET (c : N) : bool :=
  Ascii7.in_range 32 126 c || Ascii7.in_range 9 13 c.

Section Message.
Context {B : Builtins} {Zl : Zlib}.

(** [str.strip()] *)
Fixpoint str_lstrip (s : pystr) : pystr :=
  match s with
  | [] => []
  | c :: s' => if isspace c then str_lstrip s' else s
  end.
Definition str_strip (s : pystr) : pystr :=
  rev (str_lstrip (rev (str_lstrip s))).

(** Modelled from the spec: the header-name constants of [aiohttp/hdrs.py],
    which is not among the sources; each is the [istr] of the header's
    name. *)
Definition hdrs_CONNECTION : pystr := istr (lit "Connection").
Definition hdrs_CONTENT_LENGTH : pystr := istr (lit "Content-Length").
Definition hdrs_TRANSFER_ENCODING : pystr := istr (lit "Transfer-Encoding").
Definition hdrs_UPGRADE : pystr := istr (lit "Upgrade").
Definition hdrs_DATE : pystr := istr (lit "Date").
Definition hdrs_SERVER : pystr := istr (lit "Server").
Definition hdrs_CONTENT_ENCODING : pystr := istr (lit "Content-Encoding").

(** The two concrete subclasses and their own fields. *)
Inductive MessageKind :=
| IsRequest (_method _path : pystr)
| IsResponse (_status : Z) (_reason : pystr).

(** An [HttpMessage]: the [PayloadWriter] it extends (whose [length] it
    shares), the fields set by [HttpMessage.__init__], and the class
    attributes [upgrade], [websocket], [has_chunked_hdr] that instances
    shadow on assignment. *)
Record HttpMessage := {
  writer : PayloadWriter;
  kind : MessageKind;
  _version : HttpVersion;
  closing : bool;
  keepalive : option bool;
  headers : CIMultiDict;
  headers_sent : bool;
  upgrade : bool;
  websocket : bool;
  has_chunked_hdr : bool
}.

Definition with_writer (m : HttpMessage) (v : PayloadWriter) :=
  {| writer := v; kind := kind m; _version := _version m; closing := closing m;
     keepalive := keepalive m; headers := headers m;
     headers_sent := headers_sent m; upgrade := upgrade m;
     websocket := websocket m; has_chunked_hdr := has_chunked_hdr m |}.
Definition with_closing (m : HttpMessage) (v : bool) :=
  {| writer := writer m; kind := kind m; _version := _version m; closing := v;
     keepalive := keepalive m; headers := headers m;
     headers_sent := headers_sent m; upgrade := upgrade m;
     websocket := websocket m; has_chunked_hdr := has_chunked_hdr m |}.
Definition with_keepalive (m : HttpMessage) (v : option bool) :=
  {| writer := writer m; kind := kind m; _version := _version m;
     closing := closing m; keepalive := v; headers := headers m;
     headers_sent := headers_sent m; upgrade := upgrade m;
     websocket := websocket m; has_chunked_hdr := has_chunked_hdr m |}.
Definition with_headers (m : HttpMessage) (v : CIMultiDict) :=
  {| writer := writer m; kind := kind m; _version := _version m;
     closing := closing m; keepalive := keepalive m; headers := v;
     headers_sent := headers_sent m; upgrade := upgrade m;
     websocket := websocket m; has_chunked_hdr := has_chunked_hdr m |}.
Definition with_headers_sent (m : HttpMessage) (v : bool) :=
  {| writer := writer m; kind := kind m; _version := _version m;
     closing := closing m; keepalive := keepalive m; headers := headers m;
     headers_sent := v; upgrade := upgrade m;
     websocket := websocket m; has_chunked_hdr := has_chunked_hdr m |}.
Definition with_upgrade (m : HttpMessage) (v : bool) :=
  {| writer := writer m; kind := kind m; _version := _version m;
     closing := closing m; keepalive := keepalive m; headers := headers m;
     headers_sent := headers_sent m; upgrade := v;
     websocket := websocket m; has_chunked_hdr := has_chunked_hdr m |}.
Definition with_websocket (m : HttpMessage) (v : bool) :=
  {| writer := writer m; kind := kind m; _version := _version m;
     closing := closing m; keepalive := keepalive m; headers := headers m;
     headers_sent := headers_sent m; upgrade := upgrade m;
     websocket := v; has_chunked_hdr := has_chunked_hdr m |}.
Definition with_has_chunked_hdr (m : HttpMessage) (v : bool) :=
  {| writer := writer m; kind := kind m; _version := _version m;
     closing := closing m; keepalive := keepalive m; headers := headers m;
     headers_sent := headers_sent m; upgrade := upgrade m;
     websocket := websocket m; has_chunked_hdr := v |}.

(** [HttpMessage.__init__]; the stream is available or not and its
    transport has received [wire0]. *)
Definition HttpMessage_init (k : MessageKind) (available : bool)
    (wire0 : list bytes) (version : HttpVersion) (close : bool) : HttpMessage :=
  {| writer := with_length (PayloadWriter_init available wire0) None;
     kind := k; _version := version; closing := close; keepalive := None;
     headers := []; headers_sent := false;
     upgrade := false; websocket := false; has_chunked_hdr := false |}.

(** [Response.__init__], with the reason phrase given. *)
Definition Response_init (available : bool) (wire0 : list bytes)
    (status : Z) (http_version : HttpVersion) (close : bool) (reason : pystr)
  : HttpMessage :=
  HttpMessage_init (IsResponse status reason) available wire0 http_version close.

(** [Request.__init__] *)
Definition Request_init (available : bool) (wire0 : list bytes)
    (method path : pystr) (http_version : HttpVersion) (close : bool)
  : HttpMessage :=
  (* set the default for HTTP 0.9 to be different *)
  let close := if version_ltb http_version HttpVersion10 then true else close in
  HttpMessage_init (IsRequest method path) available wire0 http_version close.

Definition version (self : HttpMessage) : HttpVersion := _version self.

(** [HttpMessage.force_close] *)
Definition force_close (self : HttpMessage) : HttpMessage :=
  with_keepalive (with_closing self true) (Some false).

(** [HttpMessage.keep_alive] *)
Definition keep_alive (self : HttpMessage) : bool :=
  match keepalive self with
  | None =>
      if version_ltb (version self) HttpVersion10 then
        (* keep alive not supported at all *)
        false
      else if version_eqb (version self) HttpVersion10 then
        match md_get (headers self) hdrs_CONNECTION with
        | Some v => pystr_eqb v (lit "keep-alive")
        | None => false   (* no headers means we close for Http 1.0 *)
        end
      else negb (closing self)
  | Some k => k
  end.

(** [HOP_HEADERS] is the empty tuple in both subclasses. *)
Definition HOP_HEADERS : list pystr := [].

(** [HttpMessage.add_header]; an exception leaves the message as it was. *)
Definition add_header (name value : pystr) (self : HttpMessage)
  : outcome HttpMessage :=
  if headers_sent self then Raised (AssertionError "headers have been sent already")
  else if negb (forallb ASCIISET name)
  then Raised (AssertionError "Header name should contain ASCII chars")
  else
    let name := istr name in
    let value := str_strip value in
    match
      (if pystr_eqb name hdrs_CONTENT_LENGTH then
         match int10 value with
         | Some l => Returned (with_writer self (with_length (writer self) (Some l)))
         | None => Raised ValueError
         end
       else Returned self)
    with
    | Raised e => Raised e
    | Returned self =>
        let self :=
          if pystr_eqb name hdrs_TRANSFER_ENCODING
          then with_has_chunked_hdr self
                 (pystr_eqb (str_strip (lower value)) (lit "chunked"))
          else self in
        if pystr_eqb name hdrs_CONNECTION then
          let val := lower value in
          (* handle websocket *)
          if contains val (lit "upgrade") then Returned (with_upgrade self true)
          (* connection keep-alive *)
          else if contains val (lit "close")
          then Returned (with_keepalive self (Some false))
          else if contains val (lit "keep-alive")
          then Returned (with_keepalive self (Some true))
          else Returned self
        else if pystr_eqb name hdrs_UPGRADE then
          let self := if contains (lower value) (lit "websocket")
                      then with_websocket self true else self in
          Returned (with_headers self (md_set (headers self) name value))
        else if negb (existsb (pystr_eqb name) HOP_HEADERS) then
          (* ignore hop-by-hop headers *)
          Returned (with_headers self (md_add (headers self) name value))
        else Returned self
    end.

(** [HttpMessage.add_headers] *)
Fixpoint add_headers (hs : list (pystr * pystr)) (self : HttpMessage)
  : outcome HttpMessage :=
  match hs with
  | [] => Returned self
  | (name, value) :: hs' =>
      match add_header name value self with
      | Returned self => add_headers hs' self
      | Raised e => Raised e
      end
  end.

(** [autochunked] of [Response] and of [Request] *)
Definition autochunked (self : HttpMessage) : bool :=
  match kind self with
  | IsResponse status _ =>
      match length (writer self) with None => true | Some _ => false end
      && version_leb HttpVersion11 (_version self)
      && negb ((status =? 304) || (status =? 204))
  | IsRequest _ _ =>
      match length (writer self) with None => true | Some _ => false end
      && version_leb HttpVersion11 (_version self)
  end.

(** [status_line] of [Response] and of [Request] *)
Definition status_line (self : HttpMessage) : pystr :=
  let v := version self in
  match kind self with
  | IsResponse status reason =>
      lit "HTTP/" ++ format_int (fst v) ++ lit "." ++ format_int (snd v)
      ++ lit " " ++ format_int status ++ lit " " ++ reason ++ [13; 10]%N
  | IsRequest method path =>
      method ++ lit " " ++ path ++ lit " HTTP/" ++ format_int (fst v)
      ++ lit "." ++ format_int (snd v) ++ [13; 10]%N
  end.

(** [HttpMessage._add_default_headers], extended by [Response] with [Date]
    and [Server]; [date] is what [format_date_time(None)] returns at the
    time of the call and [server] the class constant [SERVER_SOFTWARE]. *)
Definition _add_default_headers (date server : pystr) (self : HttpMessage)
  : HttpMessage :=
  (* set the connection header *)
  let connection :=
    if upgrade self then Some (lit "Upgrade")
    else if match keepalive self with
            | None => negb (closing self)
            | Some k => k
            end
    then (if version_eqb (version self) HttpVersion10
          then Some (lit "keep-alive") else None)
    else (if version_eqb (version self) HttpVersion11
          then Some (lit "close") else None) in
  let self :=
    match connection with
    | Some c => with_headers self (md_set (headers self) hdrs_CONNECTION c)
    | None => self
    end in
  match kind self with
  | IsResponse _ _ =>
      let self :=
        if negb (md_contains (headers self) hdrs_DATE)
        then with_headers self (md_setdefault (headers self) hdrs_DATE date)
        else self in
      with_headers self (md_setdefault (headers self) hdrs_SERVER server)
  | IsRequest _ _ => self
  end.

(** [HttpMessage.send_headers] *)
Definition send_headers (date server : pystr) (self : HttpMessage)
  : outcome HttpMessage :=
  if headers_sent self then Raised (AssertionError "headers have been sent already")
  else
    let self := with_headers_sent self true in
    let self :=
      if negb (chunked (writer self)) && autochunked self
      then with_writer self (enable_chunking (writer self)) else self in
    let self :=
      if chunked (writer self)
      then with_headers self
             (md_set (headers self) hdrs_TRANSFER_ENCODING (lit "chunked"))
      else self in
    let self := _add_default_headers date server self in
    (* status + headers *)
    let text :=
      status_line self
      ++ List.concat (map (fun e => fst e ++ lit ": " ++ snd e ++ [13; 10]%N)
                          (headers self)) in
    let data := encode text ++ SEP in
    Returned (with_writer self (buffer_data data (writer self))).

(** The entries of a header map under the name [Connection]. *)
Definition connection_entries (d : CIMultiDict) : CIMultiDict :=
  filter (fun e => pystr_eqb (fst e) hdrs_CONNECTION) d.

End Message.

(** ** [HttpParser]: header lines *)

(** [x.split(sep, 1)] on a one-byte separator, when it yields two parts. *)
Fixpoint split_once (sep : byte) (x : bytes) : option (bytes * bytes) :=
  match x with
  | [] => None
  | c :: x' =>
      if Byte.eqb c sep then Some ([], x')
      else match split_once sep x' with
           | Some (l, r) => Some (c :: l, r)
           | None => None
           end
  end.

Fixpoint bytes_lstrip (p : byte -> bool) (x : bytes) : bytes :=
  match x with
  | [] => []
  | c :: x' => if p c then bytes_lstrip p x' else x
  end.

(** [x.strip(chars)], [chars] given as a predicate. *)
Definition bytes_strip (p : byte -> bool) (x : bytes) : bytes :=
  rev (bytes_lstrip p (rev (bytes_lstrip p x))).

Definition byte_in (lo hi : N) (c : byte) : bool :=
  Ascii7.in_range lo hi (Byte.to_N c).

(** The characters stripped by [strip(b' \t')] and by [strip()]. *)
Definition is_sp_ht (c : byte) : bool := byte_in 32 32 c || byte_in 9 9 c.
Definition is_bytes_space (c : byte) : bool := byte_in 32 32 c || byte_in 9 13 c.

(** [bytes.upper()] *)
Definition bytes_upper (x : bytes) : bytes :=
  map (fun c => if byte_in 97 122 c
                then match Byte.of_N (Byte.to_N c - 32) with
                     | Some u => u
                     | None => c
                     end
                else c) x.

(** The class of [HDRRE]: controls, DEL, [()<>@,;:[]={}], space, tab,
    backslash and double quote. *)
Definition HDRRE_class (c : byte) : bool :=
  byte_in 0 31 c || byte_in 127 127 c ||
  existsb (Byte.eqb c) (b "()<>@,;:[]={} \" ++ [x09; x22]).

(** [HDRRE.search(x)] finds a match. *)
Definition HDRRE_search (x : bytes) : bool := existsb HDRRE_class x.

(** [sep.join(parts)] *)
Fixpoint bytes_join (sep : bytes) (parts : list bytes) : bytes :=
  match parts with
  | [] => []
  | [x] => x
  | x :: rest => x ++ sep ++ bytes_join sep rest
  end.

Record HttpParser := {
  max_line_size : Z;
  max_headers : Z;
  max_field_size : Z
}.

(** [HttpParser.__init__] with its defaults. *)
Definition HttpParser_default : HttpParser :=
  {| max_line_size := 8190; max_headers := 32768; max_field_size := 8190 |}.

Definition raw_header := (bytes * bytes)%type.

Section HeaderParser.
Context {B : Builtins}.

(** The end of one pass through the outer [while line:] loop:
    [bvalue = bvalue.strip()] and the two appends. *)
Definition store_header (bname bvalue : bytes)
    (acc : CIMultiDict * list raw_header) : CIMultiDict * list raw_header :=
  let bvalue := bytes_strip is_bytes_space bvalue in
  let name := istr (decode bname) in
  let value := decode bvalue in
  (md_add (fst acc) name value, snd acc ++ [(bname, bvalue)]).

(** [line[0] in (32, 9)]; [None] is the IndexError of an empty line. *)
Definition first_is_sp_ht (line : bytes) : option bool :=
  match line with
  | [] => None
  | c :: _ => Some (is_sp_ht c)
  end.

(** The two nested loops of [parse_headers] over [rest = lines[lines_idx:]],
    whose head is the local [line].  [inner = None] is the head of the outer
    [while line:]; [inner = Some (bname, header_length, bvalue)] is the head
    of [while continuation:], where [bvalue] is the list being collected.
    Every [lines_idx += 1; line = lines[lines_idx]] moves to the tail, and
    raises IndexError when there is none. *)
Fixpoint scan_headers (max_field_size : Z) (rest : list bytes)
    (inner : option (bytes * Z * list bytes))
    (acc : CIMultiDict * list raw_header)
  : outcome (CIMultiDict * list raw_header) :=
  match rest with
  | [] => Raised IndexError
  | line :: rest' =>
      match inner with
      | None =>
          if negb (truthy line) then Returned acc else
          let header_length := len line in
          (* Parse initial header name : value pair. *)
          match split_once x3a line with
          | None => Raised (InvalidHeader line)
          | Some (bname, bvalue) =>
              let bname := bytes_upper (bytes_strip is_sp_ht bname) in
              if HDRRE_search bname then Raised (InvalidHeader bname) else
              (* next line *)
              match rest' with
              | [] => Raised IndexError
              | line' :: _ =>
                  (* consume continuation lines *)
                  let continuation :=
                    truthy line' &&
                    match first_is_sp_ht line' with Some c => c | None => false end in
                  if continuation then
                    scan_headers max_field_size rest'
                      (Some (bname, header_length, [bvalue])) acc
                  else if header_length >? max_field_size
                  then Raised (LineTooLong bname max_field_size)
                  else scan_headers max_field_size rest' None
                         (store_header bname bvalue acc)
              end
          end
      | Some (bname, header_length, bvalue) =>
          let header_length := header_length + len line in
          if header_length >? max_field_size
          then Raised (LineTooLong bname max_field_size) else
          let bvalue := bvalue ++ [line] in
          (* next line *)
          match rest' with
          | [] => Raised IndexError
          | line' :: _ =>
              match first_is_sp_ht line' with
              | None => Raised IndexError
              | Some true =>
                  scan_headers max_field_size rest'
                    (Some (bname, header_length, bvalue)) acc
              | Some false =>
                  scan_headers max_field_size rest' None
                    (store_header bname (bytes_join SEP bvalue) acc)
              end
          end
      end
  end.

(** What [parse_headers] returns. *)
Record parsed_headers := {
  ph_headers : CIMultiDict;
  ph_raw_headers : list raw_header;
  ph_close_conn : option bool;
  ph_encoding : option pystr;
  ph_upgrade : bool;
  ph_chunked : bool
}.

(** [HttpParser.parse_headers] *)
Definition parse_headers (self : HttpParser) (lines : list bytes)
  : outcome parsed_headers :=
  match lines with
  | [] => Raised IndexError
  | _ :: rest =>
      match scan_headers (max_field_size self) rest None ([], []) with
      | Raised e => Raised e
      | Returned (headers, raw_headers) =>
          (* keep-alive *)
          let '(close_conn, upgrade) :=
            match md_get headers hdrs_CONNECTION with
            | Some conn =>
                if truthy conn then
                  let v := lower conn in
                  if pystr_eqb v (lit "close") then (Some true, false)
                  else if pystr_eqb v (lit "keep-alive") then (Some false, false)
                  else if pystr_eqb v (lit "upgrade") then (None, true)
                  else (None, false)
                else (None, false)
            | None => (None, false)
            end in
          (* encoding *)
          let encoding :=
            match md_get headers hdrs_CONTENT_ENCODING with
            | Some enc =>
                if truthy enc then
                  let enc := lower enc in
                  if pystr_eqb enc (lit "gzip") || pystr_eqb enc (lit "deflate")
                  then Some enc else None
                else None
            | None => None
            end in
          (* chunking *)
          let chunked :=
            match md_get headers hdrs_TRANSFER_ENCODING with
            | Some te => truthy te && contains (lower te) (lit "chunked")
            | None => false
            end in
          Returned {| ph_headers := headers; ph_raw_headers := raw_headers;
                      ph_close_conn := close_conn; ph_encoding := encoding;
                      ph_upgrade := upgrade; ph_chunked := chunked |}
      end
  end.

(** ** [HttpRequestParser] and [HttpResponseParser] *)

(** The longest prefix of [s] whose characters satisfy [p], and the rest. *)
Fixpoint span (p : N -> bool) (s : pystr) : pystr * pystr :=
  match s with
  | [] => ([], [])
  | c :: s' =>
      if p c then let (w, r) := span p s' in (c :: w, r) else ([], s)
  end.

(** [s.split(None, maxsplit)]: at most [maxsplit] words cut at runs of
    whitespace, then the remainder, if any, with its leading whitespace
    removed. *)
Fixpoint split_ws (maxsplit : nat) (s : pystr) : list pystr :=
  match str_lstrip s with
  | [] => []
  | c :: s' =>
      match maxsplit with
      | O => [c :: s']
      | S n =>
          let (w, r) := span (fun x => negb (isspace x)) (c :: s') in
          w :: split_ws n r
      end
  end.

(** [s.split('.', 1)] when it yields two parts. *)
Fixpoint str_split_once (sep : N) (s : pystr) : option (pystr * pystr) :=
  match s with
  | [] => None
  | c :: s' =>
      if (c =? sep)%N then Some ([], s')
      else match str_split_once sep s' with
           | Some (l, r) => Some (c :: l, r)
           | None => None
           end
  end.

(** [METHRE.match(s)] succeeds: [s] starts with a character of
    [[A-Z0-9$-_.]], whose range [$-_] covers the others. *)
Definition METHRE_match (s : pystr) : bool :=
  match s with
  | [] => false
  | c :: _ => Ascii7.in_range 36 95 c
  end.

(** [VERSRE.match(s)] for [HTTP/(\d+).(\d+)], with the two groups.  After
    [HTTP/] the first group takes the whole run of digits when that run is
    followed by one character other than a newline and then a digit;
    otherwise the matcher backtracks, and a run of three digits or more
    matches with the last digit as second group and the digit before it
    consumed by the unescaped dot. *)
Definition VERSRE_match (s : pystr) : option (pystr * pystr) :=
  if str_startswith s (lit "HTTP/") then
    let rest := skipn 5 s in
    let (run, after) := span isdigit rest in
    match run, after with
    | _ :: _, dot :: d :: after' =>
        if negb (dot =? 10)%N && isdigit d
        then Some (run, fst (span isdigit (d :: after')))
        else match rev run with
             | last :: _ :: g1 :: g1' => Some (rev (g1 :: g1'), [last])
             | _ => None
             end
    | _, _ =>
        match rev run with
        | last :: _ :: g1 :: g1' => Some (rev (g1 :: g1'), [last])
        | _ => None
        end
    end
  else None.

Record RawRequestMessage := {
  req_method : pystr;
  req_path : pystr;
  req_version : HttpVersion;
  req_headers : CIMultiDict;
  req_raw_headers : list raw_header;
  req_should_close : bool;
  req_compression : option pystr;
  req_upgrade : bool;
  req_chunked : bool
}.

Record RawResponseMessage := {
  resp_version : HttpVersion;
  resp_code : Z;
  resp_reason : pystr;
  resp_headers : CIMultiDict;
  resp_raw_headers : list raw_header;
  resp_should_close : bool;
  resp_compression : option pystr;
  resp_upgrade : bool;
  resp_chunked : bool
}.

(** The [try] block that reads the version of a request line; every
    exception inside it becomes [BadStatusLine(version)]. *)
Definition request_version (version : pystr) : outcome HttpVersion :=
  if str_startswith version (lit "HTTP/") then
    match str_split_once 46 (skipn 5 version) with
    | Some (n1, n2) =>
        match int10 n1, int10 n2 with
        | Some v1, Some v2 => Returned (v1, v2)
        | _, _ => Raised (BadStatusLine version)
        end
    | None => Raised (BadStatusLine version)
    end
  else Raised (BadStatusLine version).

(** [HttpRequestParser.parse_message] *)
Definition HttpRequestParser_parse_message (self : HttpParser)
    (lines : list bytes) : outcome RawRequestMessage :=
  match lines with
  | [] => Raised IndexError
  | line0 :: _ =>
      (* request line *)
      let line := decode line0 in
      match split_ws 2 line with
      | [method; path; version] =>
          (* method *)
          let method := upper method in
          if negb (METHRE_match method) then Raised (BadStatusLine method) else
          (* version *)
          match request_version version with
          | Raised e => Raised e
          | Returned version =>
              (* read headers *)
              match parse_headers self lines with
              | Raised e => Raised e
              | Returned h =>
                  let close :=
                    match ph_close_conn h with
                    | Some c => c
                    | None => version_leb version HttpVersion10
                    end in
                  Returned {| req_method := method; req_path := path;
                              req_version := version;
                              req_headers := ph_headers h;
                              req_raw_headers := ph_raw_headers h;
                              req_should_close := close;
                              req_compression := ph_encoding h;
                              req_upgrade := ph_upgrade h;
                              req_chunked := ph_chunked h |}
              end
          end
      | _ => Raised (BadStatusLine line)
      end
  end.

(** [HttpResponseParser.parse_message] *)
Definition HttpResponseParser_parse_message (self : HttpParser)
    (lines : list bytes) : outcome RawResponseMessage :=
  match lines with
  | [] => Raised IndexError
  | line0 :: _ =>
      let line := decode line0 in
      match split_ws 1 line with
      | [version; status] =>
          let (status, reason) :=
            match split_ws 1 status with
            | [status'; reason] => (status', reason)
            | _ => (status, [])
            end in
          (* version *)
          match VERSRE_match version with
          | None => Raised (BadStatusLine line)
          | Some (g1, g2) =>
              match int10 g1, int10 g2 with
              | Some v1, Some v2 =>
                  let version := (v1, v2) in
                  (* The status code is a three-digit number *)
                  match int10 status with
                  | None => Raised (BadStatusLine line)
                  | Some status =>
                      if (status <? 100) || (status >? 999)
                      then Raised (BadStatusLine line) else
                      (* read headers *)
                      match parse_headers self lines with
                      | Raised e => Raised e
                      | Returned h =>
                          let close :=
                            match ph_close_conn h with
                            | Some c => c
                            | None => version_leb version HttpVersion10
                            end in
                          Returned {| resp_version := version;
                                      resp_code := status;
                                      resp_reason := str_strip reason;
                                      resp_headers := ph_headers h;
                                      resp_raw_headers := ph_raw_headers h;
                                      resp_should_close := close;
                                      resp_compression := ph_encoding h;
                                      resp_upgrade := ph_upgrade h;
                                      resp_chunked := ph_chunked h |}
                      end
                  end
              | _, _ => Raised ValueError
              end
          end
      | _ => Raised (BadStatusLine line)
      end
  end.

End HeaderParser.

(** ** Concrete builtins for evaluation *)

Lemma ascii_digits_nonneg base s : forall acc n,
  0 <= acc -> Ascii7.digits base acc s = Some n -> 0 <= n.
Proof.
  induction s as [|c s IH]; intros acc n Hacc; simpl.
  - intros [= <-]. exact Hacc.
  - destruct (Ascii7.digit_value base c) as [d|] eqn:E; [|discriminate].
    apply IH. unfold Ascii7.digit_value in E.
    destruct (if Ascii7.isdigit c then _ else _) as [v|]; [|discriminate].
    destruct (v <? base)%N; [|discriminate]. injection E as <-. lia.
Qed.

Lemma ascii_digit_not_space c :
  Ascii7.isdigit c = true ->
  Ascii7.isspace c = false /\ (c =? 45)%N = false /\ (c =? 43)%N = false /\
  (c =? 48)%N = true \/
  Ascii7.isspace c = false /\ (c =? 45)%N = false /\ (c =? 43)%N = false /\
  (c =? 48)%N = false.
Proof.
  unfold Ascii7.isdigit, Ascii7.isspace, Ascii7.in_range. intros H.
  apply andb_true_iff in H as [H1 H2].
  apply N.leb_le in H1. apply N.leb_le in H2.
  assert (S1 : ((9 <=? c) && (c <=? 13) || (28 <=? c) && (c <=? 32))%N = false).
  { apply orb_false_iff. split; apply andb_false_iff; right; apply N.leb_gt; lia. }
  assert (S2 : (c =? 45)%N = false) by (apply N.eqb_neq; lia).
  assert (S3 : (c =? 43)%N = false) by (apply N.eqb_neq; lia).
  destruct (c =? 48)%N; auto.
Qed.

Lemma ascii_lstrip_digits s :
  forallb Ascii7.isdigit s = true -> Ascii7.lstrip s = s.
Proof.
  destruct s as [|c s]; [reflexivity|]. simpl. intros H.
  apply andb_true_iff in H as [H _].
  destruct (ascii_digit_not_space c H) as [(-> & _)|(-> & _)]; reflexivity.
Qed.

Lemma ascii_int10_digits s n :
  forallb Ascii7.isdigit s = true -> Ascii7.int_ 10 s = Some n -> 0 <= n.
Proof.
  intros H. unfold Ascii7.int_, Ascii7.strip.
  rewrite (ascii_lstrip_digits s H).
  assert (Hr : forallb Ascii7.isdigit (rev s) = true).
  { apply forallb_forall. intros x Hx. apply in_rev in Hx.
    revert x Hx. now apply forallb_forall. }
  rewrite (ascii_lstrip_digits _ Hr), rev_involutive.
  destruct s as [|c r]; [discriminate|].
  simpl in H. apply andb_true_iff in H as [Hc _].
  destruct (ascii_digit_not_space c Hc) as [(_ & -> & -> & _)|(_ & -> & -> & _)];
    unfold Ascii7.unsigned; cbn [N.eqb andb];
    destruct r as [|x r]; intros E; (eapply ascii_digits_nonneg; [|exact E]; lia).
Qed.

#[global] Instance ascii_builtins : Builtins := {|
  int16 := fun x => Ascii7.int_ 16 (Ascii7.decode x);
  decode := Ascii7.decode;
  isspace := Ascii7.isspace;
  isdigit := Ascii7.isdigit;
  lower := map Ascii7.to_lower;
  upper := map Ascii7.to_upper;
  istr := Ascii7.title false;
  int10 := Ascii7.int_ 10;
  int10_digits := ascii_int10_digits;
  encode := Ascii7.encode;
  format_int := Ascii7.format_int;
  istr_ascii := fun _ _ => eq_refl
|}.

(** A stand-in for zlib that passes bytes through unchanged; it serves where
    a codec has to be named but none of its output matters. *)
#[global] Instance stored_zlib : Zlib := {|
  decompressobj := unit;
  zlib_decompressobj := fun _ => tt;
  zlib_decompress := fun z x => Some (z, x);
  zlib_dflush := fun z => (z, []);
  zlib_eof := fun _ => true;
  compressobj := unit;
  zlib_compressobj := fun _ => tt;
  zlib_compress := fun z x => (z, x);
  zlib_cflush := fun z => (z, [])
|}.

(** * Properties *)

(** ** Facts about the byte-string helpers *)

Lemma len_app {A} (x y : list A) : len (x ++ y) = len x + len y.
Proof. unfold len. rewrite length_app. lia. Qed.

Lemma len_nonneg {A} (x : list A) : 0 <= len x.
Proof. unfold len. lia. Qed.

Lemma clamp_nat {A} (l : list A) (n : nat) : clamp l (Z.of_nat n) = n.
Proof.
  unfold clamp. destruct (Z.ltb_spec (Z.of_nat n) 0); [lia|].
  apply Nat2Z.id.
Qed.

Lemma slice_to_app {A} (x y : list A) : slice_to (x ++ y) (len x) = x.
Proof.
  unfold slice_to, len. rewrite clamp_nat, firstn_app, Nat.sub_diag, firstn_all.
  simpl. apply app_nil_r.
Qed.

Lemma slice_from_app {A} (x y : list A) : slice_from (x ++ y) (len x) = y.
Proof.
  unfold slice_from, len. rewrite clamp_nat, skipn_app, Nat.sub_diag, skipn_all.
  reflexivity.
Qed.

Lemma slice_from_length {A} (l : list A) (i : Z) :
  (List.length (slice_from l i) <= List.length l)%nat.
Proof. unfold slice_from. rewrite length_skipn. lia. Qed.

Lemma byte_eqb_eq (x y : byte) : Byte.eqb x y = true <-> x = y.
Proof.
  split; [apply Byte.byte_dec_bl | apply Byte.byte_dec_lb].
Qed.

Lemma bytes_eqb_eq (x y : bytes) : bytes_eqb x y = true <-> x = y.
Proof.
  revert y. induction x as [|a x IH]; intros [|c y]; simpl; split;
    try congruence; try reflexivity.
  - intros H. apply andb_true_iff in H as [H1 H2].
    apply byte_eqb_eq in H1. apply IH in H2. congruence.
  - intros H. injection H as -> ->. apply andb_true_iff. split.
    + now apply byte_eqb_eq.
    + now apply IH.
Qed.

Lemma startswith_iff (l sub : bytes) :
  startswith l sub = true <-> exists r, l = sub ++ r.
Proof.
  revert l. induction sub as [|a sub IH]; intros l; simpl.
  - split; [intros _; now exists l | destruct l; reflexivity].
  - destruct l as [|c l].
    + split; [discriminate | intros [r H]; discriminate].
    + rewrite andb_true_iff, byte_eqb_eq, IH. split.
      * intros [-> [r ->]]. now exists r.
      * intros [r H]. injection H as -> ->. split; [reflexivity | now exists r].
Qed.

Lemma startswith_app (l sub y : bytes) :
  startswith l sub = true -> startswith (l ++ y) sub = true.
Proof.
  rewrite !startswith_iff. intros [r ->]. exists (r ++ y). now rewrite app_assoc.
Qed.

Lemma startswith_short (l sub : bytes) :
  startswith l sub = true -> (List.length sub <= List.length l)%nat.
Proof.
  rewrite startswith_iff. intros [r ->]. rewrite length_app. lia.
Qed.

Lemma startswith_app_false (l sub y : bytes) :
  startswith l sub = false -> (List.length sub <= List.length l)%nat ->
  startswith (l ++ y) sub = false.
Proof.
  revert l. induction sub as [|a sub IH]; intros l; simpl; [discriminate|].
  destruct l as [|c l]; simpl; [lia|].
  intros H Hl. apply andb_false_iff in H as [H|H].
  - now rewrite H.
  - rewrite IH by (assumption || lia). apply andb_false_r.
Qed.

Lemma index_bound (l sub : bytes) (k : nat) :
  index l sub = Some k -> (k + List.length sub <= List.length l)%nat.
Proof.
  revert k. induction l as [|c l IH]; intros k; simpl.
  - destruct sub; simpl; [|discriminate]. intros [= <-]. simpl. lia.
  - destruct (startswith (c :: l) sub) eqn:E.
    + intros [= <-]. apply startswith_short in E. simpl in *. lia.
    + destruct (index l sub) as [j|]; simpl; [|discriminate].
      intros [= <-]. specialize (IH j eq_refl). lia.
Qed.

Lemma index_app (l sub y : bytes) (k : nat) :
  index l sub = Some k -> index (l ++ y) sub = Some k.
Proof.
  revert k. induction l as [|c l IH]; intros k.
  - simpl. destruct sub; simpl; [|discriminate]. intros [= <-].
    destruct y; reflexivity.
  - cbn [index app]. destruct (startswith (c :: l) sub) eqn:E.
    + intros [= <-]. change (c :: l ++ y) with ((c :: l) ++ y).
      now rewrite (startswith_app _ _ y E).
    + destruct (index l sub) as [j|] eqn:Ej; simpl; [|discriminate].
      intros [= <-]. change (c :: l ++ y) with ((c :: l) ++ y).
      rewrite startswith_app_false; [|assumption|].
      * now rewrite (IH j eq_refl).
      * apply index_bound in Ej. simpl. lia.
Qed.

(** The terminator that follows a line free of CRLF is the first one. *)
Lemma index_line (ln r : bytes) :
  index ln SEP = None -> index (ln ++ SEP ++ r) SEP = Some (List.length ln).
Proof.
  induction ln as [|c ln IH]; intros H.
  - reflexivity.
  - cbn [index] in H. destruct (startswith (c :: ln) SEP) eqn:E; [discriminate|].
    destruct (index ln SEP) eqn:Ei; [discriminate|].
    cbn [index app List.length].
    assert (E' : startswith (c :: ln ++ SEP ++ r) SEP = false).
    { destruct ln as [|d ln].
      - simpl. destruct (Byte.eqb CR c); [|reflexivity]. reflexivity.
      - change (c :: (d :: ln) ++ SEP ++ r) with ((c :: d :: ln) ++ SEP ++ r).
        apply startswith_app_false; [assumption | simpl; lia]. }
    rewrite E', IH by reflexivity. reflexivity.
Qed.

Lemma index_short (x y ln r : bytes) :
  index ln SEP = None -> x ++ y = ln ++ SEP ++ r ->
  (List.length x < List.length ln + 2)%nat -> index x SEP = None.
Proof.
  intros Hln E Hx. destruct (index x SEP) as [k|] eqn:Ek; [|reflexivity].
  pose proof (index_bound _ _ _ Ek) as Hb.
  apply (index_app _ _ y) in Ek. rewrite E, index_line in Ek by assumption.
  injection Ek as <-. simpl in Hb. lia.
Qed.

(** ** [HttpPayloadParser] *)

Section ParserProperties.
Context {B : Builtins} {Zl : Zlib}.

Lemma and_then_Next m k self chunk :
  and_then m k = (self, Next chunk) ->
  exists self0 chunk0, m = (self0, Next chunk0) /\ k chunk0 self0 = (self, Next chunk).
Proof.
  destruct m as [s0 [c0|r|e]]; simpl; try discriminate. intros H. now exists s0, c0.
Qed.

Lemma call_payload_ctl_Next f p k self chunk :
  call_payload_ctl f p k = (self, Next chunk) ->
  exists pl, k (set_payload p pl) = (self, Next chunk).
Proof.
  unfold call_payload_ctl. destruct (f (payload p)) as [pl [e|]]; [discriminate|].
  intros H. now exists pl.
Qed.

Lemma read_chunk_size_Next chunk self self' chunk' :
  read_chunk_size chunk self = (self', Next chunk') ->
  (List.length chunk' <= List.length chunk)%nat.
Proof.
  unfold read_chunk_size. destruct (ChunkState_eqb _ _).
  - destruct (_ >=? 0); [|discriminate].
    destruct (int16 _) as [n|].
    + destruct (n =? 0); intros [= _ <-]; apply slice_from_length.
    + intros H. apply call_payload_ctl_Next in H as [pl H]. discriminate.
  - intros [= _ <-]. lia.
Qed.

Lemma read_chunk_Next chunk self self' chunk' :
  read_chunk chunk self = (self', Next chunk') ->
  (List.length chunk' <= List.length chunk)%nat.
Proof.
  unfold read_chunk. destruct (ChunkState_eqb _ _).
  - destruct (_ >=? _); intros H; apply call_payload_ctl_Next in H as [pl H].
    + discriminate.
    + injection H as _ <-. apply slice_from_length.
  - intros [= _ <-]. lia.
Qed.

Lemma read_trailers_Next chunk self self' chunk' :
  read_trailers chunk self = (self', Next chunk') ->
  chunk' = chunk /\ self' = self /\ _chunk self <> PARSE_CHUNKED_TRAILERS.
Proof.
  unfold read_trailers. destruct (ChunkState_eqb _ _) eqn:E.
  - destruct (_ >=? 0); [|discriminate].
    intros H. apply call_payload_ctl_Next in H as [pl H]. discriminate.
  - intros [= <- <-]. repeat split. intros H. rewrite H in E. discriminate.
Qed.

Lemma slice_to_2_SEP (chunk : bytes) :
  bytes_eqb (slice_to chunk 2) SEP = true -> exists r, chunk = SEP ++ r.
Proof.
  intros H. apply bytes_eqb_eq in H. unfold slice_to in H.
  change (clamp chunk 2) with 2%nat in H.
  destruct chunk as [|x [|y r]]; try discriminate.
  simpl in H. injection H as -> ->. now exists r.
Qed.

Lemma ChunkState_eqb_eq x y : ChunkState_eqb x y = true <-> x = y.
Proof. destruct x, y; simpl; split; congruence. Qed.

Lemma ChunkState_eqb_refl x : ChunkState_eqb x x = true.
Proof. now apply ChunkState_eqb_eq. Qed.

Lemma read_chunk_size_state chunk self self' chunk' :
  read_chunk_size chunk self = (self', Next chunk') ->
  (_chunk self' = PARSE_CHUNKED_TRAILERS \/ _chunk self' = PARSE_CHUNKED_CHUNK) \/
  (self' = self /\ chunk' = chunk /\ _chunk self <> PARSE_CHUNKED_SIZE).
Proof.
  unfold read_chunk_size. destruct (ChunkState_eqb _ _) eqn:E.
  - destruct (_ >=? 0); [|discriminate].
    destruct (int16 _) as [n|].
    + destruct (n =? 0); intros [= <- _]; left; [left | right]; reflexivity.
    + intros H. apply call_payload_ctl_Next in H as [pl H]. discriminate.
  - intros [= <- <-]. right. repeat split. intros H. rewrite H in E. discriminate.
Qed.

Lemma read_chunk_state chunk self self' chunk' :
  read_chunk chunk self = (self', Next chunk') ->
  _chunk self' = PARSE_CHUNKED_CHUNK_EOF \/
  (self' = self /\ chunk' = chunk /\ _chunk self <> PARSE_CHUNKED_CHUNK).
Proof.
  unfold read_chunk. destruct (ChunkState_eqb _ _) eqn:E.
  - destruct (_ >=? _); intros H; apply call_payload_ctl_Next in H as [pl H].
    + discriminate.
    + injection H as <- _. now left.
  - intros [= <- <-]. right. repeat split. intros H. rewrite H in E. discriminate.
Qed.

Lemma toss_crlf_Next chunk self self' chunk' :
  toss_crlf chunk self = (self', Next chunk') ->
  (List.length chunk' < List.length chunk)%nat \/
  (self' = self /\ chunk' = chunk /\ _chunk self <> PARSE_CHUNKED_CHUNK_EOF).
Proof.
  unfold toss_crlf. destruct (ChunkState_eqb _ _) eqn:E.
  - destruct (bytes_eqb _ _) eqn:E2; [|discriminate].
    intros [= _ <-]. left. apply slice_to_2_SEP in E2 as [r ->].
    change 2 with (len SEP). rewrite slice_from_app. simpl. lia.
  - intros [= <- <-]. right. repeat split. intros H. rewrite H in E. discriminate.
Qed.

(** A pass that falls out of the loop body has consumed input. *)
Lemma chunked_pass_Next chunk self self' chunk' :
  chunked_pass chunk self = (self', Next chunk') ->
  (List.length chunk' < List.length chunk)%nat.
Proof.
  unfold chunked_pass. intros H.
  apply and_then_Next in H as (s3 & c3 & H3 & H).
  apply and_then_Next in H3 as (s2 & c2 & H2 & H3).
  apply and_then_Next in H2 as (s1 & c1 & H1 & H2).
  apply read_trailers_Next in H as (-> & -> & Ht).
  pose proof (read_chunk_size_Next _ _ _ _ H1) as L1.
  pose proof (read_chunk_Next _ _ _ _ H2) as L2.
  apply toss_crlf_Next in H3 as [L3 | (-> & -> & N3)]; [lia|].
  apply read_chunk_state in H2 as [E2 | (-> & -> & N2)]; [congruence|].
  apply read_chunk_size_state in H1 as [[E1|E1] | (-> & -> & N1)]; try congruence.
  destruct (_chunk self); congruence.
Qed.

(** The loop terminates: as many passes as the buffer has bytes suffice. *)
Lemma chunked_loop_total fuel : forall chunk self,
  (List.length chunk <= fuel)%nat -> exists r, chunked_loop fuel chunk self = Some r.
Proof.
  induction fuel as [|fuel IH]; intros chunk self Hl.
  - destruct chunk; [|simpl in Hl; lia]. simpl. eauto.
  - cbn [chunked_loop]. destruct (truthy chunk); [|eauto].
    destruct (chunked_pass chunk self) as [s [c|r|e]] eqn:E; eauto.
    apply IH. apply chunked_pass_Next in E. lia.
Qed.

Lemma chunked_loop_fuel fuel : forall fuel' chunk self r,
  chunked_loop fuel chunk self = Some r -> (fuel <= fuel')%nat ->
  chunked_loop fuel' chunk self = Some r.
Proof.
  induction fuel as [|fuel IH]; intros fuel' chunk self r.
  - destruct chunk; simpl; [|discriminate]. intros H _. now destruct fuel'.
  - cbn [chunked_loop]. destruct (truthy chunk) eqn:T.
    + intros H Hf. destruct fuel' as [|fuel']; [lia|]. cbn [chunked_loop]. rewrite T.
      destruct (chunked_pass chunk self) as [s [c|r'|e]]; try assumption.
      apply (IH fuel'); [assumption | lia].
    + intros H _. destruct fuel'; cbn [chunked_loop]; now rewrite T.
Qed.

Lemma chunked_loop_any fuel fuel' chunk self :
  (List.length chunk <= fuel)%nat -> (List.length chunk <= fuel')%nat ->
  chunked_loop fuel chunk self = chunked_loop fuel' chunk self.
Proof.
  intros H H'.
  destruct (chunked_loop_total fuel chunk self H) as [r E].
  destruct (chunked_loop_total fuel' chunk self H') as [r' E'].
  destruct (Nat.le_ge_cases fuel fuel') as [L|L].
  - rewrite E. symmetry. exact (chunked_loop_fuel _ _ _ _ _ E L).
  - rewrite E'. exact (chunked_loop_fuel _ _ _ _ _ E' L).
Qed.

(** [feed_data] always returns or raises. *)
Lemma feed_data_total chunk self :
  exists r, HttpPayloadParser_feed_data chunk self = Some r.
Proof.
  unfold HttpPayloadParser_feed_data. destruct (_type self); eauto.
  - destruct (_ >=? _); eauto.
  - destruct (truthy (_chunk_tail self)); apply chunked_loop_total; lia.
Qed.

Lemma sink_bytes_app (x y : StreamSink) :
  sink_bytes (x ++ y) = sink_bytes x ++ sink_bytes y.
Proof.
  induction x as [|[d sz| |e] x IH]; simpl; [reflexivity | | assumption | assumption].
  now rewrite IH, app_assoc.
Qed.

Lemma find_line (ln r : bytes) :
  index ln SEP = None -> find (ln ++ SEP ++ r) SEP = len ln.
Proof. intros H. unfold find. now rewrite index_line. Qed.

(** On a complete size line the code extracts [size_field]. *)
Lemma size_line_field (ln r : bytes) :
  let chunk := ln ++ SEP ++ r in
  let pos := len ln in
  (if pos >? 0 then
     let i := find_until chunk CHUNK_EXT pos in
     if i >=? 0 then slice_to chunk i else slice_to chunk pos
   else slice_to chunk pos) = size_field ln.
Proof.
  cbv zeta. unfold find_until. rewrite slice_to_app. unfold size_field, find.
  destruct (Z.gtb_spec (len ln) 0) as [Hp|Hp].
  - destruct (index ln CHUNK_EXT) as [i|] eqn:Ei.
    + destruct (Z.geb_spec (Z.of_nat i) 0); [|lia].
      unfold slice_to. rewrite clamp_nat. apply index_bound in Ei.
      rewrite firstn_app. replace (i - List.length ln)%nat with O by lia.
      simpl. apply app_nil_r.
    + reflexivity.
  - destruct ln; [reflexivity | unfold len in Hp; simpl in Hp; lia].
Qed.

Lemma read_chunk_size_line ln r n self :
  _chunk self = PARSE_CHUNKED_SIZE ->
  index ln SEP = None -> int16 (size_field ln) = Some n ->
  read_chunk_size (ln ++ SEP ++ r) self =
  if n =? 0 then (set_chunk self PARSE_CHUNKED_TRAILERS, Next r)
  else (set_chunk_size (set_chunk self PARSE_CHUNKED_CHUNK) n, Next r).
Proof.
  intros Hs Hln Hn. unfold read_chunk_size. rewrite Hs. cbn [ChunkState_eqb].
  rewrite find_line by assumption.
  destruct (Z.geb_spec (len ln) 0) as [_|Hneg]; [|pose proof (len_nonneg ln); lia].
  rewrite size_line_field, Hn.
  replace (slice_from (ln ++ SEP ++ r) (len ln + 2)) with r; [reflexivity|].
  rewrite app_assoc. replace (len ln + 2) with (len (ln ++ SEP)).
  - now rewrite slice_from_app.
  - rewrite len_app. reflexivity.
Qed.

Lemma read_chunk_size_wait x self :
  _chunk self = PARSE_CHUNKED_SIZE -> index x SEP = None ->
  read_chunk_size x self = (set_chunk_tail self x, Return (false, None)).
Proof.
  intros Hs Hx. unfold read_chunk_size, find. rewrite Hs, Hx. reflexivity.
Qed.

Lemma read_trailers_wait x self :
  _chunk self = PARSE_CHUNKED_TRAILERS -> index x SEP = None ->
  read_trailers x self = (set_chunk_tail self x, Return (false, None)).
Proof.
  intros Hs Hx. unfold read_trailers, find. rewrite Hs, Hx. reflexivity.
Qed.

Lemma chunked_rest_size st k k' L body :
  st <> PARSE_CHUNKED_CHUNK ->
  chunked_rest st k L body -> chunked_rest st k' L body.
Proof.
  intros Hst H. destruct H; try congruence.
  - eapply rest_size; eassumption.
  - eapply rest_last; eassumption.
  - eapply rest_crlf; eassumption.
  - now apply rest_trailers.
Qed.

Lemma read_chunk_part x self out :
  _chunk self = PARSE_CHUNKED_CHUNK -> payload self = Sink out ->
  len x <= _chunk_size self ->
  read_chunk x self =
  (set_payload
     (let self := set_chunk_size self (_chunk_size self - len x) in
      if _chunk_size self =? 0 then set_chunk self PARSE_CHUNKED_CHUNK_EOF else self)
     (Sink (out ++ [feed_data_call x (len x)])),
   Return (false, None)).
Proof.
  intros Hs Hp Hl. destruct self as [pl ln ty ch sz tl dn].
  cbn [_chunk payload _chunk_size] in *. subst ch pl.
  unfold read_chunk, call_payload_ctl.
  cbn [_chunk ChunkState_eqb _chunk_size set_chunk_size set_chunk payload
       Payload_feed_data set_payload].
  destruct (Z.geb_spec sz (len x)); [|lia].
  destruct (sz - len x =? 0); reflexivity.
Qed.

Lemma read_chunk_full d l self out :
  _chunk self = PARSE_CHUNKED_CHUNK -> payload self = Sink out ->
  _chunk_size self = len d -> l <> [] ->
  read_chunk (d ++ l) self =
  (set_chunk (set_payload (set_chunk_size self 0)
                          (Sink (out ++ [feed_data_call d (len d)])))
             PARSE_CHUNKED_CHUNK_EOF,
   Next l).
Proof.
  intros Hs Hp Hn Hl. destruct self as [pl ln ty ch sz tl dn].
  cbn [_chunk payload _chunk_size] in *. subst ch pl sz.
  unfold read_chunk, call_payload_ctl.
  cbn [_chunk ChunkState_eqb _chunk_size set_chunk_size set_chunk payload
       Payload_feed_data set_payload].
  destruct (Z.geb_spec (len d) (len (d ++ l))) as [H|_].
  - rewrite len_app in H. destruct l; [congruence|]. unfold len in H. simpl in H. lia.
  - now rewrite slice_to_app, slice_from_app.
Qed.

Lemma toss_crlf_ok l self :
  _chunk self = PARSE_CHUNKED_CHUNK_EOF ->
  toss_crlf (SEP ++ l) self = (set_chunk self PARSE_CHUNKED_SIZE, Next l).
Proof. intros Hs. unfold toss_crlf. rewrite Hs. reflexivity. Qed.

Lemma toss_crlf_wait x self :
  _chunk self = PARSE_CHUNKED_CHUNK_EOF -> (List.length x < 2)%nat ->
  toss_crlf x self = (set_chunk_tail self x, Return (false, None)).
Proof.
  intros Hs Hx. unfold toss_crlf. rewrite Hs. cbn [ChunkState_eqb].
  destruct x as [|a [|c x]]; [reflexivity | | simpl in Hx; lia].
  change (slice_to [a] 2) with [a]. unfold SEP. cbn [bytes_eqb].
  destruct (Byte.eqb a CR); reflexivity.
Qed.

Lemma read_trailers_done t l self out :
  _chunk self = PARSE_CHUNKED_TRAILERS -> payload self = Sink out ->
  index t SEP = None ->
  read_trailers (t ++ SEP ++ l) self =
  (set_payload self (Sink (out ++ [feed_eof_call])), Return (true, Some l)).
Proof.
  intros Hs Hp Ht. unfold read_trailers. rewrite Hs. cbn [ChunkState_eqb].
  rewrite find_line by assumption.
  destruct (Z.geb_spec (len t) 0) as [_|Hneg]; [|pose proof (len_nonneg t); lia].
  unfold call_payload_ctl. rewrite Hp. cbn [Payload_feed_eof].
  replace (slice_from (t ++ SEP ++ l) (len t + 2)) with l; [reflexivity|].
  rewrite app_assoc. replace (len t + 2) with (len (t ++ SEP)).
  - now rewrite slice_from_app.
  - rewrite len_app. reflexivity.
Qed.

Lemma chunked_loop_step fuel chunk self :
  chunk <> [] ->
  chunked_loop (S fuel) chunk self = resume fuel (chunked_pass chunk self).
Proof.
  intros H. destruct chunk; [congruence|]. cbn [chunked_loop truthy].
  unfold resume. now destruct (chunked_pass _ _) as [s0 [c0|r0|e0]].
Qed.

(** Where a prefix [x] of [a ++ c] ends: past [a], or inside it. *)
Lemma prefix_cases {A} (x y a c : list A) :
  a ++ c = x ++ y ->
  (exists l, x = a ++ l /\ c = l ++ y) \/
  ((List.length x < List.length a)%nat /\ exists l, a = x ++ l /\ y = l ++ c).
Proof.
  intros H. symmetry in H. apply app_eq_app in H as [l [[H1 H2]|[H1 H2]]].
  - left. now exists l.
  - destruct l as [|e l].
    + left. exists []. rewrite app_nil_r in *. now subst.
    + right. split; [|now exists (e :: l)]. subst a. rewrite length_app. simpl. lia.
Qed.

Lemma progress_shift out d sz y body res :
  progress (out ++ [feed_data_call d sz]) y body res ->
  progress out y (d ++ body) res.
Proof.
  intros (s' & r & out' & E & Hp & Ht & H). exists s', r, out'.
  repeat split; try assumption.
  rewrite sink_bytes_app in H. cbn [sink_bytes] in H. rewrite app_nil_r in H.
  destruct H as [(rest & Hr & Hb) | (Hr & b1 & b2 & Hbody & Hb & Hrest & Hpk)].
  - left. exists rest. split; [assumption|]. now rewrite Hb, <- !app_assoc.
  - right. split; [assumption|]. exists (d ++ b1), b2.
    repeat split; try assumption.
    + now rewrite Hbody, app_assoc.
    + now rewrite Hb, <- !app_assoc.
Qed.

(** Running the loop, from the block for the current state, over any prefix
    [x] of a well-formed rest [x ++ y]. *)
Lemma run_prefix st n L body :
  chunked_rest st n L body ->
  forall x y self out fuel,
    L = x ++ y -> _chunk self = st ->
    (st = PARSE_CHUNKED_CHUNK -> _chunk_size self = n) ->
    payload self = Sink out -> _type self = PARSE_CHUNKED ->
    _chunk_tail self = [] -> (List.length x <= fuel)%nat ->
    progress out y body (resume fuel (pass_from st x self)).
Proof.
  induction 1 as [ln n k rest body Hln Hn Hpos Hrest IH
                 | ln k k' rest Hln Hn Hrest IH
                 | d n k rest body Hd Hpos Hrest IH
                 | k k' rest body Hrest IH
                 | t k rest Ht];
    intros x y self out fuel HL Hst Hsz Hpl Hty Htl Hfuel.
  - (* a size line announcing a chunk *)
    rewrite app_assoc in HL.
    apply prefix_cases in HL as [(l & -> & ->) | (Hshort & l & Hl & ->)].
    + cbn [pass_from]. unfold chunked_pass. rewrite <- app_assoc.
      rewrite (read_chunk_size_line ln l n self Hst Hln Hn).
      destruct (Z.eqb_spec n 0) as [->|_]; [lia|].
      cbn [and_then].
      apply (IH l y _ out fuel); try reflexivity; try assumption.
      rewrite !length_app in Hfuel. lia.
    + assert (Hx : index x SEP = None).
      { apply (index_short x l ln []); [assumption| |].
        - symmetry. exact Hl.
        - rewrite length_app in Hshort. simpl in Hshort. lia. }
      cbn [pass_from]. unfold chunked_pass.
      rewrite (read_chunk_size_wait x self Hst Hx). cbn [and_then resume].
      exists (set_chunk_tail self x), (false, None), out.
      repeat split; try assumption. right. split; [reflexivity|].
      exists [], body. repeat split.
      * now rewrite app_nil_r.
      * cbn [_chunk set_chunk_tail _chunk_size _chunk_tail]. rewrite Hst.
        rewrite app_assoc, <- Hl, <- app_assoc. eapply rest_size; eassumption.
      * unfold parked. cbn [_chunk set_chunk_tail _chunk_tail]. now rewrite Hst.
  - (* the last size line *)
    rewrite app_assoc in HL.
    apply prefix_cases in HL as [(l & -> & ->) | (Hshort & l & Hl & ->)].
    + cbn [pass_from]. unfold chunked_pass. rewrite <- app_assoc.
      rewrite (read_chunk_size_line ln l 0 self Hst Hln Hn).
      cbn [Z.eqb and_then].
      unfold read_chunk at 1. cbn [_chunk set_chunk ChunkState_eqb and_then].
      unfold toss_crlf at 1. cbn [_chunk set_chunk ChunkState_eqb and_then].
      apply (IH l y _ out fuel); try reflexivity; try assumption.
      * intros; discriminate.
      * rewrite !length_app in Hfuel. lia.
    + assert (Hx : index x SEP = None).
      { apply (index_short x l ln []); [assumption| |].
        - symmetry. exact Hl.
        - rewrite length_app in Hshort. simpl in Hshort. lia. }
      cbn [pass_from]. unfold chunked_pass.
      rewrite (read_chunk_size_wait x self Hst Hx). cbn [and_then resume].
      exists (set_chunk_tail self x), (false, None), out.
      repeat split; try assumption. right. split; [reflexivity|].
      exists [], []. repeat split.
      * now rewrite app_nil_r.
      * cbn [_chunk set_chunk_tail _chunk_size _chunk_tail]. rewrite Hst.
        rewrite app_assoc, <- Hl, <- app_assoc. eapply rest_last; eassumption.
      * unfold parked. cbn [_chunk set_chunk_tail _chunk_tail]. now rewrite Hst.
  - (* chunk data *)
    specialize (Hsz eq_refl).
    apply prefix_cases in HL as [(l & -> & ->) | (Hshort & l & -> & ->)].
    + destruct l as [|e l].
      * (* exactly the data *)
        rewrite app_nil_r. cbn [pass_from app].
        rewrite (read_chunk_part d self out Hst Hpl) by lia.
        cbn [and_then resume]. rewrite Hsz, Hd, Z.sub_diag.
        cbn [_chunk_size set_chunk_size Z.eqb].
        eexists _, (false, None), _. split; [reflexivity|].
        split; [reflexivity|]. split; [assumption|]. right. split; [reflexivity|].
        exists d, body. repeat split.
        -- rewrite sink_bytes_app. cbn [sink_bytes]. now rewrite app_nil_r.
        -- cbn [_chunk _chunk_size _chunk_tail set_payload set_chunk set_chunk_size].
           rewrite Htl. cbn [app].
           eapply chunked_rest_size; [discriminate | eassumption].
        -- unfold parked.
           cbn [_chunk _chunk_tail set_payload set_chunk set_chunk_size].
           now rewrite Htl.
      * (* the data and more *)
        cbn [pass_from].
        rewrite (read_chunk_full d (e :: l) self out Hst Hpl) by (congruence || lia).
        cbn [and_then]. apply (progress_shift out d (len d)).
        apply (IH (e :: l) y _ _ fuel); try reflexivity.
        -- intros; discriminate.
        -- assumption.
        -- assumption.
        -- rewrite length_app in Hfuel. lia.
    + (* only part of the data *)
      assert (Hl : l <> []) by (intros ->; rewrite app_nil_r in Hshort; lia).
      subst n. cbn [pass_from].
      rewrite (read_chunk_part x self out Hst Hpl)
        by (rewrite Hsz, len_app; pose proof (len_nonneg l); lia).
      cbn [and_then resume]. rewrite Hsz.
      assert (Hlen : len (x ++ l) - len x = len l) by (rewrite len_app; lia).
      rewrite Hlen. cbn [_chunk_size set_chunk_size].
      assert (Hlpos : 0 < len l) by (destruct l; [congruence | unfold len; simpl; lia]).
      destruct (Z.eqb_spec (len l) 0) as [E|_]; [lia|].
      eexists _, (false, None), _. split; [reflexivity|].
      split; [reflexivity|]. split; [assumption|]. right. split; [reflexivity|].
      exists x, (l ++ body). repeat split.
      * now rewrite app_assoc.
      * rewrite sink_bytes_app. cbn [sink_bytes]. now rewrite app_nil_r.
      * cbn [_chunk _chunk_size _chunk_tail set_payload set_chunk_size].
        rewrite Htl, Hst. cbn [app].
        eapply rest_data; [reflexivity | assumption | eassumption].
      * unfold parked. cbn [_chunk _chunk_tail set_payload set_chunk_size].
        now rewrite Hst, Htl.
  - (* the CRLF after the data *)
    apply prefix_cases in HL as [(l & -> & ->) | (Hshort & l & Hl & ->)].
    + cbn [pass_from]. rewrite (toss_crlf_ok l self Hst). cbn [and_then].
      unfold read_trailers. cbn [_chunk set_chunk ChunkState_eqb resume].
      destruct l as [|e l].
      * destruct fuel; cbn [chunked_loop truthy];
          (exists (set_chunk self PARSE_CHUNKED_SIZE), (false, None), out;
           repeat split; try assumption; right; split; [reflexivity|];
           exists [], body; repeat split;
           [ now rewrite app_nil_r
           | cbn [_chunk _chunk_size _chunk_tail set_chunk]; rewrite Htl;
             eapply chunked_rest_size; [discriminate | eassumption]
           | unfold parked; cbn [_chunk _chunk_tail set_chunk]; now rewrite Htl ]).
      * destruct fuel as [|fuel]; [simpl in Hfuel; lia|].
        rewrite chunked_loop_step by discriminate.
        apply (IH (e :: l) y _ out fuel); try reflexivity; try assumption.
        -- intros; discriminate.
        -- simpl in Hfuel. simpl. lia.
    + cbn [pass_from]. rewrite (toss_crlf_wait x self Hst Hshort).
      cbn [and_then resume].
      exists (set_chunk_tail self x), (false, None), out.
      repeat split; try assumption. right. split; [reflexivity|].
      exists [], body. repeat split.
      * now rewrite app_nil_r.
      * cbn [_chunk set_chunk_tail _chunk_size _chunk_tail]. rewrite Hst.
        rewrite app_assoc, <- Hl. eapply rest_crlf; eassumption.
      * unfold parked. cbn [_chunk set_chunk_tail _chunk_tail]. rewrite Hst.
        destruct (startswith x SEP) eqn:E; [|reflexivity].
        apply startswith_short in E. simpl in *. lia.
  - (* the trailer part *)
    rewrite app_assoc in HL.
    apply prefix_cases in HL as [(l & -> & ->) | (Hshort & l & Hl & ->)].
    + cbn [pass_from]. rewrite <- app_assoc.
      rewrite (read_trailers_done t l self out Hst Hpl Ht). cbn [resume].
      eexists _, _, _. split; [reflexivity|]. split; [reflexivity|].
      split; [assumption|]. left. eexists. split; [reflexivity|].
      rewrite sink_bytes_app. reflexivity.
    + assert (Hx : index x SEP = None).
      { apply (index_short x l t []); [assumption| |].
        - symmetry. exact Hl.
        - rewrite length_app in Hshort. simpl in Hshort. lia. }
      cbn [pass_from]. rewrite (read_trailers_wait x self Hst Hx). cbn [resume].
      exists (set_chunk_tail self x), (false, None), out.
      repeat split; try assumption. right. split; [reflexivity|].
      exists [], []. repeat split.
      * now rewrite app_nil_r.
      * cbn [_chunk set_chunk_tail _chunk_size _chunk_tail]. rewrite Hst.
        rewrite app_assoc, <- Hl, <- app_assoc. now apply rest_trailers.
      * unfold parked. cbn [_chunk set_chunk_tail _chunk_tail]. now rewrite Hst.
Qed.

Lemma chunked_pass_from chunk self :
  chunked_pass chunk self = pass_from (_chunk self) chunk self.
Proof.
  destruct (_chunk self) eqn:E; cbn [pass_from]; [reflexivity| | |];
    unfold chunked_pass, read_chunk_size; rewrite E; cbn [ChunkState_eqb and_then];
    [reflexivity| |];
    unfold read_chunk; rewrite E; cbn [ChunkState_eqb and_then]; [reflexivity|].
  unfold toss_crlf. rewrite E. reflexivity.
Qed.

(** A parked parser still owes input: the rest cannot be the tail alone. *)
Lemma parked_rest self body :
  chunked_rest (_chunk self) (_chunk_size self) (_chunk_tail self) body ->
  parked self -> False.
Proof.
  unfold parked. generalize (_chunk self) (_chunk_size self) (_chunk_tail self).
  intros st k tl H.
  destruct H as [ln n k rest b Hln _ _ _ | ln k k' rest Hln _ _
                | d n k rest b Hd Hpos _ | k k' rest b _ | t k rest Ht];
    intros Hp.
  - rewrite index_line in Hp by assumption. discriminate.
  - rewrite index_line in Hp by assumption. discriminate.
  - destruct d; [unfold len in Hd; simpl in Hd; lia | discriminate].
  - discriminate.
  - rewrite index_line in Hp by assumption. discriminate.
Qed.

Lemma feed_data_chunked chunk self :
  _type self = PARSE_CHUNKED ->
  HttpPayloadParser_feed_data chunk self =
  chunked_loop (List.length (_chunk_tail self ++ chunk)) (_chunk_tail self ++ chunk)
               (set_chunk_tail self []).
Proof.
  intros Ht. unfold HttpPayloadParser_feed_data. rewrite Ht.
  destruct self as [pl ln ty ch sz tl dn]. cbn [_chunk_tail].
  destruct tl; reflexivity.
Qed.

(** Chunked framing: however the rest of a well-formed body is cut into
    buffers, feeding them completes the body and forwards exactly the bytes
    it encodes. *)
Lemma feed_buffers_chunked buffers : forall self out body,
  _type self = PARSE_CHUNKED -> payload self = Sink out ->
  chunked_rest (_chunk self) (_chunk_size self)
               (_chunk_tail self ++ List.concat buffers) body ->
  parked self ->
  exists self' rest out',
    feed_buffers buffers self = Some (self', Returned (true, Some rest)) /\
    payload self' = Sink out' /\ sink_bytes out' = sink_bytes out ++ body.
Proof.
  induction buffers as [|c buffers IH]; intros self out body Hty Hpl Hrest Hpk.
  - cbn [List.concat] in Hrest. rewrite app_nil_r in Hrest.
    destruct (parked_rest _ _ Hrest Hpk).
  - cbn [feed_buffers List.concat] in *. rewrite (feed_data_chunked c self Hty).
    rewrite app_assoc in Hrest.
    set (self0 := set_chunk_tail self []).
    destruct (_chunk_tail self ++ c) as [|e x] eqn:Ex.
    + (* nothing to read: the call returns at once *)
      cbn [List.length chunked_loop truthy].
      apply app_eq_nil in Ex as [Etl Ec].
      assert (E0 : self0 = self).
      { unfold self0. destruct self. cbn in Etl. now subst. }
      rewrite E0. apply IH; try assumption.
      now rewrite Etl.
    + rewrite (chunked_loop_any _ (S (List.length (e :: x)))) by lia.
      rewrite chunked_loop_step by discriminate.
      rewrite chunked_pass_from.
      assert (P : progress out (List.concat buffers) body
                    (resume (List.length (e :: x))
                       (pass_from (_chunk self0) (e :: x) self0))).
      { eapply (run_prefix (_chunk self0) (_chunk_size self0)); try reflexivity;
          try eassumption; reflexivity. }
      destruct P as (s' & r & out' & E & Hp' & Ht' & [(rest & -> & Hb)
                     | (-> & b1 & b2 & -> & Hb & Hrest' & Hpk')]).
      * rewrite E. now exists s', rest, out'.
      * rewrite E. destruct (IH s' out' b2 Ht' Hp' Hrest' Hpk')
          as (s2 & rest & out2 & E2 & Hp2 & Hb2).
        exists s2, rest, out2. repeat split; try assumption.
        now rewrite Hb2, Hb, app_assoc.
Qed.

(** Fixed-length framing: the first [_length] bytes are forwarded, however
    they are cut. *)
Lemma feed_buffers_length buffers : forall self out,
  _type self = PARSE_LENGTH -> payload self = Sink out -> 0 <= _length self ->
  exists self' r out',
    feed_buffers buffers self = Some (self', Returned r) /\
    payload self' = Sink out' /\
    sink_bytes out' =
    sink_bytes out ++ firstn (Z.to_nat (_length self)) (List.concat buffers).
Proof.
  induction buffers as [|c buffers IH]; intros self out Hty Hpl HL.
  - exists self, (false, None), out. cbn. rewrite firstn_nil, app_nil_r. auto.
  - destruct self as [pl L ty ch sz tl dn]. cbn [_type payload _length] in *.
    subst ty pl. cbn [feed_buffers List.concat].
    unfold HttpPayloadParser_feed_data, call_payload.
    cbn [_type _length set_length payload Payload_feed_data set_payload].
    destruct (Z.geb_spec L (len c)) as [Hge|Hlt].
    + destruct (Z.eqb_spec (L - len c) 0) as [E0|N0].
      * cbn [Payload_feed_eof payload set_payload].
        eexists _, _, _. split; [reflexivity|]. split; [reflexivity|].
        rewrite !sink_bytes_app. cbn [sink_bytes]. rewrite !app_nil_r.
        f_equal. replace (Z.to_nat L) with (List.length c) by (unfold len in *; lia).
        rewrite firstn_app, Nat.sub_diag, firstn_all. cbn. now rewrite app_nil_r.
      * edestruct (IH {| payload := Sink (out ++ [feed_data_call c (len c)]);
                         _length := L - len c; _type := PARSE_LENGTH; _chunk := ch;
                         _chunk_size := sz; _chunk_tail := tl; done := dn |})
          as (s' & r & out' & E & Hp & Hb); try reflexivity.
        { cbn. lia. }
        exists s', r, out'. split; [exact E|]. split; [exact Hp|].
        rewrite Hb, sink_bytes_app. cbn [sink_bytes _length]. rewrite app_nil_r.
        rewrite <- app_assoc. f_equal.
        rewrite firstn_app, (@firstn_all2 _ (Z.to_nat L) c) by (unfold len in *; lia).
        f_equal. f_equal. unfold len in *. lia.
    + cbn [Payload_feed_eof payload set_payload].
      eexists _, _, _. split; [reflexivity|]. split; [reflexivity|].
      rewrite !sink_bytes_app. cbn [sink_bytes]. rewrite !app_nil_r.
      f_equal. unfold slice_to.
      destruct (Z.ltb_spec L 0) as [Hn|_]; [lia|].
      unfold clamp. destruct (Z.ltb_spec L 0) as [Hn|_]; [lia|].
      rewrite firstn_app.
      replace (Z.to_nat L - List.length c)%nat with O by (unfold len in *; lia).
      cbn. now rewrite app_nil_r.
Qed.

(** Read-to-EOF framing forwards every byte. *)
Lemma feed_buffers_until_eof buffers : forall self out,
  _type self = PARSE_UNTIL_EOF -> payload self = Sink out ->
  exists self' r out',
    feed_buffers buffers self = Some (self', Returned r) /\
    payload self' = Sink out' /\
    sink_bytes out' = sink_bytes out ++ List.concat buffers.
Proof.
  induction buffers as [|c buffers IH]; intros self out Hty Hpl.
  - exists self, (false, None), out. cbn. rewrite app_nil_r. auto.
  - destruct self as [pl L ty ch sz tl dn]. cbn [_type payload] in *.
    subst ty pl. cbn [feed_buffers List.concat].
    unfold HttpPayloadParser_feed_data, call_payload.
    cbn [_type payload Payload_feed_data set_payload].
    edestruct (IH {| payload := Sink (out ++ [feed_data_call c (len c)]);
                     _length := L; _type := PARSE_UNTIL_EOF; _chunk := ch;
                     _chunk_size := sz; _chunk_tail := tl; done := dn |})
      as (s' & r & out' & E & Hp & Hb); try reflexivity.
    exists s', r, out'. split; [exact E|]. split; [exact Hp|].
    rewrite Hb, sink_bytes_app. cbn [sink_bytes]. now rewrite app_nil_r, <- app_assoc.
Qed.

(** Without framing nothing is forwarded. *)
Lemma feed_buffers_none buffers : forall self,
  _type self = PARSE_NONE ->
  feed_buffers buffers self = Some (self, Returned (false, None)).
Proof.
  induction buffers as [|c buffers IH]; intros self Hty; [reflexivity|].
  cbn [feed_buffers]. unfold HttpPayloadParser_feed_data. rewrite Hty. now apply IH.
Qed.

(** A parser as [__init__] leaves it when no content coding is given. *)
Lemma init_fresh sink length chunked code method readall rwb self :
  HttpPayloadParser_init sink length chunked None code method readall rwb
  = (self, Returned tt) ->
  (exists out, payload self = Sink out /\ sink_bytes out = sink_bytes sink) /\
  _chunk self = PARSE_CHUNKED_SIZE /\ _chunk_size self = 0 /\ _chunk_tail self = [] /\
  (_type self = PARSE_LENGTH -> length = Some (_length self)).
Proof.
  unfold HttpPayloadParser_init, call_payload.
  cbn [payload set_payload set_type Payload_feed_eof set_done set_length _length].
  assert (Eeof : sink_bytes (sink ++ [feed_eof_call]) = sink_bytes sink)
    by (rewrite sink_bytes_app; apply app_nil_r).
  destruct rwb; cbn [negb].
  - destruct chunked.
    + intros [= <-]. cbn. repeat split; eauto. discriminate.
    + destruct length as [l|].
      * destruct (l =? 0); intros [= <-]; cbn; repeat split; eauto.
      * destruct (readall && _).
        -- intros [= <-]. cbn. repeat split; eauto. discriminate.
        -- destruct (match method with Some _ => _ | None => _ end);
             intros [= <-]; cbn; repeat split; eauto; discriminate.
  - intros [= <-]. cbn. repeat split; eauto. discriminate.
Qed.

(** Whatever the framing, feeding a well-formed stream in any slicing
    forwards exactly the body it carries. *)
Lemma feed_buffers_decodes buffers self out S body :
  payload self = Sink out ->
  _chunk self = PARSE_CHUNKED_SIZE -> _chunk_tail self = [] ->
  decodes self S body -> List.concat buffers = S ->
  exists self' r out',
    feed_buffers buffers self = Some (self', Returned r) /\
    payload self' = Sink out' /\ sink_bytes out' = sink_bytes out ++ body.
Proof.
  intros Hpl Hst Htl Hdec <-. unfold decodes in Hdec.
  destruct (_type self) eqn:Hty.
  - subst body. exists self, (false, None), out.
    rewrite feed_buffers_none, app_nil_r by assumption. auto.
  - destruct Hdec as [HL ->]. now apply feed_buffers_length.
  - destruct (feed_buffers_chunked buffers self out body Hty Hpl)
      as (s' & rest & out' & E & Hp & Hb).
    + rewrite Hst, Htl. cbn [app].
      eapply chunked_rest_size; [discriminate | exact Hdec].
    + unfold parked. now rewrite Hst, Htl.
    + now exists s', (true, Some rest), out'.
  - subst body. now apply feed_buffers_until_eof.
Qed.

Lemma feed_buffers_single S self self' r :
  feed_buffers [S] self = Some (self', r) ->
  exists r', HttpPayloadParser_feed_data S self = Some (self', r').
Proof.
  cbn [feed_buffers].
  destruct (HttpPayloadParser_feed_data S self) as [[s [[[] o]|e]]|];
    try (intros [= <- <-]; eauto); discriminate.
Qed.

Lemma well_formed_decodes self S :
  well_formed self S -> exists body, decodes self S body.
Proof.
  unfold well_formed, decodes. destruct (_type self); eauto.
Qed.

(** C5.  For a parser fresh from [__init__] (no content coding) and a body
    stream [S] that is well formed for its framing (fixed length, chunked,
    read-to-EOF), every way of cutting [S] into buffers, fed in order to
    [feed_data], forwards to the sink the same concatenated body bytes as one
    call on [S]: both forward exactly the body that [S] carries, after what
    the sink held before. *)
Theorem feed_data_any_slicing
    sink length chunked code method readall rwb self S buffers :
  HttpPayloadParser_init sink length chunked None code method readall rwb
  = (self, Returned tt) ->
  well_formed self S ->
  List.concat buffers = S ->
  exists self1 r1 self2 r2 body,
    feed_buffers buffers self = Some (self1, Returned r1) /\
    HttpPayloadParser_feed_data S self = Some (self2, Returned r2) /\
    decodes self S body /\
    sink_bytes (payload_out (payload self1)) = sink_bytes sink ++ body /\
    sink_bytes (payload_out (payload self2)) = sink_bytes sink ++ body.
Proof.
  intros Hinit Hwf Hcat.
  destruct (init_fresh _ _ _ _ _ _ _ _ Hinit)
    as ((out & Hpl & Hout) & Hst & _ & Htl & _).
  destruct (well_formed_decodes self S Hwf) as [body Hdec].
  destruct (feed_buffers_decodes buffers self out S body Hpl Hst Htl Hdec Hcat)
    as (s1 & r1 & out1 & E1 & Hp1 & Hb1).
  destruct (feed_buffers_decodes [S] self out S body Hpl Hst Htl Hdec)
    as (s2 & r2 & out2 & E2 & Hp2 & Hb2).
  { cbn. apply app_nil_r. }
  destruct (feed_buffers_single S self s2 _ E2) as [r2' E2'].
  assert (exists r, r2' = Returned r) as [r2'' ->].
  { cbn [feed_buffers] in E2. rewrite E2' in E2.
    destruct r2' as [[[] o]|e]; eauto. discriminate. }
  exists s1, r1, s2, r2'', body.
  rewrite Hp1, Hp2. cbn [payload_out]. rewrite Hb1, Hb2, Hout. auto.
Qed.

End ParserProperties.

(** Scenario S3: the chunked body [5 CRLF hello CRLF 0 CRLF CRLF] fed as
    [5 CRLF hel], [lo CRLF 0], [CRLF CRLF]. *)
Lemma feed_data_any_slicing_witness :
  let S := b "5" ++ SEP ++ b "hello" ++ SEP ++ b "0" ++ SEP ++ SEP in
  let buffers := [b "5" ++ SEP ++ b "hel"; b "lo" ++ SEP ++ b "0"; SEP ++ SEP] in
  let self := fst (HttpPayloadParser_init [] None true None None None false true) in
  exists self1 r1 self2 r2 body,
    feed_buffers buffers self = Some (self1, Returned r1) /\
    HttpPayloadParser_feed_data S self = Some (self2, Returned r2) /\
    decodes self S body /\
    sink_bytes (payload_out (payload self1)) = sink_bytes [] ++ body /\
    sink_bytes (payload_out (payload self2)) = sink_bytes [] ++ body.
Proof.
  cbv zeta.
  apply (feed_data_any_slicing [] None true None None false true).
  - reflexivity.
  - exists (b "hello").
    apply (rest_size (b "5") 5 0 (b "hello" ++ SEP ++ b "0" ++ SEP ++ SEP) (b "hello"));
      [reflexivity | reflexivity | lia |].
    apply (rest_data (b "hello") 5 0 (SEP ++ b "0" ++ SEP ++ SEP) []);
      [reflexivity | lia |].
    apply (rest_crlf 0 0 (b "0" ++ SEP ++ SEP) []).
    apply (rest_last (b "0") 0 0 SEP); [reflexivity | reflexivity |].
    apply (rest_trailers [] 0 []). reflexivity.
  - reflexivity.
Defined.

(** The same body delivered one byte at a time, and a body whose size line
    carries a chunk extension: the sink receives [hello] and the last call
    reports completion with nothing left over. *)
Example feed_data_bytewise :
  let S := b "5" ++ SEP ++ b "hello" ++ SEP ++ b "0" ++ SEP ++ SEP in
  let self := fst (HttpPayloadParser_init [] None true None None None false true) in
  match feed_buffers (map (fun c => [c]) S) self with
  | Some (self', Returned (true, Some [])) =>
      sink_bytes (payload_out (payload self')) = b "hello"
  | _ => False
  end.
Proof. vm_compute. reflexivity. Qed.

Example feed_data_chunk_extension :
  let S := b "5;name=value" ++ SEP ++ b "hello" ++ SEP ++ b "0" ++ SEP ++ SEP in
  let self := fst (HttpPayloadParser_init [] None true None None None false true) in
  match HttpPayloadParser_feed_data S self with
  | Some (self', Returned (true, Some [])) =>
      sink_bytes (payload_out (payload self')) = b "hello"
  | _ => False
  end.
Proof. vm_compute. reflexivity. Qed.

(** Where [__init__] selects no framing, it marks the parser done and
    signals EOF, except on the path that falls through every branch. *)
Lemma init_none_cases {B : Builtins} {Zl : Zlib}
    sink length chunked compression code method readall rwb self :
  HttpPayloadParser_init sink length chunked compression code method readall rwb
  = (self, Returned tt) ->
  _type self = PARSE_NONE ->
  (done self = true /\ sink_eof (payload_out (payload self)) = true) \/
  (done self = false /\ payload_out (payload self) = sink /\
   rwb = true /\ chunked = false /\ length = None).
Proof.
  unfold HttpPayloadParser_init, call_payload.
  set (payload0 := match compression with Some _ => _ | None => _ end).
  assert (Hout : payload_out payload0 = sink).
  { unfold payload0. destruct compression as [enc|]; [|reflexivity].
    destruct (rwb && _); reflexivity. }
  assert (Heof : forall pl pl', payload_out pl = sink ->
            Payload_feed_eof pl = (pl', None) ->
            sink_eof (payload_out pl') = true).
  { intros [out|out sz z] pl' Ho; cbn [Payload_feed_eof].
    - intros [= <-]. cbn. unfold sink_eof. rewrite existsb_app. cbn. apply orb_true_r.
    - destruct (zlib_dflush z) as [z' chunk].
      destruct (truthy chunk || (sz >? 0)); [destruct (negb (zlib_eof z'))|];
        try discriminate; intros [= <-]; cbn; unfold sink_eof;
        rewrite !existsb_app; cbn; now rewrite ?orb_true_r. }
  cbn [payload set_payload set_type set_length _length].
  destruct rwb; cbn [negb].
  - destruct chunked; [intros [= <-]; discriminate|].
    destruct length as [l|].
    + destruct (l =? 0).
      * destruct (Payload_feed_eof payload0) as [pl [e|]] eqn:E; [discriminate|].
        intros [= <-]. discriminate.
      * intros [= <-]. discriminate.
    + destruct (readall && _); [intros [= <-]; discriminate|].
      destruct (match method with Some _ => _ | None => _ end).
      * destruct (Payload_feed_eof payload0) as [pl [e|]] eqn:E; [discriminate|].
        intros [= <-] _. left. cbn. split; [reflexivity|]. eapply Heof; eassumption.
      * intros [= <-] _. right. cbn. auto.
  - destruct (Payload_feed_eof payload0) as [pl [e|]] eqn:E; [discriminate|].
    intros [= <-] _. left. cbn. split; [reflexivity|]. eapply Heof; eassumption.
Qed.

(** C3.  A parser built with no framing hints for a method other than PUT
    and POST (the path through [__init__] that takes no branch) has framing
    [PARSE_NONE] but is left with [done = False], and the sink is not told
    EOF; the two sibling paths that select [PARSE_NONE] (shown here for
    [method = 'PUT']) set [done] and signal EOF. *)
Theorem init_fallthrough_not_done {B : Builtins} {Zl : Zlib} sink code :
  (let self := fst (HttpPayloadParser_init sink None false None code
                      (Some (lit "GET")) false true) in
   _type self = PARSE_NONE /\ done self = false /\ payload self = Sink sink) /\
  (let self := fst (HttpPayloadParser_init sink None false None code
                      (Some (lit "PUT")) false true) in
   _type self = PARSE_NONE /\ done self = true /\
   payload self = Sink (sink ++ [feed_eof_call])).
Proof. split; cbn; auto. Qed.

Section ChunkSizeErrors.
Context {B : Builtins} {Zl : Zlib}.

Lemma read_chunk_size_bad ln r self :
  _chunk self = PARSE_CHUNKED_SIZE ->
  index ln SEP = None -> int16 (size_field ln) = None ->
  read_chunk_size (ln ++ SEP ++ r) self =
  call_payload_ctl
    (fun pl => Payload_set_exception pl (TransferEncodingError ln)) self
    (fun self => (self, Raise (TransferEncodingError ln))).
Proof.
  intros Hs Hln Hn. unfold read_chunk_size. rewrite Hs. cbn [ChunkState_eqb].
  rewrite find_line by assumption.
  destruct (Z.geb_spec (len ln) 0) as [_|Hneg]; [|pose proof (len_nonneg ln); lia].
  now rewrite size_line_field, Hn, slice_to_app.
Qed.

(** With the sink itself as payload, a complete size line that is not
    hexadecimal marks the sink with [TransferEncodingError] and raises it. *)
Lemma bad_chunk_size_sink chunk ln r self out :
  _type self = PARSE_CHUNKED -> _chunk self = PARSE_CHUNKED_SIZE ->
  payload self = Sink out ->
  _chunk_tail self ++ chunk = ln ++ SEP ++ r ->
  index ln SEP = None -> int16 (size_field ln) = None ->
  exists self',
    HttpPayloadParser_feed_data chunk self
    = Some (self', Raised (TransferEncodingError ln)) /\
    payload self' = Sink (out ++ [set_exception_call (TransferEncodingError ln)]).
Proof.
  intros Hty Hst Hpl Hx Hln Hn. rewrite (feed_data_chunked chunk self Hty), Hx.
  rewrite (chunked_loop_any _ (S (List.length (ln ++ SEP ++ r)))) by lia.
  rewrite chunked_loop_step by (destruct ln; discriminate).
  unfold chunked_pass. rewrite (read_chunk_size_bad ln r (set_chunk_tail self []) Hst Hln Hn).
  unfold call_payload_ctl. cbn [payload set_chunk_tail]. rewrite Hpl.
  cbn [Payload_set_exception and_then resume]. eexists. split; reflexivity.
Qed.

(** With a [DeflateBuffer] as payload the same input ends in
    [AttributeError]: the sink is not marked and [TransferEncodingError] is
    not raised. *)
Lemma bad_chunk_size_deflate chunk ln r self out sz z :
  _type self = PARSE_CHUNKED -> _chunk self = PARSE_CHUNKED_SIZE ->
  payload self = DeflateBuffer out sz z ->
  _chunk_tail self ++ chunk = ln ++ SEP ++ r ->
  index ln SEP = None -> int16 (size_field ln) = None ->
  exists self',
    HttpPayloadParser_feed_data chunk self
    = Some (self', Raised (AttributeError "DeflateBuffer" "set_exception")) /\
    payload self' = DeflateBuffer out sz z.
Proof.
  intros Hty Hst Hpl Hx Hln Hn. rewrite (feed_data_chunked chunk self Hty), Hx.
  rewrite (chunked_loop_any _ (S (List.length (ln ++ SEP ++ r)))) by lia.
  rewrite chunked_loop_step by (destruct ln; discriminate).
  unfold chunked_pass. rewrite (read_chunk_size_bad ln r (set_chunk_tail self []) Hst Hln Hn).
  unfold call_payload_ctl. cbn [payload set_chunk_tail]. rewrite Hpl.
  cbn [Payload_set_exception and_then resume]. eexists. split; reflexivity.
Qed.

End ChunkSizeErrors.

(** C9.  A chunked parser built with a content coding holds a
    [DeflateBuffer] as its payload.  Fed the complete size line [zz CRLF], it
    raises [AttributeError] (the wrapper has no [set_exception]), not
    [TransferEncodingError], and the sink receives no call at all.  The same
    line fed to a parser without content coding marks the sink and raises
    [TransferEncodingError]. *)
Theorem bad_chunk_size_with_compression {Zl : Zlib} :
  (let self := fst (HttpPayloadParser_init [] None true (Some "gzip"%string)
                      None None false true) in
   exists self',
     HttpPayloadParser_feed_data (b "zz" ++ SEP) self
     = Some (self', Raised (AttributeError "DeflateBuffer" "set_exception")) /\
     payload_out (payload self') = []) /\
  (let self := fst (HttpPayloadParser_init [] None true None
                      None None false true) in
   exists self',
     HttpPayloadParser_feed_data (b "zz" ++ SEP) self
     = Some (self', Raised (TransferEncodingError (b "zz"))) /\
     payload_out (payload self')
     = [set_exception_call (TransferEncodingError (b "zz"))]).
Proof.
  split; cbv zeta; eexists; split; reflexivity.
Qed.

(** ** [PayloadWriter] *)

Section WriterProperties.
Context {Zl : Zlib}.

Lemma concat_snoc (l : list bytes) (x : bytes) :
  List.concat (l ++ [x]) = List.concat l ++ x.
Proof. rewrite concat_app. cbn. now rewrite app_nil_r. Qed.

Lemma truthy_false {A} (l : list A) : truthy l = false -> l = [].
Proof. destruct l; [reflexivity | discriminate]. Qed.

Ltac wsimpl :=
  cbn [stream_available stream_calls wire _transport length chunked buffer_size
       output_length _buffer _compress _drain_waiter with_transport with_length
       with_chunked with_buffer_size with_output_length with_buffer
       with_compress with_drain_waiter transport_write stream_do fst snd] in *.

Lemma emitted_buffer_data chunk self :
  emitted (buffer_data chunk self) = emitted self ++ chunk.
Proof.
  unfold buffer_data, emitted. destruct (truthy chunk) eqn:E.
  - wsimpl. now rewrite concat_snoc, app_assoc.
  - apply truthy_false in E. subst. now rewrite app_nil_r.
Qed.

Lemma emitted__write chunk self :
  emitted (_write chunk self) = emitted self ++ chunk.
Proof.
  unfold _write, emitted. wsimpl. destruct (_transport self).
  - destruct (truthy (_buffer self)) eqn:E; wsimpl.
    + cbn [List.concat]. now rewrite !concat_snoc, !app_nil_r, app_assoc.
    + apply truthy_false in E. rewrite E. cbn [List.concat].
      now rewrite concat_snoc, !app_nil_r.
  - wsimpl. now rewrite concat_snoc, app_assoc.
Qed.

Lemma drain_frame self :
  emitted (fst (drain self)) = emitted self /\
  length (fst (drain self)) = length self /\
  chunked (fst (drain self)) = chunked self /\
  _compress (fst (drain self)) = _compress self.
Proof.
  unfold drain, emitted. destruct (_transport self).
  - destruct (truthy (_buffer self)) eqn:E; wsimpl; repeat split.
    cbn [List.concat]. now rewrite concat_snoc, app_nil_r.
  - destruct (truthy (_buffer self)); [|wsimpl; auto].
    destruct (_drain_waiter self) as [[|]|] eqn:W; wsimpl; rewrite ?W; wsimpl; auto.
Qed.

(** In chunked mode without compression, [write_eof] with a non-empty chunk
    emits the framed chunk followed by the terminator twice. *)
Lemma write_eof_chunked chunk self :
  chunked self = true -> _compress self = None -> chunk <> [] ->
  emitted (fst (write_eof chunk self)) =
  emitted self ++ hex (len chunk) ++ SEP ++ chunk ++ SEP ++ LAST_CHUNK ++ LAST_CHUNK.
Proof.
  intros Hc Hz Hne. unfold write_eof. rewrite Hz, Hc.
  destruct chunk as [|c chunk]; [congruence|]. cbn [truthy andb].
  match goal with |- context [buffer_data ?d self] => set (data := d) end.
  destruct (drain_frame (buffer_data data self)) as (He & _).
  destruct (drain (buffer_data data self)) as [w [|]]; cbn [fst] in *;
    [change (emitted (stream_do (with_transport w false) release_call true))
       with (emitted w)|];
    rewrite He, emitted_buffer_data; unfold data; now rewrite <- !app_assoc.
Qed.

(** C2.  On a chunked writer without compression, [write_eof(b'hello')]
    emits [5 CRLF hello CRLF] followed by the terminator [0 CRLF CRLF]
    twice, not once; with an empty chunk it emits the terminator once. *)
Theorem write_eof_chunked_terminators :
  let self := enable_chunking (PayloadWriter_init true []) in
  emitted (fst (write_eof (b "hello") self))
  = b "5" ++ SEP ++ b "hello" ++ SEP ++ LAST_CHUNK ++ LAST_CHUNK /\
  emitted (fst (write_eof [] self)) = LAST_CHUNK.
Proof. split; reflexivity. Qed.

Lemma _write_fields chunk self :
  length (_write chunk self) = length self /\
  chunked (_write chunk self) = chunked self.
Proof.
  unfold _write. wsimpl.
  destruct (_transport self); [destruct (truthy (_buffer self))|]; wsimpl; auto.
Qed.

(** One [write] under a length limit lets through at most the bytes the
    limit still allows, and lowers the limit by what it let through. *)
Lemma write_within_length chunk d self L :
  length self = Some L -> 0 <= L ->
  exists pieces,
    emitted (fst (write chunk d self))
    = emitted self ++ List.concat (map (framed (chunked self)) pieces) /\
    len (List.concat pieces) <= L /\
    length (fst (write chunk d self)) = Some (L - len (List.concat pieces)) /\
    chunked (fst (write chunk d self)) = chunked self.
Proof.
  intros HL Hpos.
  assert (Hnone : forall w : PayloadWriter, emitted w = emitted self ->
            length w = Some L -> chunked w = chunked self ->
            exists pieces,
              emitted w = emitted self
                          ++ List.concat (map (framed (chunked self)) pieces) /\
              len (List.concat pieces) <= L /\
              length w = Some (L - len (List.concat pieces)) /\
              chunked w = chunked self).
  { intros w He Hl Hc. exists []. cbn. rewrite app_nil_r, Z.sub_0_r. auto. }
  unfold write.
  set (st := match _compress self with Some z => _ | None => _ end).
  assert (Hst : exists w c go, st = (w, c, go) /\ emitted w = emitted self /\
                  length w = Some L /\ chunked w = chunked self).
  { unfold st. destruct (_compress self) as [z|].
    - destruct (zlib_compress z chunk) as [z' c]. eexists _, _, _.
      split; [reflexivity|]. auto.
    - eexists _, _, _. split; [reflexivity|]. auto. }
  destruct Hst as (w & c & go & -> & He & Hl & Hc).
  destruct go; cbn [negb fst]; [|now apply Hnone].
  rewrite Hl.
  assert (Hsend : forall (w1 : PayloadWriter) piece,
            emitted w1 = emitted self -> chunked w1 = chunked self ->
            length w1 = Some (L - len piece) -> len piece <= L ->
            let data := if chunked w1 then (hex (len piece) ++ SEP) ++ piece ++ SEP
                        else piece in
            let r := if truthy data
                     then let s := _write data w1 in
                          if (buffer_size s >? 64 * 1024) && d
                          then (with_buffer_size s 0, drain_coroutine)
                          else (s, no_wait)
                     else (w1, no_wait) in
            exists pieces,
              emitted (fst r) = emitted self
                                ++ List.concat (map (framed (chunked self)) pieces) /\
              len (List.concat pieces) <= L /\
              length (fst r) = Some (L - len (List.concat pieces)) /\
              chunked (fst r) = chunked self).
  { intros w1 piece He1 Hc1 Hl1 Hle. cbv zeta.
    assert (Hdata : (if chunked w1 then (hex (len piece) ++ SEP) ++ piece ++ SEP
                     else piece) = framed (chunked self) piece).
    { unfold framed. rewrite Hc1. destruct (chunked self); [|reflexivity].
      now rewrite <- app_assoc. }
    rewrite Hdata.
    destruct (truthy (framed (chunked self) piece)) eqn:T.
    - exists [piece]. cbn [map List.concat]. rewrite !app_nil_r.
      destruct ((buffer_size _ >? 64 * 1024) && d); cbn [fst];
        [change (emitted (with_buffer_size ?s 0)) with (emitted s)|];
        rewrite emitted__write, He1;
        destruct (_write_fields (framed (chunked self) piece) w1) as [F1 F2];
        wsimpl; rewrite ?F1, ?F2; repeat split; auto.
    - apply truthy_false in T.
      assert (piece = []) as ->.
      { unfold framed in T. destruct (chunked self); [|assumption].
        destruct (hex (len piece)); destruct piece; discriminate. }
      exists []. cbn. rewrite app_nil_r, Z.sub_0_r. cbn in Hl1.
      rewrite Z.sub_0_r in Hl1. auto. }
  destruct (Z.geb_spec L (len c)) as [Hge|Hlt].
  - cbn [negb]. apply (Hsend (with_length w (Some (L - len c))) c); auto.
  - destruct (truthy (slice_to c L)) eqn:T; cbn [negb fst].
    + assert (Hlen : len (slice_to c L) = L).
      { unfold slice_to, clamp, len. destruct (Z.ltb_spec L 0); [lia|].
        rewrite length_firstn. unfold len in Hlt. lia. }
      apply (Hsend (with_length w (Some 0)) (slice_to c L)); auto.
      * cbn. f_equal. lia.
      * lia.
    + exists []. cbn. rewrite app_nil_r, Z.sub_0_r.
      apply truthy_false in T.
      assert (L = 0).
      { unfold slice_to, clamp in T. destruct (Z.ltb_spec L 0); [lia|].
        destruct c as [|x c]; [unfold len in Hlt; simpl in Hlt; lia|].
        destruct (Z.to_nat L) eqn:E; [lia | discriminate]. }
      subst L. auto.
Qed.

Lemma run_op_within_length o self L :
  length self = Some L -> 0 <= L ->
  exists pieces,
    emitted (run_op o self)
    = emitted self ++ List.concat (map (framed (chunked self)) pieces) /\
    len (List.concat pieces) <= L /\
    length (run_op o self) = Some (L - len (List.concat pieces)) /\
    chunked (run_op o self) = chunked self.
Proof.
  intros HL Hpos. destruct o as [chunk d await|]; cbn [run_op].
  - destruct (write_within_length chunk d self L HL Hpos)
      as (pieces & He & Hle & Hl & Hc).
    exists pieces. destruct (write chunk d self) as [w [|]]; cbn [fst] in *; auto.
    destruct await; auto.
    destruct (drain_frame w) as (He' & Hl' & Hc' & _).
    rewrite He', Hl', Hc'. auto.
  - destruct (drain_frame self) as (He' & Hl' & Hc' & _).
    exists []. cbn. rewrite app_nil_r, Z.sub_0_r, He', Hl', Hc'. auto.
Qed.

(** C6 (amended).  On a writer whose [length] is [L >= 0], whatever
    sequence of [write] calls (awaited or not) and [drain]s follows, the
    payload bytes that leave the writer, each piece framed when chunking is
    on, total at most [L]; the rest is dropped. *)
Theorem writes_within_length ops : forall self L,
  length self = Some L -> 0 <= L ->
  exists pieces,
    emitted (run_ops ops self)
    = emitted self ++ List.concat (map (framed (chunked self)) pieces) /\
    len (List.concat pieces) <= L.
Proof.
  induction ops as [|o ops IH]; intros self L HL Hpos.
  - exists []. cbn. now rewrite app_nil_r.
  - cbn [run_ops fold_left].
    destruct (run_op_within_length o self L HL Hpos) as (p1 & He & Hle & Hl & Hc).
    destruct (IH (run_op o self) (L - len (List.concat p1)) Hl) as (p2 & He2 & Hle2).
    { pose proof (len_nonneg (List.concat p1)). lia. }
    exists (p1 ++ p2). unfold run_ops in He2. rewrite He2, He, Hc.
    rewrite map_app, !concat_app, len_app, <- app_assoc. split; [reflexivity | lia].
Qed.

(** C7.  When a drain waiter is pending, [set_transport] attaches the
    transport and flushes the buffer, then raises [AttributeError] on the
    read of [_drain_maiter]; the waiter is left as it was, so the parked
    [drain] is not resumed. *)
Theorem set_transport_pending_waiter self f :
  _drain_waiter self = Some f ->
  exists self',
    set_transport self
    = (self', Raised (AttributeError "PayloadWriter" "_drain_maiter")) /\
    _drain_waiter self' = Some f.
Proof.
  intros H. unfold set_transport.
  destruct (truthy _); cbn [_drain_waiter with_buffer transport_write with_transport];
    rewrite H; eexists; split; try reflexivity; cbn; assumption.
Qed.

End WriterProperties.

(** Scenario S4: with [length = 3], [write(b'hello')] emits [hel] and a
    later [write(b'more')] nothing. *)
Lemma writes_within_length_witness :
  let self := with_length (PayloadWriter_init true []) (Some 3) in
  let ops := [op_write (b "hello") true true; op_write (b "more") true true] in
  emitted (run_ops ops self) = b "hel" /\
  exists pieces,
    emitted (run_ops ops self)
    = emitted self ++ List.concat (map (framed (chunked self)) pieces) /\
    len (List.concat pieces) <= 3.
Proof.
  cbv zeta. split; [reflexivity|].
  apply (writes_within_length _ _ 3); [reflexivity | lia].
Defined.

(** C6 as stated fails for [write_eof]: with [length = 3],
    [write_eof(b'hello')] emits all five bytes. *)
Lemma write_eof_ignores_length :
  let self := with_length (PayloadWriter_init true []) (Some 3) in
  let self' := fst (write_eof (b "hello") self) in
  emitted self' = b "hello" /\ ~ len (emitted self') <= 3.
Proof. cbv zeta. split; [reflexivity|]. cbn. lia. Qed.

(** A writer created while the stream is busy buffers [x]; its [drain]
    parks on a fresh waiter, and the transport then arrives. *)
Lemma set_transport_pending_waiter_witness :
  let self := fst (drain (buffer_data (b "x") (PayloadWriter_init false []))) in
  _drain_waiter self = Some Pending /\
  exists self',
    set_transport self
    = (self', Raised (AttributeError "PayloadWriter" "_drain_maiter")) /\
    _drain_waiter self' = Some Pending.
Proof.
  cbv zeta. split; [reflexivity|].
  apply set_transport_pending_waiter. reflexivity.
Defined.

(** ** [HttpMessage] *)

Section MessageProperties.
Context {B : Builtins} {Zl : Zlib}.

Lemma pystr_eqb_eq x y : pystr_eqb x y = true <-> x = y.
Proof.
  unfold pystr_eqb. destruct (list_eq_dec N.eq_dec x y); split; congruence.
Qed.

Lemma pystr_eqb_neq x y : pystr_eqb x y = false <-> x <> y.
Proof.
  unfold pystr_eqb. destruct (list_eq_dec N.eq_dec x y); split; congruence.
Qed.

(** Entries under [Connection] are untouched by an update under another
    name. *)
Lemma connection_entries_add d k v :
  pystr_eqb k hdrs_CONNECTION = false ->
  connection_entries (md_add d k v) = connection_entries d.
Proof.
  intros H. unfold connection_entries, md_add. rewrite filter_app. cbn.
  rewrite H. apply app_nil_r.
Qed.

Lemma connection_entries_set d k v :
  pystr_eqb k hdrs_CONNECTION = false ->
  connection_entries (md_set d k v) = connection_entries d.
Proof.
  intros H. unfold connection_entries, md_set. rewrite filter_app. cbn.
  rewrite H, app_nil_r. induction d as [|[k' v'] d IH]; [reflexivity|]. cbn.
  destruct (pystr_eqb k' k) eqn:E1; cbn.
  - apply pystr_eqb_eq in E1. subst k'. now rewrite H.
  - destruct (pystr_eqb k' hdrs_CONNECTION); [f_equal|]; exact IH.
Qed.

(** The [keepalive] flag after [add_header]: only a [Connection] header
    can change it, and the version is never touched. *)
Lemma add_header_keepalive name value self self' :
  add_header name value self = Returned self' ->
  _version self' = _version self /\
  keepalive self' =
    if pystr_eqb (istr name) hdrs_CONNECTION then
      let val := lower (str_strip value) in
      if contains val (lit "upgrade") then keepalive self
      else if contains val (lit "close") then Some false
      else if contains val (lit "keep-alive") then Some true
      else keepalive self
    else keepalive self.
Proof.
  unfold add_header. destruct (headers_sent self); [discriminate|].
  destruct (negb _); [discriminate|].
  destruct (pystr_eqb (istr name) hdrs_CONTENT_LENGTH);
    [destruct (int10 _); [|discriminate]|];
    destruct (pystr_eqb (istr name) hdrs_TRANSFER_ENCODING);
    destruct (pystr_eqb (istr name) hdrs_CONNECTION);
    cbv zeta;
    try (destruct (contains (lower (str_strip value)) (lit "upgrade"));
         [|destruct (contains (lower (str_strip value)) (lit "close"));
           [|destruct (contains (lower (str_strip value)) (lit "keep-alive"))]]);
    try (destruct (pystr_eqb (istr name) hdrs_UPGRADE);
         [destruct (contains _ _)|]);
    cbn; intros [= <-]; cbn; auto.
Qed.

(** C1 (amended).  For a message whose version is below HTTP/1.0,
    [keep_alive()] after any sequence of [add_header] calls is decided by
    the [Connection] headers alone.  A [Connection] header whose stripped,
    lower-cased value contains [upgrade] leaves the explicit [keepalive]
    flag as it is, one that otherwise contains [close] sets it to false,
    one that otherwise contains [keep-alive] sets it to true, and a header
    of any other name leaves it alone; [keep_alive()] returns the flag as
    last set, and false while it is unset.  So, starting from an unset
    flag, [keep_alive()] is true only if a [Connection] header with
    [keep-alive] and neither [close] nor [upgrade] was added, and it is
    false after [force_close()]. *)
Theorem keep_alive_below_http10 self hs self' :
  version_ltb (version self) HttpVersion10 = true ->
  add_headers hs self = Returned self' ->
  keepalive self'
  = fold_left
      (fun flag h =>
         if pystr_eqb (istr (fst h)) hdrs_CONNECTION then
           let val := lower (str_strip (snd h)) in
           if contains val (lit "upgrade") then flag
           else if contains val (lit "close") then Some false
           else if contains val (lit "keep-alive") then Some true
           else flag
         else flag)
      hs (keepalive self) /\
  keep_alive self' = match keepalive self' with None => false | Some k => k end /\
  (keepalive self = None -> keep_alive self' = true ->
   exists name value,
     In (name, value) hs /\
     pystr_eqb (istr name) hdrs_CONNECTION = true /\
     contains (lower (str_strip value)) (lit "keep-alive") = true /\
     contains (lower (str_strip value)) (lit "close") = false /\
     contains (lower (str_strip value)) (lit "upgrade") = false) /\
  keep_alive (force_close self') = false.
Proof.
  set (step := fun (flag : option bool) (h : pystr * pystr) =>
         if pystr_eqb (istr (fst h)) hdrs_CONNECTION then
           let val := lower (str_strip (snd h)) in
           if contains val (lit "upgrade") then flag
           else if contains val (lit "close") then Some false
           else if contains val (lit "keep-alive") then Some true
           else flag
         else flag).
  intros Hv Hadd.
  assert (Hrun : forall hs self self',
             add_headers hs self = Returned self' ->
             _version self' = _version self /\
             keepalive self' = fold_left step hs (keepalive self)).
  { clear. intros hs. induction hs as [|[name value] hs IH]; intros self self'.
    - cbn. intros [= <-]. auto.
    - cbn [add_headers fold_left].
      destruct (add_header name value self) as [m|e] eqn:E; [|discriminate].
      intros H. apply IH in H as [H1 H2].
      apply add_header_keepalive in E as [E1 E2].
      split; [congruence|]. rewrite H2, E2. reflexivity. }
  assert (Honly : forall hs flag,
             fold_left step hs flag = Some true ->
             flag = Some true \/
             exists name value,
               In (name, value) hs /\
               pystr_eqb (istr name) hdrs_CONNECTION = true /\
               contains (lower (str_strip value)) (lit "keep-alive") = true /\
               contains (lower (str_strip value)) (lit "close") = false /\
               contains (lower (str_strip value)) (lit "upgrade") = false).
  { clear. intros hs. induction hs as [|[name value] hs IH]; intros flag.
    - cbn. auto.
    - cbn [fold_left]. intros H. apply IH in H as [H|(n & v & Hin & H)].
      + unfold step in H. cbn [fst snd] in H. cbv zeta in H.
        destruct (pystr_eqb (istr name) hdrs_CONNECTION) eqn:EC; [|now left].
        destruct (contains _ (lit "upgrade")) eqn:EU; [now left|].
        destruct (contains _ (lit "close")) eqn:ECl; [discriminate|].
        destruct (contains _ (lit "keep-alive")) eqn:EK; [|now left].
        right. exists name, value. split; [now left|]. auto.
      + right. exists n, v. split; [now right | exact H]. }
  destruct (Hrun hs self self' Hadd) as [Hver Hflag].
  assert (Hka : keep_alive self'
                = match keepalive self' with None => false | Some k => k end).
  { unfold keep_alive, version. rewrite Hver. unfold version in Hv.
    now rewrite Hv. }
  split; [exact Hflag|]. split; [exact Hka|]. split; [|reflexivity].
  intros Hnone Htrue. rewrite Hka, Hflag, Hnone in Htrue.
  destruct (fold_left step hs None) as [[|]|] eqn:Ef; try discriminate.
  destruct (Honly hs None Ef) as [H|H]; [discriminate | exact H].
Qed.

(** C10.  Before [send_headers], [add_header('Connection', v)] returns
    normally and changes nothing but the [upgrade] / [keepalive] flags: the
    header map, the writer (with [length]) and the other fields stay as they
    were.  Moreover no [add_header] call, whatever the name, changes the
    entries of the header map under [Connection]; the only assignment to
    that key is the one in [_add_default_headers]. *)
Theorem add_header_connection_frame self v :
  headers_sent self = false ->
  (exists self',
      add_header (lit "Connection") v self = Returned self' /\
      headers self' = headers self /\ writer self' = writer self /\
      kind self' = kind self /\ _version self' = _version self /\
      closing self' = closing self /\ headers_sent self' = false /\
      websocket self' = websocket self /\
      has_chunked_hdr self' = has_chunked_hdr self) /\
  (forall name value self',
      add_header name value self = Returned self' ->
      connection_entries (headers self') = connection_entries (headers self)).
Proof.
  intros Hs. split.
  - unfold add_header, hdrs_CONTENT_LENGTH, hdrs_TRANSFER_ENCODING, hdrs_CONNECTION.
    rewrite Hs. cbv zeta.
    change (negb (forallb ASCIISET (lit "Connection"))) with false. cbv iota.
    rewrite !istr_ascii by reflexivity.
    change (pystr_eqb (Ascii7.title false (lit "Connection"))
                      (Ascii7.title false (lit "Content-Length"))) with false.
    change (pystr_eqb (Ascii7.title false (lit "Connection"))
                      (Ascii7.title false (lit "Transfer-Encoding"))) with false.
    change (pystr_eqb (Ascii7.title false (lit "Connection"))
                      (Ascii7.title false (lit "Connection"))) with true.
    cbv iota.
    destruct (contains _ (lit "upgrade")); [|destruct (contains _ (lit "close"));
      [|destruct (contains _ (lit "keep-alive"))]];
      eexists; split; try reflexivity; cbn; auto 10.
  - intros name value self'. unfold add_header. rewrite Hs.
    destruct (negb _); [discriminate|].
    destruct (pystr_eqb (istr name) hdrs_CONTENT_LENGTH);
      [destruct (int10 _); [|discriminate]|];
      destruct (pystr_eqb (istr name) hdrs_TRANSFER_ENCODING);
      (destruct (pystr_eqb (istr name) hdrs_CONNECTION) eqn:EC;
       [repeat destruct (contains _ _); intros [= <-]; reflexivity|]);
      (destruct (pystr_eqb (istr name) hdrs_UPGRADE);
       [destruct (contains _ _)|]); cbn; intros [= <-]; cbn;
      (apply connection_entries_set || apply connection_entries_add); exact EC.
Qed.

End MessageProperties.

(** An HTTP/0.9 response to which [Server], then [Connection: Keep-Alive],
    then [Connection: close] are added. *)
Lemma keep_alive_below_http10_witness :
  let self := Response_init true [] 200 (0, 9) false (lit "OK") in
  let hs := [(lit "Server", lit "x"); (lit "Connection", lit " Keep-Alive ");
             (lit "Connection", lit "close")] in
  exists self',
    version_ltb (version self) HttpVersion10 = true /\
    add_headers hs self = Returned self' /\
    keepalive self' = Some false /\
    keep_alive self' = false /\
    keep_alive (force_close self') = false.
Proof.
  cbv zeta.
  pose (self := Response_init true [] 200 (0, 9) false (lit "OK")).
  pose (hs := [(lit "Server", lit "x"); (lit "Connection", lit " Keep-Alive ");
               (lit "Connection", lit "close")]).
  pose (self' := match add_headers hs self with
                 | Returned m => m
                 | Raised _ => self
                 end).
  assert (E : add_headers hs self = Returned self') by reflexivity.
  destruct (keep_alive_below_http10 self hs self' eq_refl E)
    as (H1 & H2 & _ & H4).
  exists self'. split; [reflexivity|]. split; [exact E|].
  split; [rewrite H1; reflexivity|]. split; [rewrite H2, H1; reflexivity | exact H4].
Defined.

(** C1 as stated fails: on an HTTP/0.9 message, [Connection: keep-alive]
    sets the explicit flag and [keep_alive()] returns true. *)
Lemma keep_alive_http09_connection_header :
  let self := Response_init true [] 200 (0, 9) false (lit "OK") in
  version_ltb (version self) HttpVersion10 = true /\
  exists self',
    add_header (lit "Connection") (lit "keep-alive") self = Returned self' /\
    keep_alive self' = true.
Proof.
  cbv zeta. split; [reflexivity|]. eexists. split; reflexivity.
Qed.

(** [Connection: close] on a fresh HTTP/1.1 response. *)
Lemma add_header_connection_frame_witness :
  let self := Response_init true [] 200 HttpVersion11 false (lit "OK") in
  headers_sent self = false /\
  exists self',
    add_header (lit "Connection") (lit "close") self = Returned self' /\
    headers self' = headers self /\ keepalive self' = Some false.
Proof.
  cbv zeta. split; [reflexivity|].
  destruct (add_header_connection_frame
              (Response_init true [] 200 HttpVersion11 false (lit "OK"))
              (lit "close") eq_refl) as [(self' & E & H & _) _].
  exists self'. split; [exact E|]. split; [exact H|].
  cbv in E. injection E as <-. reflexivity.
Defined.

(** ** [HttpParser] *)

(** C4.  On the header lines of scenario S6, a header, one tab-indented
    continuation line and the empty terminator, [parse_headers] does not
    return: the test [line[0] in (32, 9)] at the end of the continuation
    loop indexes the empty terminator and raises IndexError. *)
Theorem parse_headers_continuation_at_end {B : Builtins} :
  parse_headers HttpParser_default
    [b "GET / HTTP/1.1"; b "X-Multi: line1"; x09 :: b "line2"; []]
  = Raised IndexError.
Proof. reflexivity. Qed.

(** When another header follows the continuation line, the value is joined
    as the specification says. *)
Lemma parse_headers_continuation_then_header :
  exists h,
    parse_headers HttpParser_default
      [b "GET / HTTP/1.1"; b "X-Multi: line1"; x09 :: b "line2"; b "Host: x"; []]
    = Returned h /\
    ph_raw_headers h
    = [(b "X-MULTI", b "line1" ++ SEP ++ x09 :: b "line2"); (b "HOST", b "x")].
Proof. eexists. split; reflexivity. Qed.

Section StartLineProperties.
Context {B : Builtins}.

Lemma span_forallb p s : forallb p (fst (span p s)) = true.
Proof.
  induction s as [|c s IH]; [reflexivity|]. cbn [span].
  destruct (p c) eqn:E; [|reflexivity].
  destruct (span p s) as [w r]. cbn in *. now rewrite E, IH.
Qed.

Lemma forallb_sub {A} (p : A -> bool) (l l' : list A) :
  (forall x, In x l' -> In x l) -> forallb p l = true -> forallb p l' = true.
Proof.
  intros Hsub H. apply forallb_forall. intros x Hx.
  apply Hsub in Hx. revert x Hx. now apply forallb_forall.
Qed.

(** Both groups of a [VERSRE] match are runs of digits. *)
Lemma VERSRE_match_digits s g1 g2 :
  VERSRE_match s = Some (g1, g2) ->
  forallb isdigit g1 = true /\ forallb isdigit g2 = true.
Proof.
  unfold VERSRE_match. destruct (str_startswith s (lit "HTTP/")); [|discriminate].
  pose proof (span_forallb isdigit (skipn 5 s)) as Hrun.
  destruct (span isdigit (skipn 5 s)) as [run after]. cbn [fst] in Hrun.
  assert (Hback : match rev run with
                  | last :: _ :: g :: g' => Some (rev (g :: g'), [last])
                  | _ => None
                  end = Some (g1, g2) ->
                  forallb isdigit g1 = true /\ forallb isdigit g2 = true).
  { destruct (rev run) as [|last [|x [|g g']]] eqn:E; try discriminate.
    intros [= <- <-]. split; apply (forallb_sub isdigit run); try assumption.
    - intros y Hy. change (In y (rev (g :: g'))) in Hy.
      rewrite <- in_rev in Hy. rewrite in_rev, E.
      right. right. exact Hy.
    - intros y [<-|[]]. rewrite in_rev, E. now left. }
  destruct run as [|r0 run']; [exact Hback|].
  destruct after as [|dot [|d after']]; try exact Hback.
  destruct (negb (dot =? 10)%N && isdigit d); [|exact Hback].
  intros [= <- <-]. split; [assumption | exact (span_forallb isdigit (d :: after'))].
Qed.

Lemma str_startswith_skipn s p :
  str_startswith s p = true -> s = p ++ skipn (List.length p) s.
Proof.
  revert s. induction p as [|a p IH]; intros s; [reflexivity|].
  destruct s as [|c s]; [discriminate|]. cbn.
  intros H. apply andb_true_iff in H as [H1 H2].
  apply N.eqb_eq in H1. subst. f_equal. now apply IH.
Qed.

Lemma str_split_once_app sep s l r :
  str_split_once sep s = Some (l, r) -> s = l ++ sep :: r.
Proof.
  revert l. induction s as [|c s IH]; intros l; [discriminate|]. cbn.
  destruct (N.eqb_spec c sep) as [->|_].
  - now intros [= <- <-].
  - destruct (str_split_once sep s) as [[l' r']|]; [|discriminate].
    intros [= <- <-]. cbn. f_equal. now apply IH.
Qed.

(** C8 (amended).  A version returned by [HttpResponseParser.parse_message]
    has two non-negative components; a version returned by
    [HttpRequestParser.parse_message] is [(int(n1), int(n2))] where the
    third field of the request line reads [HTTP/n1.n2], [n1] being free of
    dots.  Neither parser bounds the components by 10. *)
Theorem parse_message_version self lines :
  (forall m, HttpResponseParser_parse_message self lines = Returned m ->
             0 <= fst (resp_version m) /\ 0 <= snd (resp_version m)) /\
  (forall m, HttpRequestParser_parse_message self lines = Returned m ->
             exists line0 rest method path n1 n2,
               lines = line0 :: rest /\
               split_ws 2 (decode line0)
               = [method; path; lit "HTTP/" ++ n1 ++ 46%N :: n2] /\
               ~ In 46%N n1 /\
               int10 n1 = Some (fst (req_version m)) /\
               int10 n2 = Some (snd (req_version m))).
Proof.
  split; intros m.
  - unfold HttpResponseParser_parse_message.
    destruct lines as [|line0 rest]; [discriminate|].
    destruct (split_ws 1 (decode line0)) as [|version [|status [|x l]]];
      try discriminate.
    destruct (match split_ws 1 status with
              | [status'; reason] => (status', reason)
              | _ => (status, [])
              end) as [status' reason].
    destruct (VERSRE_match version) as [[g1 g2]|] eqn:EV; [|discriminate].
    apply VERSRE_match_digits in EV as [D1 D2].
    destruct (int10 g1) as [v1|] eqn:E1; [|discriminate].
    destruct (int10 g2) as [v2|] eqn:E2; [|discriminate].
    destruct (int10 status') as [code|]; [|discriminate].
    destruct ((code <? 100) || (code >? 999)); [discriminate|].
    destruct (parse_headers self (line0 :: rest)) as [h|e]; [|discriminate].
    intros [= <-]. cbn.
    split; [exact (int10_digits g1 v1 D1 E1) | exact (int10_digits g2 v2 D2 E2)].
  - unfold HttpRequestParser_parse_message.
    destruct lines as [|line0 rest]; [discriminate|].
    destruct (split_ws 2 (decode line0)) as [|method [|path [|version [|x l]]]] eqn:ES;
      try discriminate.
    destruct (negb (METHRE_match (upper method))); [discriminate|].
    destruct (request_version version) as [v|e] eqn:EV; [|discriminate].
    destruct (parse_headers self (line0 :: rest)) as [h|e]; [|discriminate].
    intros [= <-]. cbn [req_version].
    unfold request_version in EV.
    destruct (str_startswith version (lit "HTTP/")) eqn:EP; [|discriminate].
    destruct (str_split_once 46 (skipn 5 version)) as [[n1 n2]|] eqn:EN;
      [|discriminate].
    destruct (int10 n1) as [v1|] eqn:E1; [|discriminate].
    destruct (int10 n2) as [v2|] eqn:E2; [|discriminate].
    injection EV as <-.
    exists line0, rest, method, path, n1, n2. repeat split; try assumption.
    + rewrite ES. do 3 f_equal.
      rewrite (str_startswith_skipn _ _ EP). f_equal.
      now apply str_split_once_app.
    + clear - EN. revert n1 EN. induction (skipn 5 version) as [|c s IH];
        intros n1; [discriminate|]. cbn.
      destruct (N.eqb_spec c 46) as [->|Hc].
      * intros [= <- <-]. intros [].
      * destruct (str_split_once 46 s) as [[l' r']|]; [|discriminate].
        intros [= <- <-]. intros [H|H]; [congruence|]. now apply (IH l').
Qed.

End StartLineProperties.

(** Scenarios S1 and S2. *)
Lemma parse_message_version_witness :
  (exists m,
      HttpResponseParser_parse_message HttpParser_default
        [b "HTTP/1.1 200 OK"; b "Transfer-Encoding: chunked";
         b "Content-Encoding: gzip"; []] = Returned m /\
      resp_version m = (1, 1) /\
      0 <= fst (resp_version m) /\ 0 <= snd (resp_version m)) /\
  (exists m,
      HttpRequestParser_parse_message HttpParser_default
        [b "GET /foo HTTP/1.1"; b "Host: x"; []] = Returned m /\
      req_version m = (1, 1) /\
      exists line0 rest method path n1 n2,
        [b "GET /foo HTTP/1.1"; b "Host: x"; []] = line0 :: rest /\
        split_ws 2 (decode line0)
        = [method; path; lit "HTTP/" ++ n1 ++ 46%N :: n2] /\
        ~ In 46%N n1 /\
        int10 n1 = Some (fst (req_version m)) /\
        int10 n2 = Some (snd (req_version m))).
Proof.
  pose proof (parse_message_version HttpParser_default
                [b "HTTP/1.1 200 OK"; b "Transfer-Encoding: chunked";
                 b "Content-Encoding: gzip"; []]) as [HR _].
  pose proof (parse_message_version HttpParser_default
                [b "GET /foo HTTP/1.1"; b "Host: x"; []]) as [_ HQ].
  split; eexists; (split; [reflexivity|]); (split; [reflexivity|]).
  - apply HR. reflexivity.
  - apply HQ. reflexivity.
Defined.

(** C8 as stated fails: both parsers accept [HTTP/12.34] and return the
    version [(12, 34)]. *)
Lemma parse_message_version_unbounded :
  (exists m,
      HttpRequestParser_parse_message HttpParser_default
        [b "GET / HTTP/12.34"; []] = Returned m /\
      req_version m = (12, 34) /\
      ~ (fst (req_version m) < 10 /\ snd (req_version m) < 10)) /\
  (exists m,
      HttpResponseParser_parse_message HttpParser_default
        [b "HTTP/12.34 200 OK"; []] = Returned m /\
      resp_version m = (12, 34) /\
      ~ (fst (resp_version m) < 10 /\ snd (resp_version m) < 10)).
Proof.
  split; eexists; (split; [reflexivity|]); (split; [reflexivity|]); cbn; lia.
Qed.

(** * Further properties *)

(** ** Hexadecimal sizes *)

Lemma hex_digit_in d : In (hex_digit d) (b "0123456789abcdef").
Proof.
  unfold hex_digit.
  destruct (Nat.lt_ge_cases (N.to_nat d) (List.length (b "0123456789abcdef")))
    as [H|H].
  - now apply nth_In.
  - rewrite nth_overflow by exact H. now left.
Qed.

Lemma hex_digits_in fuel : forall n,
  Forall (fun c => In c (b "0123456789abcdef")) (hex_digits fuel n).
Proof.
  induction fuel as [|fuel IH]; intros n; cbn [hex_digits]; [constructor|].
  destruct (n <? 16)%N.
  - constructor; [apply hex_digit_in | constructor].
  - apply Forall_app. split; [apply IH|].
    constructor; [apply hex_digit_in | constructor].
Qed.

Lemma index_absent_head (l sub : bytes) (a : byte) :
  Forall (fun c => c <> a) l -> index l (a :: sub) = None.
Proof.
  induction 1 as [|c l Hc _ IH]; [reflexivity|]. cbn [index startswith].
  destruct (Byte.eqb a c) eqn:E.
  - apply byte_eqb_eq in E. congruence.
  - cbn [andb]. now rewrite IH.
Qed.

(** A size printed with ['%x'] is one line without extension. *)
Lemma hex_line n : index (hex n) SEP = None /\ size_field (hex n) = hex n.
Proof.
  assert (H : forall a, ~ In a (b "0123456789abcdef") ->
                        Forall (fun c => c <> a) (hex n)).
  { intros a Ha. unfold hex.
    eapply Forall_impl; [|apply hex_digits_in]. cbv beta. intros c Hc ->. auto. }
  assert (Hno : forall a, In a [CR; x3b] -> ~ In a (b "0123456789abcdef")).
  { intros a [<-|[<-|[]]] Hin; cbn in Hin;
      repeat (destruct Hin as [Hin|Hin]; [discriminate|]); exact Hin. }
  split.
  - apply index_absent_head, H, Hno. now left.
  - unfold size_field, CHUNK_EXT. rewrite index_absent_head; [reflexivity|].
    apply H, Hno. right. now left.
Qed.

(** ** [HttpPayloadParser]: single calls *)

Section ParserCalls.
Context {B : Builtins} {Zl : Zlib}.

(** X1.  Fixed-length framing: a buffer that holds at least the
    [_length >= 0] bytes still expected completes the body.  The sink
    receives exactly those bytes and then EOF, [feed_data] returns
    [(True, rest)] with the bytes after them, and [_length] is zero. *)
Theorem feed_data_length_complete chunk self out :
  _type self = PARSE_LENGTH -> payload self = Sink out ->
  0 <= _length self <= len chunk ->
  HttpPayloadParser_feed_data chunk self
  = Some (set_payload (set_length self 0)
            (Sink (out ++ [feed_data_call (slice_to chunk (_length self))
                                          (_length self);
                           feed_eof_call])),
          Returned (true, Some (slice_from chunk (_length self)))).
Proof.
  intros Hty Hpl [H0 Hle]. destruct self as [pl L ty ch sz tl dn].
  cbn [_type payload _length] in *. subst ty pl.
  unfold HttpPayloadParser_feed_data, call_payload.
  cbn [_type _length set_length payload Payload_feed_data set_payload
       Payload_feed_eof].
  destruct (Z.geb_spec L (len chunk)) as [Hge|Hlt].
  - assert (L = len chunk) as -> by lia.
    rewrite Z.sub_diag. cbn [Z.eqb Payload_feed_eof payload set_payload].
    rewrite <- app_assoc. cbn [app].
    replace (slice_to chunk (len chunk)) with chunk
      by (rewrite <- (app_nil_r chunk) at 2; now rewrite slice_to_app).
    replace (slice_from chunk (len chunk)) with (@nil byte)
      by (rewrite <- (app_nil_r chunk) at 1; now rewrite slice_from_app).
    reflexivity.
  - rewrite <- app_assoc. reflexivity.
Qed.

(** A buffer shorter than what is expected is forwarded whole, and the
    parser goes on waiting for the rest. *)
Lemma feed_data_length_partial chunk self out :
  _type self = PARSE_LENGTH -> payload self = Sink out ->
  len chunk < _length self ->
  HttpPayloadParser_feed_data chunk self
  = Some (set_payload (set_length self (_length self - len chunk))
            (Sink (out ++ [feed_data_call chunk (len chunk)])),
          Returned (false, None)).
Proof.
  intros Hty Hpl Hlt. destruct self as [pl L ty ch sz tl dn].
  cbn [_type payload _length] in *. subst ty pl.
  unfold HttpPayloadParser_feed_data, call_payload.
  cbn [_type _length set_length payload Payload_feed_data set_payload].
  destruct (Z.geb_spec L (len chunk)) as [_|]; [|lia].
  destruct (Z.eqb_spec (L - len chunk) 0); [lia | reflexivity].
Qed.

End ParserCalls.

(** ** Chunked bodies as the writer frames them *)

Section ChunkedFrames.
Context {B : Builtins} {Zl : Zlib}.

Lemma frames_loop chunks : forall self out fuel extra,
  _type self = PARSE_CHUNKED -> _chunk self = PARSE_CHUNKED_SIZE ->
  payload self = Sink out ->
  Forall (fun c => c <> [] /\ int16 (hex (len c)) = Some (len c)) chunks ->
  int16 (hex 0) = Some 0 ->
  let stream := List.concat (map (framed true) chunks) ++ LAST_CHUNK ++ extra in
  (List.length stream <= fuel)%nat ->
  exists self',
    chunked_loop fuel stream self = Some (self', Returned (true, Some extra)) /\
    payload self' =
    Sink (out ++ map (fun c => feed_data_call c (len c)) chunks ++ [feed_eof_call]) /\
    _chunk_tail self' = _chunk_tail self.
Proof.
  induction chunks as [|c cs IH]; intros self out fuel extra Hty Hst Hpl Hall H0;
    cbv zeta; intros Hfuel.
  - cbn [map List.concat app] in *.
    destruct fuel as [|fuel]; [cbn in Hfuel; lia|].
    rewrite chunked_loop_step by discriminate.
    unfold chunked_pass.
    change LAST_CHUNK with (hex 0 ++ SEP ++ SEP).
    rewrite <- app_assoc, <- app_assoc.
    destruct (hex_line 0) as [Hl Hf].
    rewrite (read_chunk_size_line (hex 0) (SEP ++ extra) 0 self Hst Hl)
      by (now rewrite Hf).
    cbn [Z.eqb and_then].
    unfold read_chunk at 1. cbn [_chunk set_chunk ChunkState_eqb and_then].
    unfold toss_crlf at 1. cbn [_chunk set_chunk ChunkState_eqb and_then].
    pose proof (read_trailers_done [] extra
                  (set_chunk self PARSE_CHUNKED_TRAILERS) out eq_refl Hpl eq_refl)
      as HT.
    change ([] ++ SEP ++ extra) with (SEP ++ extra) in HT. rewrite HT.
    cbn [resume]. eexists. split; [reflexivity|]. split; reflexivity.
  - inversion Hall as [|c' cs' [Hne Hc] Hall']. subst c' cs'.
    cbn [map List.concat] in *.
    destruct fuel as [|fuel];
      [rewrite !length_app in Hfuel; destruct c; [congruence | cbn in Hfuel; lia]|].
    assert (Hstream : (framed true c
                       ++ List.concat (map (framed true) cs)) ++ LAST_CHUNK ++ extra
                      = hex (len c) ++ SEP ++ c ++ SEP
                        ++ List.concat (map (framed true) cs) ++ LAST_CHUNK ++ extra).
    { unfold framed. now rewrite <- !app_assoc. }
    rewrite Hstream in *.
    set (rest := List.concat (map (framed true) cs) ++ LAST_CHUNK ++ extra) in *.
    rewrite chunked_loop_step by (destruct (hex (len c)); discriminate).
    unfold chunked_pass.
    destruct (hex_line (len c)) as [Hl Hf].
    rewrite (read_chunk_size_line (hex (len c)) (c ++ SEP ++ rest) (len c) self Hst Hl)
      by (now rewrite Hf).
    assert (Hpos : 0 < len c) by (destruct c; [congruence | unfold len; cbn; lia]).
    destruct (Z.eqb_spec (len c) 0) as [E|_]; [lia|].
    cbn [and_then].
    rewrite (read_chunk_full c (SEP ++ rest) _ out) by (reflexivity || assumption || discriminate).
    cbn [and_then]. rewrite toss_crlf_ok by reflexivity. cbn [and_then].
    unfold read_trailers. cbn [_chunk set_chunk ChunkState_eqb resume].
    edestruct (IH (set_chunk
                     (set_chunk
                        (set_payload
                           (set_chunk_size
                              (set_chunk_size (set_chunk self PARSE_CHUNKED_CHUNK) (len c)) 0)
                           (Sink (out ++ [feed_data_call c (len c)])))
                        PARSE_CHUNKED_CHUNK_EOF) PARSE_CHUNKED_SIZE)
                  (out ++ [feed_data_call c (len c)]) fuel extra)
      as (s' & E & Hp & Htl'); try reflexivity; try assumption.
    { fold rest. rewrite !length_app in Hfuel.
      change (List.length SEP) with 2%nat in Hfuel. lia. }
    fold rest in E. exists s'. split; [exact E|]. split; [|exact Htl'].
    rewrite Hp. cbn [map]. now rewrite <- app_assoc.
Qed.

(** X2.  A chunked body in the writer's own framing, each non-empty chunk
    as [hex-size CRLF data CRLF] and then [0 CRLF CRLF], is decoded by one
    [feed_data] call of a chunked parser at the start of a body: the sink
    receives the chunks one call each and then EOF, and whatever follows
    the terminator comes back as the leftover of [(True, leftover)].  The
    sizes must read back under [int(x, 16)]. *)
Theorem feed_data_decodes_frames chunks extra self out :
  _type self = PARSE_CHUNKED -> _chunk self = PARSE_CHUNKED_SIZE ->
  _chunk_tail self = [] -> payload self = Sink out ->
  Forall (fun c => c <> [] /\ int16 (hex (len c)) = Some (len c)) chunks ->
  int16 (hex 0) = Some 0 ->
  exists self',
    HttpPayloadParser_feed_data
      (List.concat (map (framed true) chunks) ++ LAST_CHUNK ++ extra) self
    = Some (self', Returned (true, Some extra)) /\
    payload self' =
    Sink (out ++ map (fun c => feed_data_call c (len c)) chunks ++ [feed_eof_call]).
Proof.
  intros Hty Hst Htl Hpl Hall H0.
  rewrite (feed_data_chunked _ self Hty), Htl. cbn [app].
  assert (E : set_chunk_tail self [] = self)
    by (destruct self; cbn in Htl; now subst).
  rewrite E.
  destruct (frames_loop chunks self out _ extra Hty Hst Hpl Hall H0 (le_n _))
    as (s' & E' & Hp & _).
  now exists s'.
Qed.

End ChunkedFrames.

(** Three chunks followed by the first bytes of the next message. *)
Lemma feed_data_decodes_frames_witness :
  let chunks := [b "hello"; b ", "; b "world"] in
  let self := fst (HttpPayloadParser_init [] None true None None None false true) in
  exists self',
    HttpPayloadParser_feed_data
      (List.concat (map (framed true) chunks) ++ LAST_CHUNK ++ b "HTTP/1.1") self
    = Some (self', Returned (true, Some (b "HTTP/1.1"))) /\
    payload self' =
    Sink ([] ++ map (fun c => feed_data_call c (len c)) chunks ++ [feed_eof_call]).
Proof.
  cbv zeta. apply feed_data_decodes_frames; try reflexivity.
  repeat constructor; discriminate.
Defined.

Section ParserEof.
Context {B : Builtins} {Zl : Zlib}.

Lemma feed_buffers_until_eof_calls buffers : forall self out,
  _type self = PARSE_UNTIL_EOF -> payload self = Sink out ->
  exists self',
    feed_buffers buffers self = Some (self', Returned (false, None)) /\
    _type self' = PARSE_UNTIL_EOF /\
    payload self' = Sink (out ++ map (fun c => feed_data_call c (len c)) buffers).
Proof.
  induction buffers as [|c buffers IH]; intros self out Hty Hpl.
  - exists self. cbn. rewrite app_nil_r. auto.
  - destruct self as [pl L ty ch sz tl dn]. cbn [_type payload] in *.
    subst ty pl. cbn [feed_buffers].
    unfold HttpPayloadParser_feed_data, call_payload.
    cbn [_type payload Payload_feed_data set_payload].
    edestruct (IH {| payload := Sink (out ++ [feed_data_call c (len c)]);
                     _length := L; _type := PARSE_UNTIL_EOF; _chunk := ch;
                     _chunk_size := sz; _chunk_tail := tl; done := dn |})
      as (s' & E & Ht & Hp); try reflexivity.
    exists s'. split; [exact E|]. split; [exact Ht|].
    rewrite Hp. cbn [map]. now rewrite <- app_assoc.
Qed.

(** X3.  Read-to-EOF framing: every buffer is forwarded to the sink as one
    [feed_data] call, no call ever reports completion, and the sink learns
    of the end only from [feed_eof].  Under any other framing [feed_eof]
    changes nothing, so a fixed-length or chunked body cut short by the end
    of the connection is not signalled to the sink. *)
Theorem feed_eof_only_until_eof buffers self out :
  payload self = Sink out ->
  (_type self = PARSE_UNTIL_EOF ->
   exists self1 self2,
     feed_buffers buffers self = Some (self1, Returned (false, None)) /\
     HttpPayloadParser_feed_eof self1 = (self2, Returned tt) /\
     payload self2 =
     Sink (out ++ map (fun c => feed_data_call c (len c)) buffers
               ++ [feed_eof_call])) /\
  (_type self <> PARSE_UNTIL_EOF ->
   HttpPayloadParser_feed_eof self = (self, Returned tt)).
Proof.
  intros Hpl. split.
  - intros Hty.
    destruct (feed_buffers_until_eof_calls buffers self out Hty Hpl)
      as (s1 & E & Ht & Hp).
    exists s1. eexists. split; [exact E|].
    unfold HttpPayloadParser_feed_eof, call_payload. rewrite Ht, Hp.
    cbn [Payload_feed_eof]. split; [reflexivity|].
    cbn [payload set_payload]. now rewrite <- app_assoc.
  - unfold HttpPayloadParser_feed_eof. destruct (_type self); congruence.
Qed.

End ParserEof.

(** A body of two buffers read to EOF. *)
Lemma feed_eof_only_until_eof_witness :
  let self := fst (HttpPayloadParser_init [] None false None (Some 200) None
                     true true) in
  payload self = Sink [] /\
  exists self1 self2,
    feed_buffers [b "ab"; b "c"] self = Some (self1, Returned (false, None)) /\
    HttpPayloadParser_feed_eof self1 = (self2, Returned tt) /\
    payload self2 =
    Sink ([] ++ map (fun c => feed_data_call c (len c)) [b "ab"; b "c"]
             ++ [feed_eof_call]).
Proof.
  cbv zeta. split; [reflexivity|].
  apply (proj1 (feed_eof_only_until_eof [b "ab"; b "c"]
                  (fst (HttpPayloadParser_init [] None false None (Some 200) None
                          true true)) [] eq_refl)).
  reflexivity.
Defined.

(** ** [PayloadWriter]: ordering, accounting, transport hand-over *)

Section WriterOrder.
Context {Zl : Zlib}.

Ltac wnorm :=
  cbn [stream_available stream_calls wire _transport length chunked buffer_size
       output_length _buffer _compress _drain_waiter with_transport with_length
       with_chunked with_buffer_size with_output_length with_buffer
       with_compress with_drain_waiter transport_write stream_do fst snd] in *.

(** [output_length] minus the bytes produced: constant over the life of a
    writer. *)
Lemma accounted_buffer_data chunk self :
  output_length (buffer_data chunk self) - len (emitted (buffer_data chunk self))
  = output_length self - len (emitted self).
Proof.
  rewrite emitted_buffer_data, len_app. unfold buffer_data.
  destruct (truthy chunk) eqn:E; wnorm; [lia|].
  apply truthy_false in E. subst. cbn. lia.
Qed.

Lemma output_length__write chunk self :
  output_length (_write chunk self) = output_length self + len chunk.
Proof.
  unfold _write. wnorm.
  destruct (_transport self); [destruct (truthy (_buffer self))|]; reflexivity.
Qed.

Lemma output_length_drain self :
  output_length (fst (drain self)) = output_length self.
Proof.
  unfold drain. destruct (_transport self).
  - destruct (truthy (_buffer self)); reflexivity.
  - destruct (truthy (_buffer self)); [|reflexivity].
    destruct (_drain_waiter self) as [[|]|] eqn:W; wnorm; rewrite ?W; reflexivity.
Qed.

Lemma accounted_write chunk d self :
  output_length (fst (write chunk d self)) - len (emitted (fst (write chunk d self)))
  = output_length self - len (emitted self).
Proof.
  unfold write.
  set (st := match _compress self with Some z => _ | None => _ end).
  assert (Hst : exists w c go, st = (w, c, go) /\ emitted w = emitted self /\
                  output_length w = output_length self).
  { unfold st. destruct (_compress self) as [z|].
    - destruct (zlib_compress z chunk) as [z' c]. eexists _, _, _. auto.
    - eexists _, _, _. auto. }
  destruct Hst as (w & c & go & -> & He & Ho).
  destruct go; cbn [negb fst]; [|now rewrite He, Ho].
  set (st2 := match length w with Some l => _ | None => _ end).
  assert (Hst2 : exists w2 c2 go2, st2 = (w2, c2, go2) /\ emitted w2 = emitted self /\
                  output_length w2 = output_length self).
  { unfold st2. destruct (length w) as [l|].
    - destruct (l >=? len c); eexists _, _, _; auto.
    - eexists _, _, _. auto. }
  destruct Hst2 as (w2 & c2 & go2 & -> & He2 & Ho2).
  destruct go2; cbn [negb fst]; [|now rewrite He2, Ho2].
  match goal with |- context [truthy ?x] => set (data := x) end.
  destruct (truthy data); [|cbn [fst]; now rewrite He2, Ho2].
  destruct ((buffer_size (_write data w2) >? 64 * 1024) && d); cbn [fst];
    [change (emitted (with_buffer_size ?s 0)) with (emitted s);
     change (output_length (with_buffer_size ?s 0)) with (output_length s)|];
    rewrite emitted__write, output_length__write, len_app, He2, Ho2; lia.
Qed.

Lemma accounted_run_op o self :
  output_length (run_op o self) - len (emitted (run_op o self))
  = output_length self - len (emitted self).
Proof.
  destruct o as [chunk d await|]; cbn [run_op].
  - pose proof (accounted_write chunk d self) as H.
    destruct (write chunk d self) as [w [|]]; cbn [fst] in H; [exact H|].
    destruct await; [|exact H].
    destruct (drain_frame w) as (He & _). now rewrite He, output_length_drain.
  - destruct (drain_frame self) as (He & _). now rewrite He, output_length_drain.
Qed.

(** X4.  [output_length] (the [body_length] of a message) grows by exactly
    the number of bytes the writer produces: over any sequence of [write]
    calls and [drain]s, over [write_eof], and over [set_transport], the
    difference between [output_length] and the bytes emitted so far does
    not change. *)
Theorem output_length_counts_emitted ops chunk self :
  let acc w := output_length w - len (emitted w) in
  acc (run_ops ops self) = acc self /\
  acc (fst (write_eof chunk self)) = acc self /\
  acc (fst (set_transport self)) = acc self.
Proof.
  cbv zeta. repeat split.
  - revert self. induction ops as [|o ops IH]; intros self; [reflexivity|].
    cbn [run_ops fold_left]. fold (run_ops ops (run_op o self)).
    rewrite IH. apply accounted_run_op.
  - unfold write_eof.
    match goal with |- context [let (s, c) := ?x in _] => set (st := x) end.
    assert (Hst : exists w c, st = (w, c) /\ emitted w = emitted self /\
                    output_length w = output_length self).
    { unfold st. destruct (_compress self) as [z|].
      - destruct (if truthy chunk then zlib_compress z chunk else (z, chunk))
          as [z1 c1].
        destruct (zlib_cflush z1) as [z2 t]. eexists _, _. auto.
      - eexists _, _. auto. }
    destruct Hst as (w & c & -> & He & Ho).
    pose proof (accounted_buffer_data c w) as Hb.
    destruct (drain_frame (buffer_data c w)) as (Hd & _).
    pose proof (output_length_drain (buffer_data c w)) as Hod.
    destruct (drain (buffer_data c w)) as [w' [|]]; cbn [fst] in *;
      [change (emitted (stream_do (with_transport w' false) release_call true))
         with (emitted w');
       change (output_length (stream_do (with_transport w' false) release_call true))
         with (output_length w')|];
      rewrite Hd, Hod, Hb, He, Ho; reflexivity.
  - unfold set_transport, emitted. wnorm.
    destruct (truthy (List.concat (_buffer self))) eqn:E; wnorm;
      destruct (_drain_waiter self); wnorm;
      rewrite ?concat_snoc; cbn [List.concat]; rewrite ?app_nil_r; reflexivity.
Qed.

(** A [write] on a writer without length limit and compression emits its
    chunk, framed if chunking is on, after everything emitted before. *)
Lemma write_unlimited chunk d self :
  length self = None -> _compress self = None ->
  emitted (fst (write chunk d self)) = emitted self ++ framed (chunked self) chunk /\
  length (fst (write chunk d self)) = None /\
  _compress (fst (write chunk d self)) = None /\
  chunked (fst (write chunk d self)) = chunked self.
Proof.
  intros HL Hz. unfold write. rewrite Hz. cbn [negb]. rewrite HL. cbn [negb].
  assert (Hdata : (if chunked self then (hex (len chunk) ++ SEP) ++ chunk ++ SEP
                   else chunk) = framed (chunked self) chunk).
  { unfold framed. destruct (chunked self); [|reflexivity]. now rewrite <- app_assoc. }
  rewrite Hdata.
  destruct (truthy (framed (chunked self) chunk)) eqn:T.
  - destruct (_write_fields (framed (chunked self) chunk) self) as [F1 F2].
    assert (F3 : _compress (_write (framed (chunked self) chunk) self) = None).
    { unfold _write. wnorm.
      destruct (_transport self); [destruct (truthy (_buffer self))|]; wnorm;
        assumption. }
    destruct ((buffer_size _ >? 64 * 1024) && d); cbn [fst];
      [change (emitted (with_buffer_size ?s 0)) with (emitted s)|];
      rewrite emitted__write; wnorm; rewrite ?F1, ?F2, ?F3; auto.
  - apply truthy_false in T. rewrite T, app_nil_r. cbn [fst]. auto.
Qed.

Lemma run_op_unlimited o self :
  length self = None -> _compress self = None ->
  emitted (run_op o self)
  = emitted self ++ List.concat (map (framed (chunked self)) (written [o])) /\
  length (run_op o self) = None /\ _compress (run_op o self) = None /\
  chunked (run_op o self) = chunked self.
Proof.
  intros HL Hz. destruct o as [chunk d await|]; cbn [run_op written flat_map app map].
  - destruct (write_unlimited chunk d self HL Hz) as (He & Hl & Hc & Hk).
    cbn [List.concat]. rewrite app_nil_r.
    destruct (write chunk d self) as [w [|]]; cbn [fst] in *; auto.
    destruct await; auto.
    destruct (drain_frame w) as (He' & Hl' & Hk' & Hc').
    rewrite He', Hl', Hk', Hc'. auto.
  - destruct (drain_frame self) as (He' & Hl' & Hk' & Hc').
    cbn [List.concat]. rewrite app_nil_r, He', Hl', Hk', Hc'. auto.
Qed.

Lemma run_ops_unlimited ops : forall self,
  length self = None -> _compress self = None ->
  emitted (run_ops ops self)
  = emitted self ++ List.concat (map (framed (chunked self)) (written ops)) /\
  length (run_ops ops self) = None /\ _compress (run_ops ops self) = None /\
  chunked (run_ops ops self) = chunked self.
Proof.
  induction ops as [|o ops IH]; intros self HL Hz.
  - cbn. rewrite app_nil_r. auto.
  - cbn [run_ops fold_left]. fold (run_ops ops (run_op o self)).
    destruct (run_op_unlimited o self HL Hz) as (He & Hl & Hc & Hk).
    destruct (IH (run_op o self) Hl Hc) as (He2 & Hl2 & Hc2 & Hk2).
    rewrite He2, He, Hk, Hl2, Hc2, Hk2.
    replace (written (o :: ops)) with (written [o] ++ written ops)
      by (unfold written; cbn [flat_map]; now rewrite app_nil_r).
    rewrite map_app, concat_app, <- app_assoc. auto.
Qed.

Lemma write_eof_empty self :
  _compress self = None ->
  emitted (fst (write_eof [] self))
  = emitted self ++ (if chunked self then LAST_CHUNK else []).
Proof.
  intros Hz. unfold write_eof. rewrite Hz. cbn [truthy andb].
  match goal with |- context [buffer_data ?d self] => set (data := d) end.
  destruct (drain_frame (buffer_data data self)) as (He & _).
  destruct (drain (buffer_data data self)) as [w [|]]; cbn [fst] in *;
    [change (emitted (stream_do (with_transport w false) release_call true))
       with (emitted w)|];
    rewrite He, emitted_buffer_data; unfold data; destruct (chunked self);
    reflexivity.
Qed.

(** X5.  On a writer without length limit and compression, the bytes of
    successive [write] calls leave in call order, whether or not drains are
    awaited in between: after any sequence of operations and a final
    [write_eof()], the writer has emitted each written chunk in turn, framed
    as [hex-size CRLF data CRLF] when chunking is on, and then the
    terminator [0 CRLF CRLF] if chunking is on. *)
Theorem writes_in_order ops self :
  length self = None -> _compress self = None ->
  emitted (fst (write_eof [] (run_ops ops self)))
  = emitted self
    ++ List.concat (map (framed (chunked self)) (written ops))
    ++ (if chunked self then LAST_CHUNK else []).
Proof.
  intros HL Hz.
  destruct (run_ops_unlimited ops self HL Hz) as (He & _ & Hc & Hk).
  rewrite (write_eof_empty _ Hc), He, Hk. now rewrite <- app_assoc.
Qed.

(** X6.  In chunked mode [write(b'')] is not a no-op: without length limit
    and compression it emits [0 CRLF CRLF], the terminator of the body. *)
Theorem write_empty_chunked d self :
  chunked self = true -> length self = None -> _compress self = None ->
  emitted (fst (write [] d self)) = emitted self ++ LAST_CHUNK.
Proof.
  intros Hk HL Hz. destruct (write_unlimited [] d self HL Hz) as (He & _).
  rewrite He, Hk. reflexivity.
Qed.

(** X7.  [set_transport] attaches the transport and hands it everything
    produced so far: afterwards, whether it returns or raises, nothing is
    left in the buffer and the transport has received, in order, all bytes
    emitted before the call. *)
Theorem set_transport_flushes self :
  let self' := fst (set_transport self) in
  _transport self' = true /\
  List.concat (_buffer self') = [] /\
  List.concat (wire self') = emitted self.
Proof.
  cbv zeta. unfold set_transport, emitted. wnorm.
  destruct (truthy (List.concat (_buffer self))) eqn:E; wnorm;
    destruct (_drain_waiter self); wnorm; repeat split;
    rewrite ?concat_snoc; try reflexivity;
    apply truthy_false in E; rewrite E; now rewrite ?app_nil_r.
Qed.


(** X9.  [write_eof] on a compressing, chunked writer ends the body with a
    single terminator: when the compressor's output for the chunk and its
    flush is not empty, the writer emits that output as one chunk followed
    by [0 CRLF CRLF] once. *)
Theorem write_eof_compressed_chunked chunk self z z1 c1 z2 t :
  _compress self = Some z -> chunked self = true ->
  (if truthy chunk then zlib_compress z chunk else (z, chunk)) = (z1, c1) ->
  zlib_cflush z1 = (z2, t) ->
  c1 ++ t <> [] ->
  emitted (fst (write_eof chunk self))
  = emitted self ++ framed true (c1 ++ t) ++ LAST_CHUNK.
Proof.
  intros Hz Hk H1 H2 Hne. unfold write_eof. rewrite Hz, Hk.
  assert (E1 : (if truthy chunk then zlib_compress z chunk else (z, chunk))
               = (z1, c1)) by exact H1.
  destruct (truthy chunk).
  - destruct (zlib_compress z chunk) as [za ca]. injection E1 as -> ->.
    destruct (zlib_cflush z1) as [zb tb]. injection H2 as -> ->.
    destruct (c1 ++ t) as [|x data] eqn:E; [congruence|]. cbn [truthy andb].
    match goal with |- context [buffer_data ?d ?s] => set (out := d); set (w := s) end.
    destruct (drain_frame (buffer_data out w)) as (He & _).
    destruct (drain (buffer_data out w)) as [w' [|]]; cbn [fst] in *;
      [change (emitted (stream_do (with_transport w' false) release_call true))
         with (emitted w')|];
      rewrite He, emitted_buffer_data; unfold out, framed;
      change (emitted w) with (emitted self); now rewrite <- !app_assoc.
  - injection E1 as -> ->.
    destruct (zlib_cflush z1) as [zb tb]. injection H2 as -> ->.
    destruct (c1 ++ t) as [|x data] eqn:E; [congruence|]. cbn [truthy andb].
    match goal with |- context [buffer_data ?d ?s] => set (out := d); set (w := s) end.
    destruct (drain_frame (buffer_data out w)) as (He & _).
    destruct (drain (buffer_data out w)) as [w' [|]]; cbn [fst] in *;
      [change (emitted (stream_do (with_transport w' false) release_call true))
         with (emitted w')|];
      rewrite He, emitted_buffer_data; unfold out, framed;
      change (emitted w) with (emitted self); now rewrite <- !app_assoc.
Qed.

End WriterOrder.

Section WriterParser.
Context {B : Builtins} {Zl : Zlib}.

Lemma sink_bytes_data_calls (chunks : list bytes) :
  sink_bytes (map (fun c => feed_data_call c (len c)) chunks) = List.concat chunks.
Proof.
  induction chunks as [|c chunks IH]; [reflexivity|]. cbn. now rewrite IH.
Qed.

(** X10.  What a chunked writer emits, a chunked parser reads back.  For a
    writer without length limit and compression, the bytes emitted by any
    sequence of non-empty [write]s followed by [write_eof()], fed in one
    call to a chunked parser at the start of a body, make the sink receive
    exactly the written bytes and EOF; the call returns [(True, extra)]
    with whatever followed the body. *)
Theorem chunked_write_then_parse ops w extra self out :
  chunked w = true -> length w = None -> _compress w = None ->
  _type self = PARSE_CHUNKED -> _chunk self = PARSE_CHUNKED_SIZE ->
  _chunk_tail self = [] -> payload self = Sink out ->
  Forall (fun c => c <> [] /\ int16 (hex (len c)) = Some (len c)) (written ops) ->
  int16 (hex 0) = Some 0 ->
  exists body self',
    emitted (fst (write_eof [] (run_ops ops w))) = emitted w ++ body /\
    HttpPayloadParser_feed_data (body ++ extra) self
    = Some (self', Returned (true, Some extra)) /\
    sink_bytes (payload_out (payload self'))
    = sink_bytes out ++ List.concat (written ops) /\
    sink_eof (payload_out (payload self')) = true.
Proof.
  intros Hk HL Hz Hty Hst Htl Hpl Hall H0.
  destruct (run_ops_unlimited ops w HL Hz) as (He & _ & Hc & Hk').
  exists (List.concat (map (framed true) (written ops)) ++ LAST_CHUNK).
  rewrite (feed_data_chunked _ self Hty), Htl. cbn [app].
  assert (E : set_chunk_tail self [] = self)
    by (destruct self; cbn in Htl; now subst).
  rewrite E, <- app_assoc.
  destruct (frames_loop (written ops) self out _ extra Hty Hst Hpl Hall H0 (le_n _))
    as (s' & E' & Hp & _).
  exists s'. split; [|split; [exact E'|]].
  - rewrite (write_eof_empty _ Hc), He, Hk', Hk. now rewrite <- app_assoc.
  - rewrite Hp. cbn [payload_out]. unfold sink_eof.
    rewrite !sink_bytes_app, sink_bytes_data_calls, !existsb_app. cbn.
    rewrite app_nil_r, !orb_true_r. auto.
Qed.

End WriterParser.

(** Two writes on a chunked writer, parsed back with the start of the next
    message behind them. *)
Lemma chunked_write_then_parse_witness :
  let w := enable_chunking (PayloadWriter_init true []) in
  let ops := [op_write (b "hello") true true; op_write (b " world") false false] in
  let self := fst (HttpPayloadParser_init [] None true None None None false true) in
  exists body self',
    emitted (fst (write_eof [] (run_ops ops w))) = emitted w ++ body /\
    HttpPayloadParser_feed_data (body ++ b "GET") self
    = Some (self', Returned (true, Some (b "GET"))) /\
    sink_bytes (payload_out (payload self'))
    = sink_bytes [] ++ List.concat (written ops) /\
    sink_eof (payload_out (payload self')) = true.
Proof.
  cbv zeta. apply chunked_write_then_parse; try reflexivity.
  repeat constructor; discriminate.
Defined.

(** Plain and chunked writers given the same two chunks. *)
Lemma writes_in_order_witness :
  let w := enable_chunking (PayloadWriter_init false []) in
  let ops := [op_write (b "ab") true true; op_drain; op_write (b "c") true false] in
  emitted (fst (write_eof [] (run_ops ops w)))
  = emitted w
    ++ List.concat (map (framed (chunked w)) (written ops))
    ++ (if chunked w then LAST_CHUNK else []).
Proof. cbv zeta. apply writes_in_order; reflexivity. Defined.

Lemma write_empty_chunked_witness :
  let w := enable_chunking (PayloadWriter_init true []) in
  emitted (fst (write [] true w)) = emitted w ++ LAST_CHUNK.
Proof. cbv zeta. apply write_empty_chunked; reflexivity. Defined.


Lemma write_eof_compressed_chunked_witness :
  let w := enable_chunking (enable_compression (PayloadWriter_init true []) "deflate") in
  emitted (fst (write_eof (b "hi") w))
  = emitted w ++ framed true (b "hi" ++ []) ++ LAST_CHUNK.
Proof.
  cbv zeta.
  apply (@write_eof_compressed_chunked stored_zlib (b "hi") _ tt tt (b "hi") tt []);
    try reflexivity. discriminate.
Defined.

Lemma feed_data_length_complete_witness :
  let self := fst (HttpPayloadParser_init [] (Some 3) false None None None
                     false true) in
  HttpPayloadParser_feed_data (b "hello") self
  = Some (set_payload (set_length self 0)
            (Sink ([] ++ [feed_data_call (slice_to (b "hello") (_length self))
                                         (_length self);
                          feed_eof_call])),
          Returned (true, Some (slice_from (b "hello") (_length self)))).
Proof.
  cbv zeta. apply feed_data_length_complete; try reflexivity. cbn. lia.
Defined.

(** ** [HttpMessage]: sending the headers *)

Section MessageHeaders.
Context {B : Builtins} {Zl : Zlib}.

(** The names of [hdrs], spelt out. *)
Lemma hdrs_spelling :
  hdrs_CONNECTION = lit "Connection" /\
  hdrs_CONTENT_LENGTH = lit "Content-Length" /\
  hdrs_TRANSFER_ENCODING = lit "Transfer-Encoding" /\
  hdrs_UPGRADE = lit "Upgrade" /\
  hdrs_DATE = lit "Date" /\
  hdrs_SERVER = lit "Server".
Proof.
  unfold hdrs_CONNECTION, hdrs_CONTENT_LENGTH, hdrs_TRANSFER_ENCODING,
    hdrs_UPGRADE, hdrs_DATE, hdrs_SERVER.
  rewrite !istr_ascii by reflexivity. repeat split.
Qed.

Lemma md_get_set_same d k v : md_get (md_set d k v) k = Some v.
Proof.
  unfold md_get, md_set.
  induction d as [|[k' v'] d IH]; cbn.
  - now rewrite (proj2 (pystr_eqb_eq k k) eq_refl).
  - destruct (pystr_eqb k' k) eqn:E; cbn; [exact IH|]. now rewrite E.
Qed.

Lemma md_get_set_other d k v k' :
  pystr_eqb k k' = false -> md_get (md_set d k v) k' = md_get d k'.
Proof.
  intros H. unfold md_get, md_set.
  induction d as [|[k0 v0] d IH]; cbn.
  - now rewrite H.
  - destruct (pystr_eqb k0 k) eqn:E; cbn.
    + apply pystr_eqb_eq in E. subst k0. now rewrite H.
    + destruct (pystr_eqb k0 k'); [reflexivity | exact IH].
Qed.

Lemma md_get_add_other d k v k' :
  pystr_eqb k k' = false -> md_get (md_add d k v) k' = md_get d k'.
Proof.
  intros H. unfold md_get, md_add.
  induction d as [|[k0 v0] d IH]; cbn.
  - now rewrite H.
  - destruct (pystr_eqb k0 k'); [reflexivity | exact IH].
Qed.

Lemma md_get_setdefault_other d k v k' :
  pystr_eqb k k' = false ->
  md_get (md_setdefault d k v) k' = md_get d k'.
Proof.
  intros H. unfold md_setdefault. destruct (md_contains d k); [reflexivity|].
  now apply md_get_add_other.
Qed.

(** [_add_default_headers] leaves alone every entry that is not
    [Connection], [Date] or [Server]. *)
Lemma _add_default_headers_other date server self k :
  pystr_eqb hdrs_CONNECTION k = false -> pystr_eqb hdrs_DATE k = false ->
  pystr_eqb hdrs_SERVER k = false ->
  md_get (headers (_add_default_headers date server self)) k
  = md_get (headers self) k.
Proof.
  intros HC HD HS. unfold _add_default_headers.
  set (connection := if upgrade self then _ else _).
  assert (H1 : forall m, md_get (headers m) k = md_get (headers self) k ->
            kind m = kind self ->
            md_get (headers match kind m with
                            | IsResponse _ _ =>
                                with_headers
                                  (if negb (md_contains (headers m) hdrs_DATE)
                                   then with_headers m
                                          (md_setdefault (headers m) hdrs_DATE date)
                                   else m)
                                  (md_setdefault
                                     (headers (if negb (md_contains (headers m) hdrs_DATE)
                                               then with_headers m
                                                      (md_setdefault (headers m) hdrs_DATE date)
                                               else m))
                                     hdrs_SERVER server)
                            | IsRequest _ _ => m
                            end) k = md_get (headers self) k).
  { intros m Hm Hk. destruct (kind m); [exact Hm|].
    cbn [headers with_headers]. rewrite md_get_setdefault_other by exact HS.
    destruct (negb (md_contains (headers m) hdrs_DATE)); cbn [headers with_headers];
      [rewrite md_get_setdefault_other by exact HD|]; exact Hm. }
  destruct connection as [c|]; apply H1; cbn [headers with_headers kind];
    try reflexivity.
  now apply md_get_set_other.
Qed.

Lemma _add_default_headers_fields date server self :
  let self' := _add_default_headers date server self in
  headers_sent self' = headers_sent self /\ writer self' = writer self /\
  kind self' = kind self /\ _version self' = _version self /\
  keepalive self' = keepalive self /\ closing self' = closing self.
Proof.
  cbv zeta. unfold _add_default_headers.
  destruct (if upgrade self then _ else _) as [c|];
    cbn [kind with_headers]; destruct (kind self) eqn:K;
    cbn [headers with_headers];
    try destruct (negb (md_contains _ hdrs_DATE));
    cbn [headers_sent writer kind _version keepalive closing with_headers];
    auto 10.
Qed.

(** X11.  The header block is sent once and is frozen afterwards: after a
    successful [send_headers], a second [send_headers] and any
    [add_header] raise [AssertionError] (and so leave the message as it
    is). *)
Theorem send_headers_freezes date server self self' :
  send_headers date server self = Returned self' ->
  (forall date' server',
      send_headers date' server' self'
      = Raised (AssertionError "headers have been sent already")) /\
  (forall name value,
      add_header name value self'
      = Raised (AssertionError "headers have been sent already")).
Proof.
  unfold send_headers at 1. destruct (headers_sent self) eqn:Hs; [discriminate|].
  intros [= <-].
  match goal with |- context [with_writer (_add_default_headers date server ?m) _] =>
    destruct (_add_default_headers_fields date server m) as (H & _);
    assert (Hm : headers_sent m = true)
  end.
  { repeat match goal with
           | |- context [if ?c then _ else _] => destruct c
           end; reflexivity. }
  cbv zeta in H. rewrite Hm in H.
  split; [intros date' server'; unfold send_headers | intros name value; unfold add_header];
    cbn [headers_sent with_writer]; now rewrite H.
Qed.


End MessageHeaders.

Section MessageConnection.
Context {B : Builtins} {Zl : Zlib}.

Lemma buffer_data_fields chunk (w : PayloadWriter) :
  length (buffer_data chunk w) = length w /\
  chunked (buffer_data chunk w) = chunked w.
Proof. unfold buffer_data. destruct (truthy chunk); split; reflexivity. Qed.

(** X13.  A [Content-Length] header switches autochunking off.  When
    [add_header('Content-Length', v)] returns, [v] is an integer, and a
    later [send_headers] on a message that was not chunked keeps that
    length, leaves chunking off and does not touch [Transfer-Encoding],
    for requests and responses of any version and status. *)
Theorem content_length_disables_autochunk date server v self self1 self2 :
  add_header (lit "Content-Length") v self = Returned self1 ->
  chunked (writer self) = false ->
  send_headers date server self1 = Returned self2 ->
  exists n,
    int10 (str_strip v) = Some n /\
    length (writer self2) = Some n /\
    chunked (writer self2) = false /\
    md_get (headers self2) hdrs_TRANSFER_ENCODING
    = md_get (headers self) hdrs_TRANSFER_ENCODING.
Proof.
  destruct hdrs_spelling as (EC & EL & ET & EU & ED & ES).
  unfold add_header. destruct (headers_sent self) eqn:Hs; [discriminate|].
  change (negb (forallb ASCIISET (lit "Content-Length"))) with false. cbv iota zeta.
  rewrite (istr_ascii (lit "Content-Length")) by reflexivity.
  change (Ascii7.title false (lit "Content-Length")) with (lit "Content-Length").
  rewrite EC, EL, ET, EU.
  change (pystr_eqb (lit "Content-Length") (lit "Content-Length")) with true.
  change (pystr_eqb (lit "Content-Length") (lit "Transfer-Encoding")) with false.
  change (pystr_eqb (lit "Content-Length") (lit "Connection")) with false.
  change (pystr_eqb (lit "Content-Length") (lit "Upgrade")) with false.
  cbv iota. destruct (int10 (str_strip v)) as [n|] eqn:En; [|discriminate].
  cbn [HOP_HEADERS existsb negb]. intros [= <-] Hc.
  unfold send_headers. cbn [headers_sent with_headers with_writer]. rewrite Hs.
  cbn [writer with_headers with_writer with_headers_sent chunked with_length].
  rewrite Hc. cbn [negb andb].
  assert (Ha : forall m : HttpMessage, length (writer m) = Some n ->
                                       autochunked m = false).
  { intros m Hm. unfold autochunked. rewrite Hm. now destruct (kind m). }
  rewrite Ha by reflexivity.
  cbn [writer with_headers with_writer with_headers_sent chunked with_length].
  rewrite Hc. intros [= <-]. exists n. split; [reflexivity|].
  cbn [writer with_writer].
  match goal with |- context [_add_default_headers date server ?m] =>
    destruct (_add_default_headers_fields date server m) as (_ & Hw & _);
    cbv zeta in Hw;
    pose proof (_add_default_headers_other date server m hdrs_TRANSFER_ENCODING) as Ho
  end.
  match goal with |- context [buffer_data ?d ?w] =>
    destruct (buffer_data_fields d w) as [F1 F2]
  end.
  rewrite F1, F2, Hw. cbn [writer with_headers with_writer with_headers_sent
                            length chunked with_length].
  split; [reflexivity|]. split; [exact Hc|].
  cbn [headers with_writer]. rewrite ET in Ho.
  rewrite Ho by (rewrite ?EC, ?ED, ?ES; reflexivity).
  cbn [headers with_headers with_writer with_headers_sent].
  apply md_get_add_other. reflexivity.
Qed.

(** The [Connection] entry after [_add_default_headers]: the value chosen
    by the method, or the entry that was there. *)
Lemma _add_default_headers_connection date server self :
  md_get (headers (_add_default_headers date server self)) hdrs_CONNECTION
  = match (if upgrade self then Some (lit "Upgrade")
           else if match keepalive self with
                   | None => negb (closing self)
                   | Some k => k
                   end
           then (if version_eqb (version self) HttpVersion10
                 then Some (lit "keep-alive") else None)
           else (if version_eqb (version self) HttpVersion11
                 then Some (lit "close") else None))
    with
    | Some c => Some c
    | None => md_get (headers self) hdrs_CONNECTION
    end.
Proof.
  destruct hdrs_spelling as (EC & _ & _ & _ & ED & ES).
  assert (ND : pystr_eqb hdrs_DATE hdrs_CONNECTION = false)
    by (rewrite ED, EC; reflexivity).
  assert (NS : pystr_eqb hdrs_SERVER hdrs_CONNECTION = false)
    by (rewrite ES, EC; reflexivity).
  unfold _add_default_headers.
  set (connection := if upgrade self then _ else _).
  assert (H1 : forall m,
            md_get (headers match kind m with
                            | IsResponse _ _ =>
                                with_headers
                                  (if negb (md_contains (headers m) hdrs_DATE)
                                   then with_headers m
                                          (md_setdefault (headers m) hdrs_DATE date)
                                   else m)
                                  (md_setdefault
                                     (headers (if negb (md_contains (headers m) hdrs_DATE)
                                               then with_headers m
                                                      (md_setdefault (headers m) hdrs_DATE date)
                                               else m))
                                     hdrs_SERVER server)
                            | IsRequest _ _ => m
                            end) hdrs_CONNECTION
            = md_get (headers m) hdrs_CONNECTION).
  { intros m. destruct (kind m); [reflexivity|].
    cbn [headers with_headers]. rewrite md_get_setdefault_other by exact NS.
    destruct (negb (md_contains (headers m) hdrs_DATE)); cbn [headers with_headers];
      [rewrite md_get_setdefault_other by exact ND|]; reflexivity. }
  destruct connection as [c|]; rewrite H1; [|reflexivity].
  cbn [headers with_headers]. apply md_get_set_same.
Qed.

(** X14.  On an HTTP/1.1 message that is not an upgrade, the default
    headers agree with [keep_alive()]: [_add_default_headers] sets
    [Connection: close] when [keep_alive()] is false, and leaves the
    [Connection] entry alone when it is true. *)
Theorem default_connection_http11 date server self :
  version self = HttpVersion11 -> upgrade self = false ->
  md_get (headers (_add_default_headers date server self)) hdrs_CONNECTION
  = if keep_alive self then md_get (headers self) hdrs_CONNECTION
    else Some (lit "close").
Proof.
  intros Hv Hu. rewrite _add_default_headers_connection, Hu.
  unfold keep_alive. rewrite Hv. cbn [version_ltb version_eqb HttpVersion10
    HttpVersion11 fst snd Z.ltb Z.eqb Z.compare Pos.compare Pos.compare_cont
    Pos.eqb orb andb].
  destruct (keepalive self) as [[|]|]; try reflexivity.
  destruct (closing self); reflexivity.
Qed.

Lemma connection_entries_none d :
  connection_entries d = [] -> md_get d hdrs_CONNECTION = None.
Proof.
  unfold connection_entries, md_get.
  induction d as [|[k v] d IH]; [reflexivity|]. cbn.
  destruct (pystr_eqb k hdrs_CONNECTION); [discriminate | exact IH].
Qed.

(** What [add_header] never changes. *)
Lemma add_header_keeps name value self self' :
  add_header name value self = Returned self' ->
  connection_entries (headers self') = connection_entries (headers self) /\
  closing self' = closing self /\ _version self' = _version self /\
  kind self' = kind self.
Proof.
  unfold add_header. destruct (headers_sent self); [discriminate|].
  destruct (negb _); [discriminate|].
  destruct (pystr_eqb (istr name) hdrs_CONTENT_LENGTH);
    [destruct (int10 _); [|discriminate]|];
    destruct (pystr_eqb (istr name) hdrs_TRANSFER_ENCODING);
    (destruct (pystr_eqb (istr name) hdrs_CONNECTION) eqn:EC;
     [repeat destruct (contains _ _); intros [= <-]; cbn; auto|]);
    (destruct (pystr_eqb (istr name) hdrs_UPGRADE);
     [destruct (contains _ _)|]); cbn; intros [= <-]; cbn;
    (split; [|auto]);
    (apply connection_entries_set || apply connection_entries_add); exact EC.
Qed.

Lemma add_headers_keeps hs : forall self self',
  add_headers hs self = Returned self' ->
  connection_entries (headers self') = connection_entries (headers self) /\
  closing self' = closing self /\ _version self' = _version self /\
  kind self' = kind self.
Proof.
  induction hs as [|[name value] hs IH]; intros self self'.
  - cbn. intros [= <-]. auto.
  - cbn [add_headers].
    destruct (add_header name value self) as [m|e] eqn:E; [|discriminate].
    intros H. apply IH in H as (H1 & H2 & H3 & H4).
    apply add_header_keeps in E as (E1 & E2 & E3 & E4).
    repeat split; congruence.
Qed.

(** X15.  On an HTTP/1.0 response created with [close=False] to which no
    [Connection] header was given (so that [keepalive] is unset and
    [upgrade] false), [keep_alive()] answers false while the headers are
    being added, and true once [_add_default_headers] has run: the method
    writes [Connection: keep-alive] into the header map, which is what
    [keep_alive()] reads for HTTP/1.0. *)
Theorem keep_alive_http10_after_defaults
    available wire0 status reason hs date server self :
  add_headers hs (Response_init available wire0 status HttpVersion10 false reason)
  = Returned self ->
  keepalive self = None -> upgrade self = false ->
  keep_alive self = false /\
  keep_alive (_add_default_headers date server self) = true.
Proof.
  intros Hadd Hk Hu.
  apply add_headers_keeps in Hadd as (Hc & Hcl & Hv & _).
  cbn in Hc, Hcl, Hv.
  pose proof (connection_entries_none _ Hc) as Hnone.
  split.
  - unfold keep_alive, version. rewrite Hk, Hv, Hnone. reflexivity.
  - destruct (_add_default_headers_fields date server self)
      as (_ & _ & _ & Hv' & Hk' & _). cbv zeta in Hv', Hk'.
    unfold keep_alive at 1. unfold version at 1 2. rewrite Hk', Hv', Hk, Hv.
    cbn [version_ltb version_eqb HttpVersion10 fst snd Z.ltb Z.eqb Z.compare
         Pos.compare Pos.compare_cont Pos.eqb orb andb].
    rewrite _add_default_headers_connection, Hu, Hk, Hcl. unfold version.
    rewrite Hv. reflexivity.
Qed.

End MessageConnection.

Lemma send_headers_freezes_witness :
  exists self',
    send_headers (lit "now") (lit "srv")
      (Response_init true [] 200 HttpVersion11 false (lit "OK")) = Returned self' /\
    (forall date' server',
        send_headers date' server' self'
        = Raised (AssertionError "headers have been sent already")) /\
    (forall name value,
        add_header name value self'
        = Raised (AssertionError "headers have been sent already")).
Proof.
  eexists. split; [reflexivity|].
  exact (send_headers_freezes (lit "now") (lit "srv")
           (Response_init true [] 200 HttpVersion11 false (lit "OK")) _ eq_refl).
Defined.


Lemma content_length_disables_autochunk_witness :
  exists self1 self2 n,
    add_header (lit "Content-Length") (lit " 42 ")
      (Response_init true [] 200 HttpVersion11 false (lit "OK")) = Returned self1 /\
    send_headers (lit "now") (lit "srv") self1 = Returned self2 /\
    n = 42 /\
    int10 (str_strip (lit " 42 ")) = Some n /\
    length (writer self2) = Some n /\
    chunked (writer self2) = false /\
    md_get (headers self2) hdrs_TRANSFER_ENCODING
    = md_get (headers (Response_init true [] 200 HttpVersion11 false (lit "OK")))
             hdrs_TRANSFER_ENCODING.
Proof.
  pose (self := Response_init true [] 200 HttpVersion11 false (lit "OK")).
  pose (self1 := match add_header (lit "Content-Length") (lit " 42 ") self with
                 | Returned m => m
                 | Raised _ => self
                 end).
  pose (self2 := match send_headers (lit "now") (lit "srv") self1 with
                 | Returned m => m
                 | Raised _ => self
                 end).
  assert (E1 : add_header (lit "Content-Length") (lit " 42 ") self = Returned self1)
    by reflexivity.
  assert (E2 : send_headers (lit "now") (lit "srv") self1 = Returned self2)
    by reflexivity.
  destruct (content_length_disables_autochunk (lit "now") (lit "srv") (lit " 42 ")
              self self1 self2 E1 eq_refl E2) as (n & H1 & H2 & H3 & H4).
  exists self1, self2, n. split; [exact E1|]. split; [exact E2|].
  split; [|auto]. cbv in H1. now injection H1.
Defined.

Lemma default_connection_http11_witness :
  let self := force_close (Response_init true [] 200 HttpVersion11 false (lit "OK")) in
  keep_alive self = false /\
  md_get (headers (_add_default_headers (lit "now") (lit "srv") self)) hdrs_CONNECTION
  = if keep_alive self then md_get (headers self) hdrs_CONNECTION
    else Some (lit "close").
Proof.
  cbv zeta. split; [reflexivity|].
  apply default_connection_http11; reflexivity.
Defined.

Lemma keep_alive_http10_after_defaults_witness :
  exists self,
    add_headers [(lit "Content-Type", lit "text/plain")]
      (Response_init true [] 200 HttpVersion10 false (lit "OK")) = Returned self /\
    keep_alive self = false /\
    keep_alive (_add_default_headers (lit "now") (lit "srv") self) = true.
Proof.
  eexists. split; [reflexivity|].
  apply (keep_alive_http10_after_defaults true [] 200 (lit "OK")
           [(lit "Content-Type", lit "text/plain")]); reflexivity.
Defined.

(** ** Header lines *)

Lemma split_once_app (sep : byte) (n v : bytes) :
  forallb (fun c => negb (Byte.eqb c sep)) n = true ->
  split_once sep (n ++ sep :: v) = Some (n, v).
Proof.
  induction n as [|c n IH]; cbn [app split_once forallb].
  - intros _. now rewrite (proj2 (byte_eqb_eq sep sep) eq_refl).
  - intros H. apply andb_true_iff in H as [Hc Hn].
    apply negb_true_iff in Hc. rewrite Hc, (IH Hn). reflexivity.
Qed.

Lemma bytes_lstrip_suffix p x : exists a, x = a ++ bytes_lstrip p x.
Proof.
  induction x as [|c x [a IH]]; [now exists []|]. cbn.
  destruct (p c); [exists (c :: a); cbn; congruence | now exists []].
Qed.

Lemma bytes_lstrip_head p x c r : bytes_lstrip p x = c :: r -> p c = false.
Proof.
  induction x as [|c' x IH]; cbn; [discriminate|].
  destruct (p c') eqn:E; [exact IH|]. intros [= <- _]. exact E.
Qed.

Lemma bytes_lstrip_fix p x :
  match x with c :: _ => p c = false | [] => True end -> bytes_lstrip p x = x.
Proof. destruct x as [|c x]; cbn; [reflexivity|]. now intros ->. Qed.

(** [x.strip().strip() == x.strip()] *)
Lemma bytes_strip_idem p x : bytes_strip p (bytes_strip p x) = bytes_strip p x.
Proof.
  unfold bytes_strip.
  set (y := bytes_lstrip p x). set (z := bytes_lstrip p (rev y)).
  assert (H1 : bytes_lstrip p (rev z) = rev z).
  { apply bytes_lstrip_fix. destruct (rev z) as [|c r] eqn:E; [exact I|].
    destruct (bytes_lstrip_suffix p (rev y)) as [a Ha]. fold z in Ha.
    apply (f_equal (@rev byte)) in Ha.
    rewrite rev_involutive, rev_app_distr, E in Ha.
    apply (bytes_lstrip_head p x c (r ++ rev a)). exact Ha. }
  rewrite H1, rev_involutive.
  assert (H2 : bytes_lstrip p z = z).
  { apply bytes_lstrip_fix. destruct z as [|c r] eqn:E; [exact I|].
    apply (bytes_lstrip_head p (rev y) c r). exact E. }
  now rewrite H2.
Qed.

Section HeaderLines.
Context {B : Builtins}.

Lemma scan_headers_blank mfs rest : forall inner acc r,
  scan_headers mfs rest inner acc = Returned r -> In [] rest.
Proof.
  induction rest as [|line rest' IH]; intros inner acc r; [discriminate|].
  cbn [scan_headers]. destruct inner as [[[bname hl] bv]|].
  - destruct (_ >? _); [discriminate|].
    destruct rest' as [|line' rest'']; [discriminate|].
    destruct (first_is_sp_ht line') as [[|]|]; try discriminate;
      intros H; right; eapply IH; exact H.
  - destruct line as [|c line]; [intros _; now left|]. cbn [truthy negb].
    destruct (split_once x3a (c :: line)) as [[bn bv]|]; [|discriminate].
    destruct (HDRRE_search _); [discriminate|].
    destruct rest' as [|line' rest'']; [discriminate|].
    destruct (_ && _); [intros H; right; eapply IH; exact H|].
    destruct (_ >? _); [discriminate|]. intros H; right; eapply IH; exact H.
Qed.

(** X16.  [parse_headers] returns only when one of [lines[1:]] is empty:
    on a block of lines without the empty terminator line it raises. *)
Theorem parse_headers_needs_blank_line self lines h :
  parse_headers self lines = Returned h -> In [] (tl lines).
Proof.
  unfold parse_headers. destruct lines as [|line0 rest]; [discriminate|].
  destruct (scan_headers _ rest None ([], [])) as [r|e] eqn:E; [|discriminate].
  intros _. cbn [tl]. eapply scan_headers_blank. exact E.
Qed.

Lemma scan_headers_after_blank mfs post pre : forall inner acc,
  (inner <> None -> pre <> []) ->
  scan_headers mfs (pre ++ [] :: post) inner acc
  = scan_headers mfs (pre ++ [[]]) inner acc.
Proof.
  induction pre as [|line pre' IH]; intros inner acc Hin.
  - destruct inner as [i|]; [exfalso; now apply Hin|]. reflexivity.
  - cbn [app scan_headers]. destruct inner as [[[bname hl] bv]|].
    + destruct (_ >? _); [reflexivity|].
      destruct pre' as [|line' pre'']; [reflexivity|].
      cbn [app]. destruct (first_is_sp_ht line') as [[|]|]; try reflexivity;
        apply IH; congruence.
    + destruct (negb (truthy line)); [reflexivity|].
      destruct (split_once x3a line) as [[bn bv]|]; [|reflexivity].
      destruct (HDRRE_search _); [reflexivity|].
      destruct pre' as [|line' pre'']; [reflexivity|].
      cbn [app]. destruct (_ && _); [apply IH; congruence|].
      destruct (_ >? _); [reflexivity|]. apply IH; congruence.
Qed.

(** X17.  [parse_headers] never looks past the first empty line: whatever
    follows it in [lines] has no effect on the result, be it a value or an
    exception. *)
Theorem parse_headers_ignores_after_blank self first pre post :
  parse_headers self (first :: pre ++ [] :: post)
  = parse_headers self (first :: pre ++ [[]]).
Proof.
  unfold parse_headers.
  now rewrite (scan_headers_after_blank (max_field_size self) post pre None).
Qed.

Lemma scan_headers_plain mfs post hs : forall acc,
  Forall (fun nv =>
            forallb (fun c => negb (Byte.eqb c x3a)) (fst nv) = true /\
            HDRRE_search (bytes_upper (bytes_strip is_sp_ht (fst nv))) = false /\
            first_is_sp_ht (fst nv ++ x3a :: snd nv) = Some false /\
            len (fst nv ++ x3a :: snd nv) <= mfs) hs ->
  scan_headers mfs (map (fun nv => fst nv ++ x3a :: snd nv) hs ++ [] :: post) None acc
  = Returned
      (fst acc ++ map (fun nv =>
                         (istr (decode (bytes_upper (bytes_strip is_sp_ht (fst nv)))),
                          decode (bytes_strip is_bytes_space (snd nv)))) hs,
       snd acc ++ map (fun nv =>
                         (bytes_upper (bytes_strip is_sp_ht (fst nv)),
                          bytes_strip is_bytes_space (snd nv))) hs).
Proof.
  induction hs as [|[n v] hs' IH]; intros acc H.
  - cbn. destruct acc. now rewrite !app_nil_r.
  - apply Forall_cons_iff in H as [(Hn & Hh & _ & Hl) H']. cbn [fst snd] in *.
    cbn [map app scan_headers fst snd].
    replace (negb (truthy (n ++ x3a :: v))) with false by (now destruct n).
    rewrite (split_once_app x3a n v Hn), Hh.
    assert (Hc : match map (fun nv => fst nv ++ x3a :: snd nv) hs' ++ [] :: post with
                 | [] => False
                 | line' :: _ =>
                     truthy line' &&
                     match first_is_sp_ht line' with Some c => c | None => false end
                     = false
                 end).
    { destruct hs' as [|[n' v'] hs'']; [reflexivity|]. cbn [map app fst snd].
      apply Forall_cons_iff in H' as [(_ & _ & Hf & _) _]. cbn [fst snd] in Hf.
      rewrite Hf. apply andb_false_r. }
    specialize (IH (store_header (bytes_upper (bytes_strip is_sp_ht n)) v acc) H').
    destruct (map (fun nv => fst nv ++ x3a :: snd nv) hs' ++ [] :: post)
      as [|line' rest'']; [contradiction|].
    rewrite Hc. replace (len (n ++ x3a :: v) >? mfs) with false
      by (symmetry; rewrite Z.gtb_ltb; apply Z.ltb_ge; exact Hl).
    rewrite IH. unfold store_header, md_add. cbn [fst snd].
    now rewrite <- !app_assoc.
Qed.

(** X18.  Header lines without continuation: when each line is
    [name ':' value] with no colon in [name], a name free of separators
    once stripped of blanks, no leading blank and at most [max_field_size]
    bytes, and the block ends with an empty line, [parse_headers] returns
    one header per line, in order: the raw pair is the upper-cased name and
    the value without surrounding whitespace, and the multidict holds the
    same pairs decoded. *)
Theorem parse_headers_plain self first hs post :
  Forall (fun nv =>
            forallb (fun c => negb (Byte.eqb c x3a)) (fst nv) = true /\
            HDRRE_search (bytes_upper (bytes_strip is_sp_ht (fst nv))) = false /\
            first_is_sp_ht (fst nv ++ x3a :: snd nv) = Some false /\
            len (fst nv ++ x3a :: snd nv) <= max_field_size self) hs ->
  exists h,
    parse_headers self
      (first :: map (fun nv => fst nv ++ x3a :: snd nv) hs ++ [] :: post)
    = Returned h /\
    ph_raw_headers h
    = map (fun nv => (bytes_upper (bytes_strip is_sp_ht (fst nv)),
                      bytes_strip is_bytes_space (snd nv))) hs /\
    ph_headers h
    = map (fun nv => (istr (decode (bytes_upper (bytes_strip is_sp_ht (fst nv)))),
                      decode (bytes_strip is_bytes_space (snd nv)))) hs.
Proof.
  intros H. unfold parse_headers.
  rewrite (scan_headers_plain (max_field_size self) post hs ([], []) H).
  cbn [fst snd app].
  destruct (match md_get _ hdrs_CONNECTION with Some _ => _ | None => _ end)
    as [close_conn upgrade].
  eexists. split; [reflexivity|]. split; reflexivity.
Qed.

(** An invariant of the accumulated headers that adding one header with a
    separator-free name preserves holds of whatever the loops return. *)
Lemma scan_headers_inv (P : CIMultiDict * list raw_header -> Prop) mfs :
  (forall bname bvalue acc,
      HDRRE_search bname = false -> P acc -> P (store_header bname bvalue acc)) ->
  forall rest inner acc r,
    scan_headers mfs rest inner acc = Returned r ->
    P acc ->
    match inner with
    | Some (bname, _, _) => HDRRE_search bname = false
    | None => True
    end ->
    P r.
Proof.
  intros Hstore. induction rest as [|line rest' IH]; intros inner acc r; [discriminate|].
  cbn [scan_headers]. destruct inner as [[[bname hl] bv]|].
  - destruct (_ >? _); [discriminate|].
    destruct rest' as [|line' rest'']; [discriminate|].
    destruct (first_is_sp_ht line') as [[|]|]; try discriminate;
      intros H HP Hb; (eapply IH; [exact H| |]); cbn; auto.
  - destruct (negb (truthy line)); [intros [= <-] HP _; exact HP|].
    destruct (split_once x3a line) as [[bn bv]|]; [|discriminate].
    destruct (HDRRE_search _) eqn:Hh; [discriminate|].
    destruct rest' as [|line' rest'']; [discriminate|].
    destruct (_ && _); [intros H HP _; (eapply IH; [exact H| |]); cbn; auto|].
    destruct (_ >? _); [discriminate|].
    intros H HP _; (eapply IH; [exact H| |]); cbn; auto.
Qed.

(** X19.  Every raw header [parse_headers] returns, with or without
    continuation lines, has a name without any control character or
    separator of [HDRRE] and a value that [strip()] leaves unchanged. *)
Theorem parse_headers_raw_clean self lines h :
  parse_headers self lines = Returned h ->
  Forall (fun nv => HDRRE_search (fst nv) = false /\
                    bytes_strip is_bytes_space (snd nv) = snd nv)
         (ph_raw_headers h).
Proof.
  unfold parse_headers. destruct lines as [|line0 rest]; [discriminate|].
  destruct (scan_headers _ rest None ([], [])) as [[hd raw]|e] eqn:E; [|discriminate].
  destruct (match md_get _ hdrs_CONNECTION with Some _ => _ | None => _ end)
    as [close_conn upgrade].
  intros [= <-]. cbn [ph_raw_headers].
  refine (scan_headers_inv
            (fun acc => Forall (fun nv => HDRRE_search (fst nv) = false /\
                                          bytes_strip is_bytes_space (snd nv) = snd nv)
                               (snd acc)) _ _ _ _ _ _ E _ I).
  - intros bname bvalue acc Hb HP. unfold store_header. cbn [snd].
    apply Forall_app. split; [exact HP|]. constructor; [|constructor].
    cbn [fst snd]. split; [exact Hb | apply bytes_strip_idem].
  - constructor.
Qed.

(** X20.  The two header collections [parse_headers] returns agree: the
    multidict holds, in the same order, one entry per raw header, its name
    and value being the decoded raw name, as [istr], and the decoded raw
    value. *)
Theorem parse_headers_mirror self lines h :
  parse_headers self lines = Returned h ->
  ph_headers h
  = map (fun nv => (istr (decode (fst nv)), decode (snd nv))) (ph_raw_headers h).
Proof.
  unfold parse_headers. destruct lines as [|line0 rest]; [discriminate|].
  destruct (scan_headers _ rest None ([], [])) as [[hd raw]|e] eqn:E; [|discriminate].
  destruct (match md_get _ hdrs_CONNECTION with Some _ => _ | None => _ end)
    as [close_conn upgrade].
  intros [= <-]. cbn [ph_raw_headers ph_headers].
  refine (scan_headers_inv
            (fun acc => fst acc
                        = map (fun nv => (istr (decode (fst nv)), decode (snd nv)))
                              (snd acc)) _ _ _ _ _ _ E eq_refl I).
  intros bname bvalue acc _ HP. unfold store_header, md_add. cbn [fst snd].
  now rewrite map_app, HP.
Qed.

End HeaderLines.

Lemma parse_headers_needs_blank_line_witness :
  exists h,
    parse_headers HttpParser_default [b "GET / HTTP/1.1"; b "Host: a"; []] = Returned h /\
    In [] (tl [b "GET / HTTP/1.1"; b "Host: a"; []]).
Proof.
  assert (E : exists h, parse_headers HttpParser_default
                          [b "GET / HTTP/1.1"; b "Host: a"; []] = Returned h)
    by (vm_compute; eexists; reflexivity).
  destruct E as [h E]. exists h. split; [exact E|].
  exact (parse_headers_needs_blank_line _ _ _ E).
Defined.

Lemma parse_headers_plain_witness :
  exists h,
    parse_headers HttpParser_default
      [b "GET / HTTP/1.1"; b "Host: example.org"; b "accept : */* "; []; b "body"]
    = Returned h /\
    ph_raw_headers h = [(b "HOST", b "example.org"); (b "ACCEPT", b "*/*")] /\
    ph_headers h = [(lit "Host", lit "example.org"); (lit "Accept", lit "*/*")].
Proof.
  assert (H : Forall (fun nv =>
            forallb (fun c => negb (Byte.eqb c x3a)) (fst nv) = true /\
            HDRRE_search (bytes_upper (bytes_strip is_sp_ht (fst nv))) = false /\
            first_is_sp_ht (fst nv ++ x3a :: snd nv) = Some false /\
            len (fst nv ++ x3a :: snd nv) <= max_field_size HttpParser_default)
            [(b "Host", b " example.org"); (b "accept ", b " */* ")]).
  { repeat constructor; cbn; discriminate. }
  destruct (parse_headers_plain HttpParser_default (b "GET / HTTP/1.1")
              [(b "Host", b " example.org"); (b "accept ", b " */* ")]
              [b "body"] H) as (h & H1 & H2 & H3).
  exists h. split; [exact H1|]. split; [exact H2 | exact H3].
Defined.

Lemma parse_headers_raw_clean_witness :
  exists h,
    parse_headers HttpParser_default
      [b "GET / HTTP/1.1"; b "X-Long:  one"; b "  two "; b "Host: a"; []]
    = Returned h /\
    ph_raw_headers h = [(b "X-LONG", b "one" ++ SEP ++ b "  two"); (b "HOST", b "a")] /\
    Forall (fun nv => HDRRE_search (fst nv) = false /\
                      bytes_strip is_bytes_space (snd nv) = snd nv)
           (ph_raw_headers h).
Proof.
  assert (E : exists h, parse_headers HttpParser_default
                [b "GET / HTTP/1.1"; b "X-Long:  one"; b "  two "; b "Host: a"; []]
              = Returned h)
    by (vm_compute; eexists; reflexivity).
  destruct E as [h E]. exists h. split; [exact E|]. split.
  - vm_compute in E. injection E as <-. reflexivity.
  - exact (parse_headers_raw_clean _ _ _ E).
Defined.

Lemma parse_headers_mirror_witness :
  exists h,
    parse_headers HttpParser_default
      [b "GET / HTTP/1.1"; b "Host: a"; b "Host: b"; []] = Returned h /\
    ph_headers h
    = map (fun nv => (istr (decode (fst nv)), decode (snd nv))) (ph_raw_headers h).
Proof.
  assert (E : exists h, parse_headers HttpParser_default
                [b "GET / HTTP/1.1"; b "Host: a"; b "Host: b"; []] = Returned h)
    by (vm_compute; eexists; reflexivity).
  destruct E as [h E]. exists h. split; [exact E|].
  exact (parse_headers_mirror _ _ _ E).
Defined.

(** ** [DeflateBuffer] *)

Section Deflate.
Context {B : Builtins} {Zl : Zlib}.

Lemma sink_eof_app s t : sink_eof (s ++ t) = sink_eof s || sink_eof t.
Proof. apply existsb_app. Qed.

(** X21.  A length-delimited compressed body whose deflate stream is not
    complete when its last byte arrives: the [feed_data] call that receives
    the rest of the body raises [ContentEncodingError], and the sink is
    never told that the body has ended. *)
Theorem feed_data_truncated_deflate chunk self out sz z z1 data z2 t :
  _type self = PARSE_LENGTH ->
  payload self = DeflateBuffer out sz z ->
  0 <= sz -> chunk <> [] -> _length self = len chunk ->
  zlib_decompress z chunk = Some (z1, data) ->
  zlib_dflush z1 = (z2, t) ->
  zlib_eof z2 = false ->
  exists self',
    HttpPayloadParser_feed_data chunk self
    = Some (self', Raised (ContentEncodingError "deflate")) /\
    sink_eof (payload_out (payload self')) = sink_eof out /\
    sink_bytes (payload_out (payload self')) = sink_bytes out ++ data ++ t.
Proof.
  intros Ht Hp Hsz Hne Hl Hd Hf He.
  assert (Hpos : 0 < len chunk)
    by (destruct chunk; [congruence | unfold len; cbn [List.length]; lia]).
  destruct self as [pl l ty ck cs tl dn]. cbn in Ht, Hp, Hl. subst pl l ty.
  unfold HttpPayloadParser_feed_data. cbn [_type _length].
  rewrite (proj2 (Z.geb_le _ _) (Z.le_refl _)).
  unfold call_payload, Payload_feed_data, Payload_feed_eof.
  cbn [payload set_length _length set_payload]. rewrite Hd.
  rewrite Z.sub_diag.
  assert (Hgt : (sz + len chunk >? 0) = true) by (apply Z.gtb_lt; lia).
  destruct (truthy data) eqn:Etd; cbn [Z.eqb payload set_payload];
    rewrite Hf, Hgt, orb_true_r, He; cbn [negb];
    eexists; (split; [reflexivity|]); cbn [payload payload_out set_payload];
    rewrite ?sink_eof_app, ?sink_bytes_app; cbn [sink_eof sink_bytes existsb];
    rewrite ?orb_false_r, ?app_nil_r.
  - split; [reflexivity|]. now rewrite <- app_assoc.
  - split; [reflexivity|]. destruct data; [reflexivity | discriminate].
Qed.

(** X22.  An empty body announced with a content coding: [__init__] with
    [length=0] closes the payload at once.  The fresh [DeflateBuffer] has
    seen no input, so when the decompressor has nothing to flush its
    [feed_eof] forwards the end of the body without asking whether the
    deflate stream is complete, and the parser is [done]. *)
Theorem init_empty_compressed_body sink enc code method readall :
  String.eqb enc "" = false ->
  snd (zlib_dflush (zlib_decompressobj (zlib_mode enc))) = [] ->
  exists self,
    HttpPayloadParser_init sink (Some 0) false (Some enc) code method readall true
    = (self, Returned tt) /\
    done self = true /\
    payload_out (payload self) = sink ++ [feed_eof_call].
Proof.
  intros Henc Hfl. unfold HttpPayloadParser_init. rewrite Henc.
  cbn [andb negb set_payload set_type set_length _length Z.eqb payload].
  unfold call_payload, DeflateBuffer_init, Payload_feed_eof.
  cbn [payload set_length set_type set_payload].
  destruct (zlib_dflush (zlib_decompressobj (zlib_mode enc))) as [z t].
  cbn [snd] in Hfl. subst t. cbn [truthy orb Z.gtb Z.compare].
  eexists. split; [reflexivity|]. split; reflexivity.
Qed.

End Deflate.

Lemma feed_data_truncated_deflate_witness :
  let Zl := {| decompressobj := unit;
               zlib_decompressobj := fun _ => tt;
               zlib_decompress := fun z x => Some (z, x);
               zlib_dflush := fun z => (z, []);
               zlib_eof := fun _ => false;
               compressobj := unit;
               zlib_compressobj := fun _ => tt;
               zlib_compress := fun z x => (z, x);
               zlib_cflush := fun z => (z, []) |} in
  let self := fst (@HttpPayloadParser_init Zl [] (Some 3) false (Some "deflate"%string)
                     None None false true) in
  exists self',
    @HttpPayloadParser_feed_data ascii_builtins Zl (b "abc") self
    = Some (self', Raised (ContentEncodingError "deflate")) /\
    sink_eof (@payload_out Zl (payload self')) = sink_eof [] /\
    sink_bytes (@payload_out Zl (payload self')) = sink_bytes [] ++ b "abc" ++ [].
Proof.
  intros Zl self.
  apply (@feed_data_truncated_deflate ascii_builtins Zl (b "abc") self [] 0 tt tt
           (b "abc") tt [] eq_refl eq_refl (Z.le_refl 0) ltac:(discriminate)
           eq_refl eq_refl eq_refl eq_refl).
Defined.

Lemma init_empty_compressed_body_witness :
  exists self,
    HttpPayloadParser_init [] (Some 0) false (Some "gzip"%string) None None false true
    = (self, Returned tt) /\
    done self = true /\
    payload_out (payload self) = [] ++ [feed_eof_call].
Proof.
  apply (init_empty_compressed_body [] "gzip"%string None None false); reflexivity.
Defined.
